(** * blob.py: chunk codec, groups and the spec-driven stream reader

    A shallow embedding of [src/blob.py] (classes [Blob], [BlobGroup] and
    [BlobFile]) together with the properties established about it.

    Conventions of the embedding:
    - a Python [int] is a [Z]; a [bytes] object is a list of [Z] in
      [0, 256); a [str] is the list of its Unicode code points;
    - a Python exception is a value of [exn], carried by [res];
    - a method that may assign to fields of [self] is a computation in the
      state-and-exception monad [M] over the object: the state survives a
      raised exception, as it does in Python;
    - the open byte channel [fd] is the list of bytes not yet consumed. *)

From Stdlib Require Import ZArith List Lia Bool.
From stdpp Require Import base option list gmap.
Import ListNotations.

Local Open Scope Z_scope.

(** ** Python values *)

Abbreviation bytes := (list Z).
Abbreviation str := (list Z).

(** The exceptions the module can raise, directly or through a built-in. *)
Inductive exn : Type :=
| AttributeError
| TypeError
| ValueError
| OverflowError
| UnicodeEncodeError
| UnicodeDecodeError
| KeyError
| IndexError
| FileTypeError
| VersionError
| UnsupportedOperation.

(** Outcome of a call. [NoFuel] belongs to the embedding only: it is what a
    fuel-bounded recursion answers when the bound is hit. [read_total]
    shows that [read] never produces it. *)
Inductive res (A : Type) : Type :=
| Ok (a : A)
| Raise (e : exn)
| NoFuel.
Arguments Ok {A} a.
Arguments Raise {A} e.
Arguments NoFuel {A}.

Definition bindR {A B : Type} (r : res A) (k : A -> res B) : res B :=
  match r with
  | Ok a => k a
  | Raise e => Raise e
  | NoFuel => NoFuel
  end.

Notation "x <~ r ;; k" := (bindR r (fun x => k))
  (at level 100, r at next level, right associativity).

(** State-and-exception monad over a mutable object of type [S]. *)
Definition M (S A : Type) : Type := S -> res A * S.

Definition ret {S A : Type} (a : A) : M S A := fun s => (Ok a, s).
Definition raise {S A : Type} (e : exn) : M S A := fun s => (Raise e, s).
Definition lift {S A : Type} (r : res A) : M S A := fun s => (r, s).
Definition get {S : Type} : M S S := fun s => (Ok s, s).
Definition put {S : Type} (s' : S) : M S unit := fun _ => (Ok tt, s').

Definition bind {S A B : Type} (m : M S A) (k : A -> M S B) : M S B :=
  fun s =>
    match m s with
    | (Ok a, s') => k a s'
    | (Raise e, s') => (Raise e, s')
    | (NoFuel, s') => (NoFuel, s')
    end.

Notation "x <- m ;; k" := (bind m (fun x => k))
  (at level 100, m at next level, right associativity).

(** The values a chunk's [content] takes in this module. *)
Inductive pyval : Type :=
| VNone
| VBool (b : bool)
| VInt (z : Z)
| VStr (s : str)
| VBytes (bs : bytes).

(** The Python type objects passed as [dtype] or stored in a spec.
    [TOther] stands for any type the module has no case for. *)
Inductive dtype : Type := TInt | TStr | TBytes | TBool | TOther.

(** [isinstance(v, bytes)], [isinstance(v, int)] (true of a [bool], which
    subclasses [int]), [isinstance(v, bool)], [isinstance(v, str)]. *)
Definition as_bytes (v : pyval) : option bytes :=
  match v with VBytes bs => Some bs | _ => None end.
Definition as_int (v : pyval) : option Z :=
  match v with VInt z => Some z | VBool b => Some (Z.b2z b) | _ => None end.
Definition as_bool (v : pyval) : option bool :=
  match v with VBool b => Some b | _ => None end.
Definition as_str (v : pyval) : option str :=
  match v with VStr s => Some s | _ => None end.

(** Truth value of an object used as a condition. *)
Definition truthy (v : pyval) : bool :=
  match v with
  | VNone => false
  | VBool b => b
  | VInt z => negb (z =? 0)
  | VStr s => negb (length s =? 0)%nat
  | VBytes bs => negb (length bs =? 0)%nat
  end.

(** ** Built-ins: [int.to_bytes], [int.from_bytes], codecs, [str(bytes)] *)

(** The [n] low-order bytes of [v], most significant first; floor division
    makes this the two's-complement pattern when [v] is negative. *)
Fixpoint to_bytes_be (n : nat) (v : Z) : bytes :=
  match n with
  | O => []
  | S k => to_bytes_be k (v / 256) ++ [v mod 256]
  end.

(** Range accepted by [to_bytes(len, signed=True)]. CPython accepts both
    [0] and [-1] at length [0]. *)
Definition fits_signed (len v : Z) : bool :=
  if len =? 0 then (v =? 0) || (v =? -1)
  else (- 2 ^ (8 * len - 1) <=? v) && (v <? 2 ^ (8 * len - 1)).

Definition fits_unsigned (len v : Z) : bool :=
  (0 <=? v) && (v <? 2 ^ (8 * len)).

(** [v.to_bytes(len, byteorder='big', signed=signed)]. *)
Definition int_to_bytes (v len : Z) (signed : bool) : res bytes :=
  if len <? 0 then Raise ValueError
  else if (if signed then fits_signed len v else fits_unsigned len v)
       then Ok (to_bytes_be (Z.to_nat len) v)
       else Raise OverflowError.

(** [int.from_bytes(bs, byteorder='big')]: unsigned. *)
Definition int_from_bytes (bs : bytes) : Z :=
  fold_left (fun acc b => acc * 256 + b) bs 0.

(** [s.encode('ASCII')]. *)
Fixpoint ascii_encode (s : str) : res bytes :=
  match s with
  | [] => Ok []
  | c :: s' =>
      if (0 <=? c) && (c <? 128)
      then (r <~ ascii_encode s' ;; Ok (c :: r))
      else Raise UnicodeEncodeError
  end.

(** UTF-8 encoding of one code point; surrogates are refused. *)
Definition utf8_encode_cp (c : Z) : res bytes :=
  if c <? 0 then Raise UnicodeEncodeError
  else if c <? 128 then Ok [c]
  else if c <? 2048 then Ok [192 + c / 64; 128 + c mod 64]
  else if (55296 <=? c) && (c <=? 57343) then Raise UnicodeEncodeError
  else if c <? 65536 then
    Ok [224 + c / 4096; 128 + (c / 64) mod 64; 128 + c mod 64]
  else if c <? 1114112 then
    Ok [240 + c / 262144; 128 + (c / 4096) mod 64;
        128 + (c / 64) mod 64; 128 + c mod 64]
  else Raise UnicodeEncodeError.

(** [s.encode()]. *)
Fixpoint utf8_encode (s : str) : res bytes :=
  match s with
  | [] => Ok []
  | c :: s' => b <~ utf8_encode_cp c ;; r <~ utf8_encode s' ;; Ok (b ++ r)
  end.

Definition between (lo hi b : Z) : bool := (lo <=? b) && (b <=? hi).
Definition cont_byte (b : Z) : bool := between 128 191 b.

(** [bs.decode()]: strict UTF-8 (no overlong forms, no surrogates, nothing
    above U+10FFFF); [None] stands for [UnicodeDecodeError]. *)
Fixpoint utf8_decode (bs : bytes) : option str :=
  match bs with
  | [] => Some []
  | b0 :: t0 =>
    if between 0 127 b0 then cons b0 <$> utf8_decode t0
    else if between 194 223 b0 then
      match t0 with
      | b1 :: t1 =>
          if cont_byte b1
          then cons ((b0 - 192) * 64 + (b1 - 128)) <$> utf8_decode t1
          else None
      | _ => None
      end
    else if between 224 239 b0 then
      match t0 with
      | b1 :: b2 :: t2 =>
          if between (if b0 =? 224 then 160 else 128)
                     (if b0 =? 237 then 159 else 191) b1 && cont_byte b2
          then cons ((b0 - 224) * 4096 + (b1 - 128) * 64 + (b2 - 128))
                 <$> utf8_decode t2
          else None
      | _ => None
      end
    else if between 240 244 b0 then
      match t0 with
      | b1 :: b2 :: b3 :: t3 =>
          if between (if b0 =? 240 then 144 else 128)
                     (if b0 =? 244 then 143 else 191) b1
             && cont_byte b2 && cont_byte b3
          then cons ((b0 - 240) * 262144 + (b1 - 128) * 4096
                     + (b2 - 128) * 64 + (b3 - 128))
                 <$> utf8_decode t3
          else None
      | _ => None
      end
    else None
  end.

Definition hexdigit (d : Z) : Z := if d <? 10 then 48 + d else 87 + d.

(** One byte as [bytes.__repr__] renders it, inside quote [q]. *)
Definition repr_byte (q c : Z) : str :=
  if (c =? q) || (c =? 92) then [92; c]
  else if c =? 9 then [92; 116]
  else if c =? 10 then [92; 110]
  else if c =? 13 then [92; 114]
  else if (c <? 32) || (127 <=? c)
       then [92; 120; hexdigit (c / 16); hexdigit (c mod 16)]
  else [c].

(** [str(bs)] for a [bytes] object: the literal [b'...'], with double
    quotes when the data holds a single quote and no double quote. *)
Definition str_of_bytes (bs : bytes) : str :=
  let has c := existsb (Z.eqb c) bs in
  let q := if has 39 && negb (has 34) then 34 else 39 in
  [98; q] ++ concat (map (repr_byte q) bs) ++ [q].

(** [str(None)]. *)
Definition str_None : str := [78; 111; 110; 101].

(** ** class Blob *)

Record Blob : Type := mkBlob {
  sig : str;
  content : pyval;
  contentRaw : option bytes;
  size : Z
}.

Definition set_content (v : pyval) : M Blob unit :=
  fun self => (Ok tt, mkBlob (sig self) v (contentRaw self) (size self)).

(** A [bytes]-or-[None] field seen as a value. *)
Definition raw_val (raw : option bytes) : pyval :=
  match raw with Some bs => VBytes bs | None => VNone end.

(** [int.from_bytes(self.contentRaw, byteorder='big')]; the built-in
    refuses [None]. *)
Definition getAs_int : M Blob Z :=
  self <- get ;;
  match contentRaw self with
  | Some bs => ret (int_from_bytes bs)
  | None => raise TypeError
  end.

(** [Blob.getAs]. The argument is [None] for Python's [None]. Under
    [str] any failure of [decode] (also the missing attribute when
    [contentRaw] is [None]) falls back to [str(self.contentRaw)]. *)
Definition getAs (d : option dtype) : M Blob pyval :=
  match d with
  | Some TInt => z <- getAs_int ;; ret (VInt z)
  | Some TStr =>
      self <- get ;;
      match contentRaw self with
      | Some bs =>
          match utf8_decode bs with
          | Some s => ret (VStr s)
          | None => ret (VStr (str_of_bytes bs))
          end
      | None => ret (VStr str_None)
      end
  | Some TBytes => self <- get ;; ret (raw_val (contentRaw self))
  | Some TBool => z <- getAs_int ;; ret (VBool (negb (z =? 0)))
  | None => ret VNone
  | Some TOther => self <- get ;; ret (raw_val (contentRaw self))
  end.

(** [Blob.convert]. *)
Definition convert (d : option dtype) : M Blob pyval :=
  v <- getAs d ;;
  _ <- set_content v ;;
  ret v.

(** [Blob.__int__]. *)
Definition Blob_int : M Blob Z :=
  self <- get ;;
  match as_int (content self) with
  | Some z => ret z
  | None => getAs_int
  end.

(** [Blob.__bool__]. *)
Definition Blob_bool : M Blob bool :=
  z <- Blob_int ;; ret (negb (z =? 0)).

(** [Blob.__init__]. Branches are tried in the order of the source; a
    [bool] is an [int] instance, so it is taken by the [int] branch and
    the [bool] branch below it is never reached. *)
Definition Blob_init (sg : str) (cnt : pyval) (sz : option Z)
    (d : option dtype) : res Blob :=
  rs <~ match as_bytes cnt with
        | Some bs => Ok (Some bs, sz)
        | None =>
          match as_int cnt with
          | Some v =>
              let sz' := default 4 sz in
              raw <~ int_to_bytes v sz' true ;; Ok (Some raw, Some sz')
          | None =>
            match as_bool cnt with
            | Some b =>
                let sz' := default 1 sz in
                raw <~ int_to_bytes (Z.b2z b) sz' true ;;
                Ok (Some raw, Some sz')
            | None =>
              match as_str cnt with
              | Some s => raw <~ utf8_encode s ;; Ok (Some raw, sz)
              | None => Ok (None, Some 0)
              end
            end
          end
        end ;;
  let '(raw, sz1) := rs in
  sz2 <~ match sz1 with
         | Some n => Ok n
         | None =>
             match raw with
             | Some bs => Ok (Z.of_nat (length bs))
             | None => Raise TypeError
             end
         end ;;
  let self := mkBlob sg cnt raw sz2 in
  match d with
  | Some _ => let '(r, self') := convert d self in _ <~ r ;; Ok self'
  | None => Ok self
  end.

(** [Blob.encode]. *)
Definition Blob_encode : M Blob bytes :=
  self <- get ;;
  s <- lift (ascii_encode (sig self)) ;;
  z <- lift (int_to_bytes (size self) 4 false) ;;
  if size self =? 0 then ret (s ++ z)
  else match contentRaw self with
       | Some raw => ret (s ++ z ++ raw)
       | None => raise TypeError
       end.

(** Value of a call on an object whose later state is not looked at. *)
Definition eval {S A : Type} (m : M S A) (s : S) : res A := fst (m s).

(** ** class BlobGroup *)

(** The fields a [BlobGroup] adds to those it inherits from [Blob]
    ([base]). [data] is the list behind [UserList]; an entry is [None]
    where [read] appended its end-of-file answer. [dict] is kept as an
    association list in insertion order, the order [keys()] and [items()]
    enumerate. *)
Record BlobGroupOf (T : Type) : Type := mkGroup {
  base : Blob;
  data : list (option T);
  dict : list (str * T);
  terminator : option T
}.
Arguments mkGroup {T} base data dict terminator.
Arguments base {T} _.
Arguments data {T} _.
Arguments dict {T} _.
Arguments terminator {T} _.

(** What [read] returns and a group holds: a [Blob] or a [BlobGroup]. *)
#[warnings="-register-all"]
Inductive item : Type :=
| IBlob (b : Blob)
| IGroup (g : BlobGroupOf item).

Abbreviation BlobGroup := (BlobGroupOf item).

(** The inherited [Blob] part of either kind of object. *)
Definition blob_of (x : item) : Blob :=
  match x with IBlob b => b | IGroup g => base g end.

(** [BlobGroup.__init__]; a falsy [children] (absent or empty) leaves the
    fresh empty list in place. *)
Definition BlobGroup_init (sg : str) (children : option (list (option item)))
    (cnt : pyval) : res BlobGroup :=
  b <~ Blob_init sg cnt None None ;;
  Ok (mkGroup b (default [] children) [] None).

(** [list.append] on [self.data]. *)
Definition append (x : option item) : M BlobGroup unit :=
  fun g => (Ok tt, mkGroup (base g) (data g ++ [x]) (dict g) (terminator g)).

(** [BlobGroup.clearDict]. *)
Definition clearDict : M BlobGroup unit :=
  fun g => (Ok tt, mkGroup (base g) (data g) [] (terminator g)).

Definition str_eqb (a b : str) : bool := bool_decide (a = b).

(** [d.get(k)] on the association list. *)
Fixpoint dict_get {T : Type} (d : list (str * T)) (k : str) : option T :=
  match d with
  | [] => None
  | (k', v) :: d' => if str_eqb k' k then Some v else dict_get d' k
  end.

(** [d.setdefault(k, v)]: a key already present keeps its value. *)
Definition setdefault {T : Type} (d : list (str * T)) (k : str) (v : T)
    : list (str * T) :=
  match dict_get d k with
  | Some _ => d
  | None => d ++ [(k, v)]
  end.

(** The loop of [genDict]; [blob.sig] fails on a [None] child. The
    entries made before the failure stay in the dictionary. *)
Fixpoint genDict_loop (cs : list (option item)) (d : list (str * item))
    : res unit * list (str * item) :=
  match cs with
  | [] => (Ok tt, d)
  | None :: _ => (Raise AttributeError, d)
  | Some x :: cs' => genDict_loop cs' (setdefault d (sig (blob_of x)) x)
  end.

(** [BlobGroup.genDict]. *)
Definition genDict : M BlobGroup unit :=
  fun g =>
    match dict g with
    | [] =>
        let '(r, d) := genDict_loop (data g) (dict g) in
        (r, mkGroup (base g) (data g) d (terminator g))
    | _ :: _ => (Ok tt, g)
    end.

(** [BlobGroup.__contains__]. *)
Definition contains (key : str) : M BlobGroup bool :=
  _ <- genDict ;;
  g <- get ;;
  ret (bool_decide (is_Some (dict_get (dict g) key))).

(** [BlobGroup.__getitem__] with a [str] subscript. *)
Definition getitem_str (key : str) : M BlobGroup item :=
  _ <- genDict ;;
  g <- get ;;
  match dict_get (dict g) key with
  | Some x => ret x
  | None => raise KeyError
  end.

(** [BlobGroup.__getitem__] with an [int] subscript: the list's own
    indexing, negative subscripts counting from the end. *)
Definition getitem_int (i : Z) : M BlobGroup (option item) :=
  g <- get ;;
  let n := Z.of_nat (length (data g)) in
  let j := if i <? 0 then i + n else i in
  if (0 <=? j) && (j <? n)
  then match data g !! Z.to_nat j with
       | Some x => ret x
       | None => raise IndexError
       end
  else raise IndexError.

(** [BlobGroup.keys] and [BlobGroup.items], as the sequences they
    enumerate; [BlobGroup.values]. *)
Definition keys : M BlobGroup (list str) :=
  _ <- genDict ;; g <- get ;; ret (map fst (dict g)).
Definition items : M BlobGroup (list (str * item)) :=
  _ <- genDict ;; g <- get ;; ret (dict g).
Definition values : M BlobGroup (list (option item)) :=
  g <- get ;; ret (data g).

(** [encode], dispatched on the class of the object: [Blob.encode] or
    [BlobGroup.encode]. The group writes a fresh [Blob(self.sig,
    len(self.data))] and then its children; a [None] child has no
    [encode]. *)
Fixpoint encode (x : item) : res bytes :=
  match x with
  | IBlob b => eval Blob_encode b
  | IGroup g =>
      hdr <~ Blob_init (sig (base g)) (VInt (Z.of_nat (length (data g))))
               None None ;;
      h <~ eval Blob_encode hdr ;;
      r <~ (fix children (cs : list (option item)) : res bytes :=
              match cs with
              | [] => Ok []
              | None :: _ => Raise AttributeError
              | Some c :: cs' =>
                  e <~ encode c ;; r <~ children cs' ;; Ok (e ++ r)
              end) (data g) ;;
      Ok (h ++ r)
  end.

(** ** class BlobFile *)

(** A value of the [spec] dictionary: the type [list], an [int], a [str],
    or another type object. A signature mapped to [None] reads like one
    that is not in the dictionary. *)
Inductive spec_val : Type :=
| SList
| SCount (n : Z)
| SMarker (m : str)
| SType (d : dtype).

(** [fh.read(n)] for [n >= 0]: at most [n] bytes, fewer at end of file. *)
Definition fh_read (n : Z) : M bytes bytes :=
  fun s => (Ok (take (Z.to_nat n) s), drop (Z.to_nat n) s).

(** [for i in range(n): grp.append(self.read())], on the list being
    filled; [rd] is the recursive [self.read]. *)
Fixpoint read_n (rd : M bytes (option item)) (n : nat)
    (acc : list (option item)) : M bytes (list (option item)) :=
  match n with
  | O => ret acc
  | S n' => x <- rd ;; read_n rd n' (acc ++ [x])
  end.

(** The loop of the end-marker shape:
    [blob = self.read(); while blob.sig != btype: grp.append(blob); blob =
    self.read()]. It answers the children and the terminator. [k] bounds
    the number of turns. *)
Fixpoint read_until (rd : M bytes (option item)) (marker : str) (k : nat)
    (acc : list (option item)) : M bytes (list (option item) * item) :=
  match k with
  | O => lift NoFuel
  | S k' =>
      b <- rd ;;
      match b with
      | None => raise AttributeError
      | Some x =>
          if str_eqb (sig (blob_of x)) marker then ret (acc, x)
          else read_until rd marker k' (acc ++ [Some x])
      end
  end.

Definition with_data (g : BlobGroup) (cs : list (option item)) : BlobGroup :=
  mkGroup (base g) cs (dict g) (terminator g).
Definition with_terminator (g : BlobGroup) (t : option item) : BlobGroup :=
  mkGroup (base g) (data g) (dict g) t.

(** The body of [BlobFile.read]. [rd] stands for the recursive
    [self.read()] and [k] bounds the turns of the end-marker loop. *)
Definition read_body (rd : M bytes (option item)) (k : nat)
    (spec : gmap str spec_val) : M bytes (option item) :=
  sigraw <- fh_read 4 ;;
  match sigraw with
  | [] => ret None
  | _ :: _ =>
      sg <- lift (match utf8_decode sigraw with
                  | Some s => Ok s
                  | None => Raise UnicodeDecodeError
                  end) ;;
      szraw <- fh_read 4 ;;
      let sz := int_from_bytes szraw in
      dat <- (if sz =? 0 then ret None
              else (d <- fh_read sz ;; ret (Some d))) ;;
      blob <- lift (Blob_init sg (raw_val dat) None None) ;;
      match spec !! sg with
      | Some SList =>
          grp <- lift (BlobGroup_init (sig blob) None VNone) ;;
          n <- lift (eval Blob_int blob) ;;
          cs <- read_n rd (Z.to_nat n) (data grp) ;;
          ret (Some (IGroup (with_data grp cs)))
      | Some (SCount n) =>
          grp <- lift (BlobGroup_init (sig blob) None (content blob)) ;;
          cs <- read_n rd (Z.to_nat n) (data grp) ;;
          ret (Some (IGroup (with_data grp cs)))
      | Some (SMarker m) =>
          grp <- lift (BlobGroup_init (sig blob) None (content blob)) ;;
          r <- read_until rd m k (data grp) ;;
          ret (Some (IGroup
                 (with_terminator (with_data grp (fst r)) (Some (snd r)))))
      | Some (SType d) =>
          if negb (sz =? 0)
          then let '(r, blob') := convert (Some d) blob in
               _ <- lift r ;; ret (Some (IBlob blob'))
          else ret (Some (IBlob blob))
      | None => ret (Some (IBlob blob))
      end
  end.

(** [BlobFile.read], the recursion bounded in depth by [fuel]. *)
Fixpoint read_fuel (fuel : nat) (spec : gmap str spec_val)
    : M bytes (option item) :=
  match fuel with
  | O => lift NoFuel
  | S fuel' => read_body (read_fuel fuel' spec) fuel' spec
  end.

(** [BlobFile.read] on the channel: every call uses one byte at least, or
    answers at once, so the length of the channel bounds the depth. *)
Definition read (spec : gmap str spec_val) : M bytes (option item) :=
  fun s => read_fuel (S (length s)) spec s.

(** The file object handed to [BlobFile]: its mode, the bytes from its
    position on that are still to be read, and the bytes written so far. *)
Record File : Type := mkFile {
  readable : bool;
  writable : bool;
  input : bytes;
  output : bytes
}.

Record BlobFile : Type := mkBlobFile {
  fd : File;
  spec : gmap str spec_val;
  blobheader : option item;
  header : option item
}.

(** A computation on the channel, run on the [input] of a file. *)
Definition on_input {A : Type} (m : M bytes A) : M File A :=
  fun f =>
    let '(r, s') := m (input f) in
    (r, mkFile (readable f) (writable f) s' (output f)).

(** [BlobFile.write]: [self.fd.write(blob.encode())]. The object is
    encoded first. A file object that is not open for writing refuses the
    bytes ([io.UnsupportedOperation]). One that is open for reading too has
    a single position for both: the bytes written take the place of as
    many bytes not yet read, and reading goes on after them. *)
Definition write (x : item) : M File unit :=
  e <- lift (encode x) ;;
  fun f =>
    if writable f
    then (Ok tt,
          mkFile (readable f) (writable f)
            (if readable f then drop (length e) (input f) else input f)
            (output f ++ e))
    else (Raise UnsupportedOperation, f).

(** The magic signature ['BLOB']. *)
Definition BLOB : str := [66; 76; 79; 66].

(** A method of [Blob] called on an object of either class. *)
Definition on_blob {A : Type} (m : M Blob A) : M item A :=
  fun x =>
    match x with
    | IBlob b => let '(r, b') := m b in (r, IBlob b')
    | IGroup g =>
        let '(r, b') := m (base g) in
        (r, IGroup (mkGroup b' (data g) (dict g) (terminator g)))
    end.

(** [x is not None and x.content and x.getAs(int) < bound] (or [>], by
    [cmp]): the guard of either version check. *)
Definition version_fails (cmp : Z -> Z -> bool) (bound : option Z) (x : item)
    : res bool :=
  match bound with
  | None => Ok false
  | Some v =>
      if truthy (content (blob_of x))
      then (n <~ eval getAs_int (blob_of x) ;; Ok (cmp n v))
      else Ok false
  end.

(** [if h and h.content: h.convert(int)]: truth of the object itself is
    [Blob.__bool__], which both classes inherit. *)
Definition settle_header (h : option item) : res (option item) :=
  match h with
  | None => Ok None
  | Some x =>
      t <~ eval Blob_bool (blob_of x) ;;
      if t && truthy (content (blob_of x))
      then let '(r, x') := on_blob (convert (Some TInt)) x in
           _ <~ r ;; Ok (Some x')
      else Ok (Some x)
  end.

Definition str_truthy (s : option str) : bool :=
  match s with Some (_ :: _) => true | _ => false end.

Definition opt_int (v : option Z) : pyval :=
  match v with Some z => VInt z | None => VNone end.

(** [BlobFile.__init__], as a computation on the file object [fd]; the
    answer is the constructed [BlobFile]. *)
Definition BlobFile_init (sp : option (gmap str spec_val))
    (filetype : option str) (version blobver : option Z)
    : M File BlobFile :=
  let spec := default ∅ sp in
  f <- get ;;
  hs <- (if readable f && str_truthy filetype then
           bh <- on_input (read spec) ;;
           match bh with
           | None => raise AttributeError
           | Some bh =>
             if negb (str_eqb (sig (blob_of bh)) BLOB)
             then raise FileTypeError
             else
               old <- lift (version_fails Z.ltb blobver bh) ;;
               if (old : bool) then raise VersionError
               else
                 h <- on_input (read spec) ;;
                 match h with
                 | None => raise AttributeError
                 | Some h =>
                   if negb (str_eqb (sig (blob_of h)) (default [] filetype))
                   then raise FileTypeError
                   else
                     new <- lift (version_fails Z.gtb version h) ;;
                     if (new : bool) then raise VersionError
                     else ret (Some bh, Some h)
                 end
           end
         else if writable f && str_truthy filetype then
           bh <- lift (Blob_init BLOB (opt_int blobver) None None) ;;
           _ <- write (IBlob bh) ;;
           h <- lift (Blob_init (default [] filetype) (opt_int version)
                        None None) ;;
           _ <- write (IBlob h) ;;
           ret (Some (IBlob bh), Some (IBlob h))
         else ret (None, None)) ;;
  bh' <- lift (settle_header (fst hs)) ;;
  h' <- lift (settle_header (snd hs)) ;;
  f' <- get ;;
  ret (mkBlobFile f' spec bh' h').

(** ** Iteration over a BlobFile *)

(** [for x in blobfile], as [list(blobfile)] collects it: [__iter__]
    returns the object itself and [__next__] is [read], ending the loop
    (by [StopIteration]) when [read] answers [None]; a group never compares
    equal to [None], however empty. An exception raised by a read leaves
    the loop, and the list, unfinished. [k] bounds the number of turns. *)
Fixpoint iterate (spec : gmap str spec_val) (k : nat) (acc : list item)
    : M bytes (list item) :=
  match k with
  | O => lift NoFuel
  | S k' =>
      nxt <- read spec ;;
      match nxt with
      | None => ret acc
      | Some x => iterate spec k' (acc ++ [x])
      end
  end.

(** Every turn but the last uses one byte at least, so the length of the
    channel bounds the number of turns. *)
Definition BlobFile_iter (spec : gmap str spec_val) : M bytes (list item) :=
  fun s => iterate spec (S (length s)) [] s.

(** * Vocabulary of the statements *)

(** A child carries signature [k]. *)
Definition has_sig (k : str) (x : item) : bool :=
  str_eqb (sig (blob_of x)) k.

(** A computation on the channel only ever consumes bytes. *)
Definition le_len {A : Type} (m : M bytes A) : Prop :=
  forall s r s', m s = (r, s') -> (length s' <= length s)%nat.

(** Two computations give the same outcome on channels of at most [N]
    bytes. *)
Definition agree {A : Type} (N : nat) (m m' : M bytes A) : Prop :=
  forall s, (length s <= N)%nat -> m s = m' s.

(** A computation does not run out of fuel on channels of at most [N]
    bytes. *)
Definition total {A : Type} (N : nat) (m : M bytes A) : Prop :=
  forall s, (length s <= N)%nat -> fst (m s) <> NoFuel.

(** The chunk [read] makes of a signature and the payload it took off the
    channel ([None] when the declared size is zero). *)
Definition chunk (sg : str) (dat : option bytes) : Blob :=
  mkBlob sg (raw_val dat) dat
    (match dat with Some d => Z.of_nat (length d) | None => 0 end).

(** A successful [read] that yields an object has consumed bytes. *)
Definition progresses (rd : M bytes (option item)) : Prop :=
  forall s x s', rd s = (Ok (Some x), s') -> (length s' < length s)%nat.

(** What [read] takes as payload after the size field [szraw], and what
    it leaves of [body], the bytes that follow the size field. *)
Definition payload_of (szraw body : bytes) : option bytes :=
  if int_from_bytes szraw =? 0 then None
  else Some (take (Z.to_nat (int_from_bytes szraw)) body).

Definition after_payload (szraw body : bytes) : bytes :=
  if int_from_bytes szraw =? 0 then body
  else drop (Z.to_nat (int_from_bytes szraw)) body.

(** Successive calls of [read] on channel [s] yield the objects [xs] and
    leave [s']. *)
Fixpoint reads (sp : gmap str spec_val) (s : bytes) (xs : list item)
    (s' : bytes) : Prop :=
  match xs with
  | [] => s' = s
  | x :: xs' =>
      exists s1, read sp s = (Ok (Some x), s1) /\ reads sp s1 xs' s'
  end.

(** The outcome of a group's loop, turned into the outcome of [read]. *)
Definition group_result {A : Type} (mk : A -> BlobGroup)
    (r : res A * bytes) : res (option item) * bytes :=
  (match fst r with
   | Ok a => Ok (Some (IGroup (mk a)))
   | Raise e => Raise e
   | NoFuel => NoFuel
   end, snd r).

(** The spec gives signature [sg] no group shape: it is absent, mapped
    to [None], or mapped to a type. *)
Definition scalar_sig (sp : gmap str spec_val) (sg : str) : Prop :=
  match sp !! sg with
  | None | Some (SType _) => True
  | Some SList | Some (SCount _) | Some (SMarker _) => False
  end.

(** The declared size of a chunk is the length of its raw payload (zero
    when it has none). *)
Definition wf_chunk (b : Blob) : Prop :=
  match contentRaw b with
  | Some raw => size b = Z.of_nat (length raw)
  | None => size b = 0
  end.

(** The raw payload that reaches the stream: none at declared size 0. *)
Definition stored_raw (b : Blob) : option bytes :=
  if size b =? 0 then None else contentRaw b.

(** The chunk [read] returns for the encoding of [b]: signature, size and
    stored payload of [b], the content being the payload itself or, under
    a type in the spec, its conversion. *)
Definition decoded (sp : gmap str spec_val) (b : Blob) : Blob :=
  let c := chunk (sig b) (stored_raw b) in
  match sp !! sig b with
  | Some (SType d) =>
      if size b =? 0 then c else snd (convert (Some d) c)
  | _ => c
  end.

(** The caller gives a size only with an integer (or boolean) content. *)
Definition size_for (cnt : pyval) (sz : option Z) : Prop :=
  match cnt with
  | VStr _ | VBytes _ => sz = None
  | VNone | VBool _ | VInt _ => True
  end.

(** The loop of [BlobGroup.encode] over the children. *)
Fixpoint encode_list (cs : list (option item)) : res bytes :=
  match cs with
  | [] => Ok []
  | None :: _ => Raise AttributeError
  | Some c :: cs' => e <~ encode c ;; r <~ encode_list cs' ;; Ok (e ++ r)
  end.

(** The object [read] returns for the encoding of [x] under a spec that
    maps the signature of every group in [x] to [list]: a chunk comes
    back as [decoded]; a group comes back with nothing but its signature
    in its own fields and with its children read back in order. *)
Fixpoint norm (sp : gmap str spec_val) (x : item) : item :=
  match x with
  | IBlob b => IBlob (decoded sp b)
  | IGroup g =>
      IGroup (mkGroup (chunk (sig (base g)) None)
                (map (fun c => match c with
                               | Some c' => Some (norm sp c')
                               | None => None
                               end) (data g))
                [] None)
  end.

(** [x] can be written and read back under [sp]: signatures have four
    characters, chunks declare the size of their payload and have no
    group shape in [sp], groups have the shape [list] in [sp] and no
    [None] among their children. *)
Fixpoint wf_item (sp : gmap str spec_val) (x : item) : Prop :=
  match x with
  | IBlob b =>
      length (sig b) = 4%nat /\ wf_chunk b /\ scalar_sig sp (sig b)
  | IGroup g =>
      length (sig (base g)) = 4%nat
      /\ sp !! sig (base g) = Some SList
      /\ (fix all (cs : list (option item)) : Prop :=
            match cs with
            | [] => True
            | c :: cs' =>
                match c with
                | Some c' => wf_item sp c'
                | None => False
                end /\ all cs'
            end) (data g)
  end.

(** Child [c'] of the group read is child [c] of the group written: it is
    what [norm] says, it has the signature of [c], and a chunk keeps its
    declared size and its stored payload. *)
Definition read_back_as (sp : gmap str spec_val) (c c' : option item)
    : Prop :=
  match c, c' with
  | Some x, Some x' =>
      x' = norm sp x
      /\ sig (blob_of x') = sig (blob_of x)
      /\ match x, x' with
         | IBlob b, IBlob b' =>
             size b' = size b /\ contentRaw b' = stored_raw b
         | IGroup g, IGroup g' => length (data g') = length (data g)
         | _, _ => False
         end
  | _, _ => False
  end.

(** Induction on an object, with the hypothesis for every child of a
    group. *)
Fixpoint item_children_ind (P : item -> Prop)
    (HB : forall b, P (IBlob b))
    (HG : forall g,
        Forall (fun c => match c with Some c' => P c' | None => True end)
               (data g) ->
        P (IGroup g))
    (x : item) : P x :=
  match x with
  | IBlob b => HB b
  | IGroup g =>
      HG g
        ((fix go (cs : list (option item))
            : Forall (fun c => match c with Some c' => P c' | None => True end)
                     cs :=
            match cs with
            | [] => @List.Forall_nil _ _
            | c :: cs' =>
                @List.Forall_cons _ _ c cs'
                  (match c as c0
                         return match c0 with
                                | Some c' => P c'
                                | None => True
                                end
                   with
                   | Some c' => item_children_ind P HB HG c'
                   | None => I
                   end)
                  (go cs')
            end) (data g))
  end.

(** A byte. *)
Definition is_byte (x : Z) : Prop := 0 <= x < 256.

(** A code point that text can carry through UTF-8: a Unicode scalar
    value (no surrogate). *)
Definition scalar_value (c : Z) : bool :=
  (0 <=? c) && (c <? 1114112) && negb ((55296 <=? c) && (c <=? 57343)).

(** Content [c] is of the type [d] and is one that a write followed by a
    typed read gives back: a boolean, an integer that is not negative, a
    text or a byte string that is not empty. *)
Definition survives (d : dtype) (c : pyval) : Prop :=
  match d, c with
  | TBool, VBool _ => True
  | TInt, VInt v => 0 <= v
  | TStr, VStr (_ :: _) => True
  | TBytes, VBytes (_ :: _) => True
  | _, _ => False
  end.

(** The shape of an object under a spec: a chunk has a signature without
    group shape in the spec; a group has an empty index and the shape the
    spec gives its signature (children counted by the spec, or ended by a
    terminator that carries the marker signature, which no child
    carries, or counted by an opening chunk that is not kept); throughout,
    the declared size is the length of the raw payload, a missing payload
    goes with content [None], and the children that are present have this
    shape too. *)
Fixpoint conforms (sp : gmap str spec_val) (x : item) : Prop :=
  match x with
  | IBlob b =>
      wf_chunk b
      /\ (contentRaw b = None -> content b = VNone)
      /\ scalar_sig sp (sig b)
  | IGroup g =>
      wf_chunk (base g)
      /\ (contentRaw (base g) = None -> content (base g) = VNone)
      /\ dict g = []
      /\ (fix all (cs : list (option item)) : Prop :=
            match cs with
            | [] => True
            | c :: cs' =>
                match c with
                | Some c' => conforms sp c'
                | None => True
                end /\ all cs'
            end) (data g)
      /\ match sp !! sig (base g) with
         | Some SList =>
             terminator g = None /\ contentRaw (base g) = None
         | Some (SCount n) =>
             terminator g = None /\ length (data g) = Z.to_nat n
         | Some (SMarker m) =>
             match terminator g with
             | Some t => sig (blob_of t) = m /\ conforms sp t
             | None => False
             end
             /\ Forall (fun c => exists c',
                            c = Some c' /\ sig (blob_of c') <> m) (data g)
         | Some (SType _) | None => False
         end
  end.

(** Every character of [s] is ASCII. *)
Definition is_ascii (s : str) : bool :=
  forallb (fun c => (0 <=? c) && (c <? 128)) s.

(** A version that fits the four signed bytes of a header chunk; no
    version is fine too. *)
Definition version_ok (v : option Z) : Prop :=
  match v with
  | Some z => - 2 ^ 31 <= z < 2 ^ 31
  | None => True
  end.

(** The header chunk [Blob(sg, v)] and its encoding. *)
Definition header_chunk (sg : str) (v : option Z) : Blob :=
  match v with
  | Some z => mkBlob sg (VInt z) (Some (to_bytes_be 4 z)) 4
  | None => mkBlob sg VNone None 0
  end.

Definition header_bytes (sg : str) (v : option Z) : bytes :=
  sg ++ match v with
        | Some z => [0; 0; 0; 4] ++ to_bytes_be 4 z
        | None => [0; 0; 0; 0]
        end.

(** A header chunk with version [z] as the constructor of [BlobFile]
    keeps it after reading it: the version as an integer, or the raw
    bytes when the version is 0. *)
Definition header_read (sg : str) (z : Z) : item :=
  IBlob (mkBlob sg
           (if z =? 0 then VBytes (to_bytes_be 4 z) else VInt z)
           (Some (to_bytes_be 4 z)) 4).

(** Whether a requested bound refuses the value found, by [cmp]. *)
Definition refuses (cmp : Z -> Z -> bool) (found : Z) (bound : option Z)
    : bool :=
  match bound with
  | Some m => cmp found m
  | None => false
  end.

(** [for x in xs: blobfile.write(x)]. *)
Fixpoint write_each (xs : list item) : M File unit :=
  match xs with
  | [] => ret tt
  | x :: xs' => _ <- write x ;; write_each xs'
  end.

(** * Concrete signatures, specs and streams used as instances *)

(** Three children, two of them with the same signature. *)
Definition index_children : list item :=
  [IBlob (mkBlob [65; 65; 65; 65] VNone None 0);
   IBlob (mkBlob [66; 66; 66; 66] (VBytes [7]) (Some [7]) 1);
   IBlob (mkBlob [65; 65; 65; 65] (VBytes [9]) (Some [9]) 1)].

Definition PAIR : str := [80; 65; 73; 82].

Definition pair_spec : gmap str spec_val := {[ PAIR := SCount 2 ]}.

Definition pair_children : list item :=
  [IBlob (mkBlob [65; 65; 65; 65] VNone None 0);
   IBlob (mkBlob [66; 66; 66; 66] (VBytes [7]) (Some [7]) 1)].

Definition LIST : str := [76; 73; 83; 84].

Definition END : str := [69; 78; 68; 32].

Definition list_spec : gmap str spec_val := {[ LIST := SMarker END ]}.

Definition AAAA : str := [65; 65; 65; 65].

(** A chunk that declares four payload bytes on a stream that holds
    two. *)
Definition short_stream : bytes := AAAA ++ [0; 0; 0; 4] ++ [1; 2].


Definition GRUP : str := [71; 82; 85; 80].
Definition grup_spec : gmap str spec_val := {[ GRUP := SList ]}.

(** A group with stored content 77 and three children: the integer 5,
    the text "hi" and a marker. *)
Definition abc_group : BlobGroup :=
  mkGroup (mkBlob GRUP (VInt 77) (Some [0; 0; 0; 77]) 4)
    [Some (IBlob (mkBlob AAAA (VInt 5) (Some [0; 0; 0; 5]) 4));
     Some (IBlob (mkBlob [66; 66; 66; 66] (VStr [104; 105])
                    (Some [104; 105]) 2));
     Some (IBlob (mkBlob END VNone None 0))]
    [] None.

Definition abc_bytes : bytes :=
  [71; 82; 85; 80; 0; 0; 0; 4; 0; 0; 0; 3;
   65; 65; 65; 65; 0; 0; 0; 4; 0; 0; 0; 5;
   66; 66; 66; 66; 0; 0; 0; 2; 104; 105;
   69; 78; 68; 32; 0; 0; 0; 0].

(** What [read] makes of [abc_bytes] under [grup_spec]. *)
Definition abc_read : BlobGroup :=
  mkGroup (mkBlob GRUP VNone None 0)
    [Some (IBlob (mkBlob AAAA (VBytes [0; 0; 0; 5]) (Some [0; 0; 0; 5]) 4));
     Some (IBlob (mkBlob [66; 66; 66; 66] (VBytes [104; 105])
                    (Some [104; 105]) 2));
     Some (IBlob (mkBlob END VNone None 0))]
    [] None.

Definition TEST : str := [84; 69; 83; 84].

(** A readable file with the header of generic version 1 and the
    file type ['TEST'] at application version 9. *)
Definition header_file : File :=
  mkFile true false
    (BLOB ++ [0; 0; 0; 4; 0; 0; 0; 1] ++ TEST ++ [0; 0; 0; 4; 0; 0; 0; 9]) [].

(** The same file with generic version 0, and a spec that types the
    ['BLOB'] chunk as an integer. *)
Definition zero_header_file : File :=
  mkFile true false
    (BLOB ++ [0; 0; 0; 4; 0; 0; 0; 0] ++ TEST ++ [0; 0; 0; 4; 0; 0; 0; 9]) [].

Definition blob_int_spec : gmap str spec_val := {[ BLOB := SType TInt ]}.

Definition blob_header : item :=
  IBlob (mkBlob BLOB (VBytes [0; 0; 0; 1]) (Some [0; 0; 0; 1]) 4).
Definition test_header : item :=
  IBlob (mkBlob TEST (VBytes [0; 0; 0; 9]) (Some [0; 0; 0; 9]) 4).
(** * Properties *)

(** ** Arithmetic of the integer codec *)

Lemma length_to_bytes_be (n : nat) (v : Z) : length (to_bytes_be n v) = n.
Proof.
  revert v; induction n as [|n IH]; intros v; simpl; [reflexivity|].
  rewrite length_app, IH; simpl; lia.
Qed.

Lemma int_from_bytes_snoc (bs : bytes) (b : Z) :
  int_from_bytes (bs ++ [b]) = int_from_bytes bs * 256 + b.
Proof. unfold int_from_bytes; rewrite fold_left_app; reflexivity. Qed.

Lemma int_from_to_bytes_be (n : nat) (v : Z) :
  int_from_bytes (to_bytes_be n v) = v mod 256 ^ Z.of_nat n.
Proof.
  revert v; induction n as [|n IH]; intros v.
  - simpl. rewrite Z.mod_1_r. reflexivity.
  - cbn [to_bytes_be]. rewrite int_from_bytes_snoc, IH.
    rewrite Nat2Z.inj_succ, Z.pow_succ_r by lia.
    assert (0 < 256 ^ Z.of_nat n) by (apply Z.pow_pos_nonneg; lia).
    rewrite Z.rem_mul_r by lia.
    lia.
Qed.

Lemma pow256 (n : Z) : 0 <= n -> 256 ^ n = 2 ^ (8 * n).
Proof. intros Hn. rewrite Z.pow_mul_r by lia. reflexivity. Qed.

(** An accepted unsigned value is read back as itself. *)
Lemma int_from_to_bytes_unsigned (v len : Z) (bs : bytes) :
  int_to_bytes v len false = Ok bs ->
  int_from_bytes bs = v /\ Z.of_nat (length bs) = len /\ 0 <= v < 2 ^ (8 * len).
Proof.
  unfold int_to_bytes, fits_unsigned.
  destruct (len <? 0) eqn:Hl; [discriminate|].
  destruct ((0 <=? v) && (v <? 2 ^ (8 * len))) eqn:Hf; [|discriminate].
  intros [= <-]. apply andb_true_iff in Hf as [H0 H1].
  rewrite int_from_to_bytes_be, length_to_bytes_be, Z2Nat.id by lia.
  rewrite pow256 by lia. split; [apply Z.mod_small|]; lia.
Qed.

(** An accepted signed value is read back modulo [256 ^ len]. *)
Lemma int_from_to_bytes_signed (v len : Z) (bs : bytes) :
  int_to_bytes v len true = Ok bs ->
  int_from_bytes bs = v mod 2 ^ (8 * len) /\ Z.of_nat (length bs) = len
  /\ 0 <= len.
Proof.
  unfold int_to_bytes.
  destruct (len <? 0) eqn:Hl; [discriminate|].
  destruct (fits_signed len v); [|discriminate].
  intros [= <-].
  rewrite int_from_to_bytes_be, length_to_bytes_be, Z2Nat.id by lia.
  rewrite pow256 by lia. lia.
Qed.

Lemma fits_signed_nonneg (v len : Z) :
  0 <= len -> fits_signed len v = true -> 0 <= v -> 0 <= v < 2 ^ (8 * len).
Proof.
  unfold fits_signed. intros Hl Hf Hv.
  destruct (len =? 0) eqn:E.
  - apply Z.eqb_eq in E; subst len. simpl. lia.
  - apply andb_true_iff in Hf as [_ H1].
    assert (2 ^ (8 * len - 1) < 2 ^ (8 * len))
      by (apply Z.pow_lt_mono_r; lia).
    lia.
Qed.

Lemma fits_signed_neg (v len : Z) :
  0 <= len -> fits_signed len v = true -> v < 0 ->
  v mod 2 ^ (8 * len) = v + 2 ^ (8 * len).
Proof.
  unfold fits_signed. intros Hl Hf Hv.
  destruct (len =? 0) eqn:E.
  - apply Z.eqb_eq in E; subst len.
    assert (v = -1) by lia. subst v. reflexivity.
  - apply andb_true_iff in Hf as [H0 _].
    assert (2 ^ (8 * len - 1) < 2 ^ (8 * len))
      by (apply Z.pow_lt_mono_r; lia).
    assert (0 < 2 ^ (8 * len - 1)) by (apply Z.pow_pos_nonneg; lia).
    symmetry. apply Z.mod_unique with (q := -1); lia.
Qed.

(** ** Construction from typed content *)

Lemma Blob_init_int (sg : str) (v : Z) (sz : option Z) (b : Blob) :
  Blob_init sg (VInt v) sz None = Ok b ->
  exists raw,
    int_to_bytes v (default 4 sz) true = Ok raw
    /\ b = mkBlob sg (VInt v) (Some raw) (default 4 sz).
Proof.
  unfold Blob_init; cbn.
  destruct (int_to_bytes v (default 4 sz) true) as [raw| |]; cbn;
    [|discriminate..].
  intros [= <-]. eauto.
Qed.

(** C2, as the code behaves: content [True] or [False] given without a
    size is taken by the [int] branch of the constructor, which comes
    first; the declared size is 4 and the payload the four bytes
    [00 00 00 0b], not one byte. *)
Theorem Blob_init_bool_default_size (sg : str) (b : bool) :
  Blob_init sg (VBool b) None None
  = Ok (mkBlob sg (VBool b) (Some [0; 0; 0; Z.b2z b]) 4).
Proof. destruct b; reflexivity. Qed.

(** C3: an integer is written as signed two's complement, big-endian, and
    [getAs(int)] reads all the payload bytes back as an unsigned number.
    A value [v >= 0] that the constructor accepts at the chosen width
    (the default 4 included) is read back as [v]; a negative [v] is never
    read back as itself, it comes back as [v + 256 ^ width]; [-1] at the
    default width is such a value. *)
Theorem int_written_signed_read_unsigned :
  (forall (sg : str) (v : Z) (sz : option Z) (b : Blob),
      0 <= v ->
      Blob_init sg (VInt v) sz None = Ok b ->
      eval (getAs (Some TInt)) b = Ok (VInt v))
  /\ (forall (sg : str) (v : Z) (sz : option Z) (b : Blob),
      v < 0 ->
      Blob_init sg (VInt v) sz None = Ok b ->
      eval (getAs (Some TInt)) b = Ok (VInt (v + 2 ^ (8 * default 4 sz)))
      /\ eval (getAs (Some TInt)) b <> Ok (VInt v))
  /\ (exists b : Blob,
      Blob_init BLOB (VInt (-1)) None None = Ok b
      /\ contentRaw b = Some [255; 255; 255; 255]
      /\ eval (getAs (Some TInt)) b = Ok (VInt 4294967295)).
Proof.
  split; [|split].
  - intros sg v sz b Hv Hb.
    apply Blob_init_int in Hb as (raw & Hraw & ->).
    pose proof (int_from_to_bytes_signed _ _ _ Hraw) as (Hrd & _ & Hl).
    unfold int_to_bytes in Hraw.
    destruct (default 4 sz <? 0); [discriminate|].
    destruct (fits_signed (default 4 sz) v) eqn:Hf; [|discriminate].
    pose proof (fits_signed_nonneg _ _ Hl Hf Hv).
    cbn. rewrite Hrd, Z.mod_small by lia. reflexivity.
  - intros sg v sz b Hv Hb.
    apply Blob_init_int in Hb as (raw & Hraw & ->).
    pose proof (int_from_to_bytes_signed _ _ _ Hraw) as (Hrd & _ & Hl).
    unfold int_to_bytes in Hraw.
    destruct (default 4 sz <? 0); [discriminate|].
    destruct (fits_signed (default 4 sz) v) eqn:Hf; [|discriminate].
    pose proof (fits_signed_neg _ _ Hl Hf Hv) as Hm.
    assert (0 < 2 ^ (8 * default 4 sz)) by (apply Z.pow_pos_nonneg; lia).
    cbn. rewrite Hrd, Hm. split; [reflexivity|].
    intros [= E]. lia.
  - eexists. repeat split; reflexivity.
Qed.

Lemma int_written_signed_read_unsigned_witness :
  eval (getAs (Some TInt)) (mkBlob BLOB (VInt 300) (Some [1; 44]) 2)
  = Ok (VInt 300).
Proof.
  apply (proj1 int_written_signed_read_unsigned BLOB 300 (Some 2)).
  - lia.
  - reflexivity.
Defined.

(** ** [getAs] and [convert] leave the chunk alone *)

Ltac unfold_M :=
  unfold eval, bind, ret, raise, lift, get, put, set_content in *.

Lemma getAs_state (d : option dtype) (b : Blob) : snd (getAs d b) = b.
Proof.
  destruct d as [[]|]; unfold getAs, getAs_int; unfold_M; try reflexivity;
    destruct (contentRaw b) as [bs|]; try reflexivity.
  destruct (utf8_decode bs); reflexivity.
Qed.

Lemma getAs_present (d : option dtype) (b : Blob) (raw : bytes) :
  contentRaw b = Some raw -> exists v, getAs d b = (Ok v, b).
Proof.
  intros Hraw.
  destruct d as [[]|]; unfold getAs, getAs_int; unfold_M; rewrite ?Hraw;
    eauto.
  destruct (utf8_decode raw); eauto.
Qed.

Lemma convert_present (d : option dtype) (b : Blob) (raw : bytes) :
  contentRaw b = Some raw ->
  exists v,
    getAs d b = (Ok v, b)
    /\ convert d b = (Ok v, mkBlob (sig b) v (contentRaw b) (size b)).
Proof.
  intros Hraw. destruct (getAs_present d b raw Hraw) as [v Hv].
  exists v. split; [exact Hv|]. unfold convert, bind. rewrite Hv. reflexivity.
Qed.

(** C10: [getAs] returns with the chunk exactly as it was, whatever the
    type asked for; [convert] leaves the signature, the declared size and
    the raw payload as they were. When the raw payload is present both
    return a value [v], the same one, and [convert] stores it in
    [content] and changes nothing else. *)
Theorem getAs_convert_frame (b : Blob) (d : option dtype) :
  snd (getAs d b) = b
  /\ sig (snd (convert d b)) = sig b
  /\ size (snd (convert d b)) = size b
  /\ contentRaw (snd (convert d b)) = contentRaw b
  /\ (forall raw : bytes,
        contentRaw b = Some raw ->
        exists v : pyval,
          getAs d b = (Ok v, b)
          /\ convert d b = (Ok v, mkBlob (sig b) v (contentRaw b) (size b))).
Proof.
  pose proof (getAs_state d b) as Hst.
  unfold convert, bind.
  destruct (getAs d b) as [[v| |] b'] eqn:E; cbn in Hst; subst b';
    cbn; repeat split; try reflexivity.
  - intros raw Hraw. exists v. split; reflexivity.
  - intros raw Hraw. destruct (getAs_present d b raw Hraw) as [v Hv].
    congruence.
  - intros raw Hraw. destruct (getAs_present d b raw Hraw) as [v Hv].
    congruence.
Qed.

Lemma getAs_convert_frame_witness :
  exists v : pyval,
    getAs (Some TBool) (mkBlob BLOB (VBytes [0; 7]) (Some [0; 7]) 2)
    = (Ok v, mkBlob BLOB (VBytes [0; 7]) (Some [0; 7]) 2)
    /\ convert (Some TBool) (mkBlob BLOB (VBytes [0; 7]) (Some [0; 7]) 2)
       = (Ok v, mkBlob BLOB v (Some [0; 7]) 2).
Proof.
  apply (proj2 (proj2 (proj2 (proj2
    (getAs_convert_frame (mkBlob BLOB (VBytes [0; 7]) (Some [0; 7]) 2)
       (Some TBool))))) [0; 7]).
  reflexivity.
Defined.

(** ** The signature index of a group *)

Section SignatureIndex.

Lemma str_eqb_eq (a b : str) : str_eqb a b = true <-> a = b.
Proof. unfold str_eqb. apply bool_decide_eq_true. Qed.

Lemma str_eqb_refl (a : str) : str_eqb a a = true.
Proof. apply str_eqb_eq. reflexivity. Qed.

Lemma str_eqb_neq (a b : str) : str_eqb a b = false <-> a <> b.
Proof. unfold str_eqb. apply bool_decide_eq_false. Qed.


Lemma dict_get_setdefault (d : list (str * item)) (k k' : str) (v : item) :
  dict_get (setdefault d k v) k'
  = match dict_get d k' with
    | Some u => Some u
    | None => if str_eqb k k' then Some v else None
    end.
Proof.
  unfold setdefault.
  destruct (dict_get d k) as [u|] eqn:Hk.
  - destruct (dict_get d k') eqn:Hk'; [reflexivity|].
    destruct (str_eqb k k') eqn:E; [|reflexivity].
    apply str_eqb_eq in E. congruence.
  - clear Hk. induction d as [|[k0 v0] d IH]; cbn.
    + reflexivity.
    + destruct (str_eqb k0 k'); [reflexivity | exact IH].
Qed.

(** The scan over children that are all present never fails, and a
    lookup in its result is a lookup in the old dictionary or else the
    first child carrying the key. *)
Lemma genDict_loop_present (cs : list item) (d : list (str * item)) :
  exists d',
    genDict_loop (map Some cs) d = (Ok tt, d')
    /\ forall k, dict_get d' k
                 = match dict_get d k with
                   | Some u => Some u
                   | None => find (has_sig k) cs
                   end.
Proof.
  revert d; induction cs as [|c cs IH]; intros d; cbn.
  - exists d. split; [reflexivity|]. intros k.
    destruct (dict_get d k); reflexivity.
  - destruct (IH (setdefault d (sig (blob_of c)) c)) as (d' & Hd' & Hget).
    exists d'. split; [exact Hd'|]. intros k.
    rewrite Hget, dict_get_setdefault. unfold has_sig.
    destruct (dict_get d k); [reflexivity|].
    destruct (str_eqb (sig (blob_of c)) k); reflexivity.
Qed.

Lemma find_has_sig_None (k : str) (cs : list item) :
  ~ In k (map (fun c => sig (blob_of c)) cs) -> find (has_sig k) cs = None.
Proof.
  induction cs as [|c cs IH]; cbn; [reflexivity|].
  intros Hin. unfold has_sig at 1.
  destruct (str_eqb (sig (blob_of c)) k) eqn:E.
  - apply str_eqb_eq in E. tauto.
  - apply IH. tauto.
Qed.

Lemma find_has_sig_snoc (k : str) (cs : list item) (x : item) :
  find (has_sig k) cs = None ->
  find (has_sig k) (cs ++ [x]) = if has_sig k x then Some x else None.
Proof.
  induction cs as [|c cs IH]; cbn; [reflexivity|].
  destruct (has_sig k c); [discriminate | exact IH].
Qed.

Lemma lookup_snoc {A : Type} (l : list A) (x : A) :
  (l ++ [x]) !! length l = Some x.
Proof. induction l as [|a l IH]; [reflexivity | exact IH]. Qed.

End SignatureIndex.

(** The [int] subscript reads the children as they are now, whatever the
    index holds: position [j] counted from the front, or the same child by
    its negative subscript counted from the end; every other subscript
    raises [IndexError]. The group is left as it was. *)
Lemma getitem_int_live (g : BlobGroup) :
  (forall (j : nat) (y : option item),
     data g !! j = Some y ->
     getitem_int (Z.of_nat j) g = (Ok y, g)
     /\ getitem_int (Z.of_nat j - Z.of_nat (length (data g))) g = (Ok y, g))
  /\ (forall i : Z,
        i < - Z.of_nat (length (data g)) \/ Z.of_nat (length (data g)) <= i ->
        getitem_int i g = (Raise IndexError, g)).
Proof.
  split.
  - intros j y Hj. pose proof (lookup_lt_Some _ _ _ Hj) as Hlt.
    unfold getitem_int. unfold_M. cbv beta zeta. split.
    + destruct (Z.ltb_spec (Z.of_nat j) 0); [lia|].
      destruct (Z.leb_spec 0 (Z.of_nat j)); [|lia].
      destruct (Z.ltb_spec (Z.of_nat j) (Z.of_nat (length (data g))));
        [|lia].
      cbn [andb]. rewrite Nat2Z.id, Hj. reflexivity.
    + destruct (Z.ltb_spec (Z.of_nat j - Z.of_nat (length (data g))) 0);
        [|lia].
      replace (Z.of_nat j - Z.of_nat (length (data g))
               + Z.of_nat (length (data g))) with (Z.of_nat j) by lia.
      destruct (Z.leb_spec 0 (Z.of_nat j)); [|lia].
      destruct (Z.ltb_spec (Z.of_nat j) (Z.of_nat (length (data g))));
        [|lia].
      cbn [andb]. rewrite Nat2Z.id, Hj. reflexivity.
  - intros i Hi. unfold getitem_int. unfold_M. cbv beta zeta.
    destruct (Z.ltb_spec i 0).
    + destruct (Z.leb_spec 0 (i + Z.of_nat (length (data g))));
        [lia | reflexivity].
    + destruct (Z.leb_spec 0 i); [|lia].
      destruct (Z.ltb_spec i (Z.of_nat (length (data g)))); [lia|].
      reflexivity.
Qed.

(** C9: on a group whose index is still empty, the first signature-keyed
    access ([in], a [str] subscript, [keys()], [items()]) builds the index
    by one scan of the children: looking a signature up in it gives the
    first child with that signature, so later children with the same
    signature are shadowed. If the group had a child, the index is then not
    empty and [genDict] does nothing more: after a child with a signature
    not seen before is appended to the children, [in] answers false and
    the [str] subscript raises [KeyError] for that signature, while the
    [int] subscript at the new position yields the new child; after
    [clearDict] the [str] subscript finds it. The [int] subscript goes by
    the children as they now are at every subscript: each child of the
    extended sequence is returned at its position and at its negative
    subscript counted from the end, and a subscript outside the sequence
    raises [IndexError]. *)
Theorem signature_index_built_once (g : BlobGroup) (cs : list item) :
  dict g = [] ->
  data g = map Some cs ->
  exists d : list (str * item),
    let g1 := mkGroup (base g) (data g) d (terminator g) in
    genDict g = (Ok tt, g1)
    /\ (forall k, dict_get d k = find (has_sig k) cs)
    /\ (forall k,
          contains k g
          = (Ok (bool_decide (is_Some (find (has_sig k) cs))), g1)
          /\ getitem_str k g
             = (match find (has_sig k) cs with
                | Some x => Ok x
                | None => Raise KeyError
                end, g1))
    /\ keys g = (Ok (map fst d), g1)
    /\ items g = (Ok d, g1)
    /\ (cs <> [] ->
        genDict g1 = (Ok tt, g1)
        /\ forall x : item,
            ~ In (sig (blob_of x)) (map (fun c => sig (blob_of c)) cs) ->
            let g2 := mkGroup (base g) (data g ++ [Some x]) d (terminator g) in
            append (Some x) g1 = (Ok tt, g2)
            /\ contains (sig (blob_of x)) g2 = (Ok false, g2)
            /\ getitem_str (sig (blob_of x)) g2 = (Raise KeyError, g2)
            /\ getitem_int (Z.of_nat (length cs)) g2 = (Ok (Some x), g2)
            /\ eval (_ <- clearDict ;; getitem_str (sig (blob_of x))) g2
               = Ok x
            /\ (forall (j : nat) (y : item),
                  (cs ++ [x]) !! j = Some y ->
                  getitem_int (Z.of_nat j) g2 = (Ok (Some y), g2)
                  /\ getitem_int (Z.of_nat j - Z.of_nat (length cs) - 1) g2
                     = (Ok (Some y), g2))
            /\ (forall i : Z,
                  i < - Z.of_nat (length cs) - 1 \/ Z.of_nat (length cs) < i ->
                  getitem_int i g2 = (Raise IndexError, g2))).
Proof.
  intros Hd Hdata.
  destruct (genDict_loop_present cs []) as (d & Hloop & Hget).
  cbn in Hget. exists d. cbn zeta.
  assert (Hgen : genDict g
                 = (Ok tt, mkGroup (base g) (data g) d (terminator g))).
  { unfold genDict. rewrite Hd, Hdata, Hloop. reflexivity. }
  split; [exact Hgen|]. split; [exact Hget|].
  split; [|split; [|split]].
  - intros k. unfold contains, getitem_str, bind, get, ret, raise.
    rewrite Hgen. cbn. rewrite Hget.
    split; [reflexivity|]. destruct (find (has_sig k) cs); reflexivity.
  - unfold keys, bind, get, ret. rewrite Hgen. reflexivity.
  - unfold items, bind, get, ret. rewrite Hgen. reflexivity.
  - intros Hne.
    assert (Hd' : exists e d0, d = e :: d0).
    { destruct cs as [|c cs']; [congruence|].
      specialize (Hget (sig (blob_of c))). cbn in Hget.
      unfold has_sig at 1 in Hget. rewrite str_eqb_refl in Hget.
      destruct d as [|e d0]; [discriminate|]. eauto. }
    destruct Hd' as (e & d0 & Hd').
    assert (Hkeep : forall cs', genDict (mkGroup (base g) cs' d (terminator g))
                           = (Ok tt, mkGroup (base g) cs' d (terminator g))).
    { intros cs'. unfold genDict. cbn. rewrite Hd'. reflexivity. }
    split; [apply Hkeep|].
    intros x Hx.
    pose proof (find_has_sig_None _ _ Hx) as Hnone.
    split; [reflexivity|].
    split; [|split; [|split; [|split; [|split]]]].
    + unfold contains, bind, get, ret. rewrite Hkeep. cbn.
      rewrite Hget, Hnone. reflexivity.
    + unfold getitem_str, bind, get, ret, raise. rewrite Hkeep. cbn.
      rewrite Hget, Hnone. reflexivity.
    + unfold getitem_int, bind, get, ret, raise. cbn.
      rewrite Hdata, length_app, length_map. cbn.
      replace (Z.of_nat (length cs) <? 0) with false
        by (symmetry; apply Z.ltb_ge; lia).
      replace ((0 <=? Z.of_nat (length cs))
               && (Z.of_nat (length cs) <? Z.of_nat (length cs + 1)))
        with true
        by (symmetry; apply andb_true_iff; split;
            [apply Z.leb_le | apply Z.ltb_lt]; lia).
      rewrite Nat2Z.id.
      assert (Hlk : (map Some cs ++ [Some x]) !! length cs = Some (Some x))
        by (rewrite <- (length_map Some cs); apply lookup_snoc).
      rewrite Hlk. reflexivity.
    + unfold eval, clearDict, getitem_str, bind, get, ret, raise, genDict.
      cbn. rewrite Hdata.
      replace (map Some cs ++ [Some x]) with (map Some (cs ++ [x]))
        by (rewrite map_app; reflexivity).
      destruct (genDict_loop_present (cs ++ [x]) []) as (d2 & Hloop2 & Hget2).
      rewrite Hloop2. cbn. rewrite Hget2. cbn.
      rewrite (find_has_sig_snoc _ _ _ Hnone). unfold has_sig.
      rewrite str_eqb_refl. reflexivity.
    + intros j y Hj.
      set (g2 := mkGroup (base g) (data g ++ [Some x]) d (terminator g)).
      assert (Hlen : Z.of_nat (length (data g2))
                     = Z.of_nat (length cs) + 1).
      { subst g2. cbn [data]. rewrite Hdata, length_app, length_map.
        cbn [length]. lia. }
      assert (Hlk : data g2 !! j = Some (Some y)).
      { subst g2. cbn [data]. rewrite Hdata.
        replace (map Some cs ++ [Some x]) with (Some <$> (cs ++ [x]))
          by (rewrite fmap_app; reflexivity).
        rewrite list_lookup_fmap, Hj. reflexivity. }
      destruct (proj1 (getitem_int_live g2) j (Some y) Hlk) as [Hf Hb].
      split; [exact Hf|]. rewrite Hlen in Hb.
      replace (Z.of_nat j - Z.of_nat (length cs) - 1)
        with (Z.of_nat j - (Z.of_nat (length cs) + 1)) by lia.
      exact Hb.
    + intros i Hi.
      set (g2 := mkGroup (base g) (data g ++ [Some x]) d (terminator g)).
      apply (proj2 (getitem_int_live g2)).
      subst g2. cbn [data]. rewrite Hdata, length_app, length_map.
      cbn [length]. lia.
Qed.


Lemma signature_index_built_once_witness :
  let hdr := mkBlob BLOB VNone None 0 in
  let x := IBlob (mkBlob [90; 90; 90; 90] VNone None 0) in
  exists d : list (str * item),
    let g2 := mkGroup hdr (map Some index_children ++ [Some x]) d None in
    genDict (mkGroup hdr (map Some index_children) [] None)
    = (Ok tt, mkGroup hdr (map Some index_children) d None)
    /\ dict_get d [65; 65; 65; 65]
       = Some (IBlob (mkBlob [65; 65; 65; 65] VNone None 0))
    /\ getitem_str [90; 90; 90; 90] g2 = (Raise KeyError, g2)
    /\ getitem_int 3 g2 = (Ok (Some x), g2)
    /\ getitem_int (-1) g2 = (Ok (Some x), g2)
    /\ getitem_int 4 g2 = (Raise IndexError, g2)
    /\ getitem_int (-5) g2 = (Raise IndexError, g2).
Proof.
  intros hdr x.
  destruct (signature_index_built_once
              (mkGroup hdr (map Some index_children) [] None)
              index_children eq_refl eq_refl)
    as (d & Hgen & Hget & _ & _ & _ & Hstale).
  exists d. cbv zeta. split; [exact Hgen|]. split; [apply Hget|].
  destruct Hstale as [_ Hx]; [discriminate|].
  destruct (Hx x) as (_ & _ & Hkey & Hint & _ & Hlive & Hout).
  - cbn. intros [H|[H|[H|[]]]]; discriminate.
  - split; [exact Hkey|]. split; [exact Hint|].
    split; [exact (proj2 (Hlive 3%nat x eq_refl))|].
    split; apply Hout; cbn; lia.
Defined.

(** ** Header negotiation when a readable file is opened *)

Lemma version_fails_true (cmp : Z -> Z -> bool) (v : Z) (x : item)
    (raw : bytes) :
  truthy (content (blob_of x)) = true ->
  contentRaw (blob_of x) = Some raw ->
  version_fails cmp (Some v) x = Ok (cmp (int_from_bytes raw) v).
Proof.
  intros Ht Hraw. unfold version_fails, getAs_int. unfold_M.
  rewrite Ht, Hraw. reflexivity.
Qed.

(** Runs the constructor up to the first read of a readable file. *)
Ltac open_readable Hrd Htr Hbh :=
  unfold BlobFile_init, on_input; unfold_M; cbv beta zeta;
  rewrite Hrd, Htr; cbn [andb]; rewrite Hbh.

(** C8: a readable file is opened with a file type [ft] (so the headers
    are checked) and the first read yields [bh].
    - If the signature of [bh] is not ['BLOB'], [FileTypeError] is raised.
    - If it is ['BLOB'], a minimum [bv] was given, [bh] carries content
      (its [content] is true as a condition) and the payload read as an
      integer is below [bv], [VersionError] is raised.
    - If [bh] passes both checks and the second read yields [h] whose
      signature is not [ft], [FileTypeError] is raised.
    - If the signature of [h] is [ft], a version [v] was given, [h]
      carries content and the payload read as an integer is above [v],
      [VersionError] is raised: the comparison is [<] for the first
      header and [>] for the second. *)
Theorem header_negotiation_errors (sp : option (gmap str spec_val))
    (f : File) (ft : str) (version blobver : option Z)
    (bh : item) (s1 : bytes) :
  readable f = true ->
  ft <> [] ->
  read (default ∅ sp) (input f) = (Ok (Some bh), s1) ->
  let opened := fst (BlobFile_init sp (Some ft) version blobver f) in
  (sig (blob_of bh) <> BLOB -> opened = Raise FileTypeError)
  /\ (forall (bv : Z) (raw : bytes),
        sig (blob_of bh) = BLOB ->
        blobver = Some bv ->
        truthy (content (blob_of bh)) = true ->
        contentRaw (blob_of bh) = Some raw ->
        int_from_bytes raw < bv ->
        opened = Raise VersionError)
  /\ (forall (h : item) (s2 : bytes),
        sig (blob_of bh) = BLOB ->
        version_fails Z.ltb blobver bh = Ok false ->
        read (default ∅ sp) s1 = (Ok (Some h), s2) ->
        (sig (blob_of h) <> ft -> opened = Raise FileTypeError)
        /\ (forall (v : Z) (raw : bytes),
              sig (blob_of h) = ft ->
              version = Some v ->
              truthy (content (blob_of h)) = true ->
              contentRaw (blob_of h) = Some raw ->
              int_from_bytes raw > v ->
              opened = Raise VersionError)).
Proof.
  intros Hrd Hft Hbh opened.
  assert (Htr : str_truthy (Some ft) = true)
    by (destruct ft; [congruence | reflexivity]).
  split; [|split].
  - intros Hsig. apply str_eqb_neq in Hsig. subst opened.
    open_readable Hrd Htr Hbh. rewrite Hsig. reflexivity.
  - intros bv raw Hsig -> Ht Hraw Hlt.
    apply str_eqb_eq in Hsig. subst opened.
    open_readable Hrd Htr Hbh. rewrite Hsig. cbn [negb].
    rewrite (version_fails_true _ _ _ _ Ht Hraw).
    replace (int_from_bytes raw <? bv) with true
      by (symmetry; apply Z.ltb_lt; lia).
    reflexivity.
  - intros h s2 Hsig Hpass Hh.
    apply str_eqb_eq in Hsig.
    split.
    + intros Hs. apply str_eqb_neq in Hs. subst opened.
      open_readable Hrd Htr Hbh. rewrite Hsig. cbn [negb].
      rewrite Hpass. cbn [input]. rewrite Hh.
      change (default [] (Some ft)) with ft. rewrite Hs. reflexivity.
    + intros v raw Hs -> Ht Hraw Hgt.
      apply str_eqb_eq in Hs. subst opened.
      open_readable Hrd Htr Hbh. rewrite Hsig. cbn [negb].
      rewrite Hpass. cbn [input]. rewrite Hh.
      change (default [] (Some ft)) with ft. rewrite Hs. cbn [negb].
      rewrite (version_fails_true _ _ _ _ Ht Hraw).
      replace (int_from_bytes raw >? v) with true
        by (symmetry; apply Z.gtb_lt; lia).
      reflexivity.
Qed.

Lemma header_negotiation_errors_witness :
  fst (BlobFile_init None (Some TEST) None None
         (mkFile true false (TEST ++ [0; 0; 0; 0]) []))
  = Raise FileTypeError
  /\ fst (BlobFile_init None (Some TEST) (Some 9) (Some 5) header_file)
     = Raise VersionError
  /\ fst (BlobFile_init None (Some AAAA) (Some 9) (Some 1) header_file)
     = Raise FileTypeError
  /\ fst (BlobFile_init None (Some TEST) (Some 2) (Some 1) header_file)
     = Raise VersionError.
Proof.
  split; [|split; [|split]].
  - refine (proj1 (header_negotiation_errors None
             (mkFile true false (TEST ++ [0; 0; 0; 0]) []) TEST None None
             (IBlob (mkBlob TEST VNone None 0)) [] eq_refl _ _) _).
    + discriminate.
    + vm_compute. reflexivity.
    + discriminate.
  - refine (proj1 (proj2 (header_negotiation_errors None header_file TEST
             (Some 9) (Some 5) blob_header
             (TEST ++ [0; 0; 0; 4; 0; 0; 0; 9]) eq_refl _ _))
             5 [0; 0; 0; 1] eq_refl eq_refl eq_refl eq_refl _).
    + discriminate.
    + vm_compute. reflexivity.
    + vm_compute. reflexivity.
  - refine (proj1 (proj2 (proj2 (header_negotiation_errors None header_file
             AAAA (Some 9) (Some 1) blob_header
             (TEST ++ [0; 0; 0; 4; 0; 0; 0; 9]) eq_refl _ _))
             test_header [] eq_refl eq_refl _) _).
    + discriminate.
    + vm_compute. reflexivity.
    + vm_compute. reflexivity.
    + discriminate.
  - refine (proj2 (proj2 (proj2 (header_negotiation_errors None header_file
             TEST (Some 2) (Some 1) blob_header
             (TEST ++ [0; 0; 0; 4; 0; 0; 0; 9]) eq_refl _ _))
             test_header [] eq_refl eq_refl _)
             2 [0; 0; 0; 9] eq_refl eq_refl eq_refl eq_refl _).
    + discriminate.
    + vm_compute. reflexivity.
    + vm_compute. reflexivity.
    + vm_compute. reflexivity.
Defined.

(** C8 as stated fails: under a spec that types the ['BLOB'] chunk as an
    integer, the chunk of [zero_header_file] carries content, the four
    bytes of version 0, decoded to the integer 0. A minimum of 1 is asked
    for and 0 is below it, yet no [VersionError] is raised and the file is
    opened: the content 0 is false as a condition and the comparison is
    not made. Without the spec entry the content is the four bytes, true
    as a condition, and the same request is refused. *)
Lemma header_negotiation_errors_counterexample :
  read blob_int_spec (input zero_header_file)
  = (Ok (Some (IBlob (mkBlob BLOB (VInt 0) (Some [0; 0; 0; 0]) 4))),
     TEST ++ [0; 0; 0; 4; 0; 0; 0; 9])
  /\ int_from_bytes [0; 0; 0; 0] < 1
  /\ BlobFile_init (Some blob_int_spec) (Some TEST) (Some 9) (Some 1)
       zero_header_file
     = (Ok (mkBlobFile (mkFile true false [] []) blob_int_spec
              (Some (IBlob (mkBlob BLOB (VInt 0) (Some [0; 0; 0; 0]) 4)))
              (Some (IBlob (mkBlob TEST (VInt 9) (Some [0; 0; 0; 9]) 4)))),
        mkFile true false [] [])
  /\ fst (BlobFile_init None (Some TEST) (Some 9) (Some 1) zero_header_file)
     = Raise VersionError
  /\ ~ (forall (sp : option (gmap str spec_val)) (f : File) (ft : str)
          (version : option Z) (bv : Z) (bh : item) (s1 raw : bytes),
          readable f = true ->
          ft <> [] ->
          read (default ∅ sp) (input f) = (Ok (Some bh), s1) ->
          sig (blob_of bh) = BLOB ->
          content (blob_of bh) <> VNone ->
          contentRaw (blob_of bh) = Some raw ->
          int_from_bytes raw < bv ->
          fst (BlobFile_init sp (Some ft) version (Some bv) f)
          = Raise VersionError).
Proof.
  assert (Hread : read blob_int_spec (input zero_header_file)
                  = (Ok (Some (IBlob (mkBlob BLOB (VInt 0)
                                        (Some [0; 0; 0; 0]) 4))),
                     TEST ++ [0; 0; 0; 4; 0; 0; 0; 9]))
    by (vm_compute; reflexivity).
  assert (Hopen : BlobFile_init (Some blob_int_spec) (Some TEST) (Some 9)
                    (Some 1) zero_header_file
                  = (Ok (mkBlobFile (mkFile true false [] []) blob_int_spec
                           (Some (IBlob (mkBlob BLOB (VInt 0)
                                           (Some [0; 0; 0; 0]) 4)))
                           (Some (IBlob (mkBlob TEST (VInt 9)
                                           (Some [0; 0; 0; 9]) 4)))),
                     mkFile true false [] []))
    by (vm_compute; reflexivity).
  split; [exact Hread|]. split; [vm_compute; reflexivity|].
  split; [exact Hopen|]. split; [vm_compute; reflexivity|].
  intros Hall.
  pose proof (Hall (Some blob_int_spec) zero_header_file TEST (Some 9) 1
                (IBlob (mkBlob BLOB (VInt 0) (Some [0; 0; 0; 0]) 4))
                (TEST ++ [0; 0; 0; 4; 0; 0; 0; 9]) [0; 0; 0; 0]
                eq_refl) as H.
  rewrite Hopen in H. cbn [fst] in H.
  assert (Hne : TEST <> []) by discriminate.
  assert (Hc : content (blob_of (IBlob (mkBlob BLOB (VInt 0)
                                          (Some [0; 0; 0; 0]) 4))) <> VNone)
    by discriminate.
  assert (Hlt : int_from_bytes [0; 0; 0; 0] < 1) by (vm_compute; reflexivity).
  specialize (H Hne Hread eq_refl Hc eq_refl Hlt). discriminate.
Qed.

(** ** The reader: termination and independence of the fuel *)


Section Combinators.
Context {A B : Type}.

Lemma le_len_ret (a : A) : le_len (ret a).
Proof. intros s r s' [= _ <-]. lia. Qed.

Lemma le_len_raise (e : exn) : le_len (@raise bytes A e).
Proof. intros s r s' [= _ <-]. lia. Qed.

Lemma le_len_lift (r : res A) : le_len (lift r).
Proof. intros s r' s' [= _ <-]. lia. Qed.

Lemma le_len_bind (m : M bytes A) (k : A -> M bytes B) :
  le_len m -> (forall a, le_len (k a)) -> le_len (bind m k).
Proof.
  intros Hm Hk s r s'. unfold bind.
  destruct (m s) as [[a|e|] s1] eqn:E; apply Hm in E.
  - intros H. apply Hk in H. lia.
  - intros [= _ <-]. lia.
  - intros [= _ <-]. lia.
Qed.

Lemma agree_refl (N : nat) (m : M bytes A) : agree N m m.
Proof. intros s _. reflexivity. Qed.

Lemma agree_bind (N : nat) (m : M bytes A) (k k' : A -> M bytes B) :
  le_len m -> (forall a, agree N (k a) (k' a)) ->
  agree N (bind m k) (bind m k').
Proof.
  intros Hm Hk s Hs. unfold bind.
  destruct (m s) as [[a|e|] s1] eqn:E; try reflexivity.
  apply Hm in E. apply Hk. lia.
Qed.

Lemma total_ret (N : nat) (a : A) : total N (@ret bytes A a).
Proof. intros s _. discriminate. Qed.

Lemma total_raise (N : nat) (e : exn) : total N (@raise bytes A e).
Proof. intros s _. discriminate. Qed.

Lemma total_lift (N : nat) (r : res A) :
  r <> NoFuel -> total N (@lift bytes A r).
Proof. intros Hr s _. exact Hr. Qed.

Lemma total_bind (N : nat) (m : M bytes A) (k : A -> M bytes B) :
  le_len m -> total N m -> (forall a, total N (k a)) ->
  total N (bind m k).
Proof.
  intros Hl Hm Hk s Hs. unfold bind.
  specialize (Hm s Hs).
  destruct (m s) as [[a|e|] s1] eqn:E; cbn in *; try congruence.
  apply Hl in E. apply Hk. lia.
Qed.

End Combinators.

Lemma le_len_fh_read (n : Z) : le_len (fh_read n).
Proof. intros s r s' [= _ <-]. rewrite length_drop. lia. Qed.

Lemma total_fh_read (N : nat) (n : Z) : total N (fh_read n).
Proof. intros s _. discriminate. Qed.


Lemma Blob_init_raw (sg : str) (dat : option bytes) :
  Blob_init sg (raw_val dat) None None = Ok (chunk sg dat).
Proof. destruct dat; reflexivity. Qed.

Lemma BlobGroup_init_raw (sg : str) (dat : option bytes) :
  BlobGroup_init sg None (raw_val dat) = Ok (mkGroup (chunk sg dat) [] [] None).
Proof. unfold BlobGroup_init. rewrite Blob_init_raw. reflexivity. Qed.

Lemma BlobGroup_init_None (sg : str) :
  BlobGroup_init sg None VNone = Ok (mkGroup (chunk sg None) [] [] None).
Proof. reflexivity. Qed.

Lemma Blob_int_not_NoFuel (b : Blob) : eval Blob_int b <> NoFuel.
Proof.
  unfold Blob_int, getAs_int. unfold_M.
  destruct (as_int (content b)); [discriminate|].
  destruct (contentRaw b); discriminate.
Qed.

Lemma getAs_not_NoFuel (d : option dtype) (b : Blob) :
  fst (getAs d b) <> NoFuel.
Proof.
  destruct d as [[]|]; unfold getAs, getAs_int; unfold_M;
    try discriminate; destruct (contentRaw b) as [bs|]; try discriminate.
  destruct (utf8_decode bs); discriminate.
Qed.

Lemma convert_not_NoFuel (d : option dtype) (b : Blob) :
  fst (convert d b) <> NoFuel.
Proof.
  pose proof (getAs_not_NoFuel d b) as H. unfold convert. unfold_M.
  destruct (getAs d b) as [[v| |] b']; cbn in *; congruence.
Qed.

Lemma int_to_bytes_not_NoFuel (v len : Z) (signed : bool) :
  int_to_bytes v len signed <> NoFuel.
Proof.
  unfold int_to_bytes. destruct (len <? 0); [discriminate|].
  destruct (if signed then _ else _); discriminate.
Qed.

Lemma utf8_encode_not_NoFuel (s : str) : utf8_encode s <> NoFuel.
Proof.
  induction s as [|c s IH]; cbn; [discriminate|].
  destruct (utf8_encode_cp c) eqn:E; cbn; try discriminate.
  - destruct (utf8_encode s); cbn; congruence.
  - unfold utf8_encode_cp in E.
    repeat (destruct (_ : bool) in E; try discriminate).
Qed.

Lemma Blob_init_not_NoFuel (sg : str) (cnt : pyval) (sz : option Z)
    (d : option dtype) : Blob_init sg cnt sz d <> NoFuel.
Proof.
  unfold Blob_init.
  assert (Hc : forall b : Blob,
             match d with
             | Some _ =>
                 let '(r, self') := convert d b in _ <~ r ;; Ok self'
             | None => Ok b
             end <> NoFuel).
  { intros b. destruct d as [d0|]; [|discriminate].
    pose proof (convert_not_NoFuel (Some d0) b) as H.
    destruct (convert (Some d0) b) as [[| |] b']; cbn in *; congruence. }
  destruct cnt as [|b|z|s|bs]; cbn.
  - apply Hc.
  - pose proof (int_to_bytes_not_NoFuel (Z.b2z b) (default 4 sz) true).
    destruct (int_to_bytes (Z.b2z b) (default 4 sz) true); cbn;
      try congruence; apply Hc.
  - pose proof (int_to_bytes_not_NoFuel z (default 4 sz) true).
    destruct (int_to_bytes z (default 4 sz) true); cbn;
      try congruence; apply Hc.
  - pose proof (utf8_encode_not_NoFuel s).
    destruct (utf8_encode s); cbn; try congruence.
    destruct sz; cbn; apply Hc.
  - destruct sz; cbn; apply Hc.
Qed.

Lemma BlobGroup_init_not_NoFuel (sg : str) (cs : option (list (option item)))
    (cnt : pyval) : BlobGroup_init sg cs cnt <> NoFuel.
Proof.
  unfold BlobGroup_init.
  pose proof (Blob_init_not_NoFuel sg cnt None None).
  destruct (Blob_init sg cnt None None); cbn; congruence.
Qed.


Ltac le_len_step :=
  first
    [ assumption
    | apply le_len_ret | apply le_len_raise | apply le_len_lift
    | apply le_len_fh_read
    | apply le_len_bind; [|intros ?]
    | match goal with
      | |- le_len (match ?x with _ => _ end) => destruct x
      end ].

Section Loops.
Variables rd rd' : M bytes (option item).
Hypothesis rd_le_len : le_len rd.

Lemma le_len_read_n (n : nat) (acc : list (option item)) :
  le_len (read_n rd n acc).
Proof.
  revert acc; induction n as [|n IH]; intros acc; cbn.
  - apply le_len_ret.
  - apply le_len_bind; [assumption|]. intros x. apply IH.
Qed.

Lemma le_len_read_until (m : str) (k : nat) (acc : list (option item)) :
  le_len (read_until rd m k acc).
Proof.
  revert acc; induction k as [|k IH]; intros acc; cbn.
  - apply le_len_lift.
  - repeat le_len_step. apply IH.
Qed.

Lemma agree_read_n (N n : nat) (acc : list (option item)) :
  agree N rd rd' -> agree N (read_n rd n acc) (read_n rd' n acc).
Proof.
  intros Hag. revert acc; induction n as [|n IH]; intros acc s Hs; cbn.
  - reflexivity.
  - unfold bind. rewrite <- (Hag s Hs).
    destruct (rd s) as [[x|e|] s1] eqn:E; try reflexivity.
    apply rd_le_len in E. apply IH. lia.
Qed.

Lemma total_read_n (N n : nat) (acc : list (option item)) :
  total N rd -> total N (read_n rd n acc).
Proof.
  intros Ht. revert acc; induction n as [|n IH]; intros acc; cbn.
  - apply total_ret.
  - apply total_bind; [assumption..|]. intros x. apply IH.
Qed.

Hypothesis rd_progresses : progresses rd.

Lemma agree_read_until (N : nat) (m : str) (k k' : nat)
    (acc : list (option item)) (s : bytes) :
  agree N rd rd' ->
  (length s <= N)%nat -> (length s < k)%nat -> (length s < k')%nat ->
  read_until rd m k acc s = read_until rd' m k' acc s.
Proof.
  intros Hag. revert k' acc s.
  induction k as [|k IH]; intros k' acc s HN Hk Hk'; [lia|].
  destruct k' as [|k']; [lia|]. cbn. unfold bind.
  rewrite <- (Hag s HN).
  destruct (rd s) as [[[x|]|e|] s1] eqn:E; try reflexivity.
  destruct (str_eqb (sig (blob_of x)) m); [reflexivity|].
  apply rd_progresses in E. apply IH; lia.
Qed.

Lemma total_read_until (N : nat) (m : str) (k : nat)
    (acc : list (option item)) (s : bytes) :
  total N rd ->
  (length s <= N)%nat -> (length s < k)%nat ->
  fst (read_until rd m k acc s) <> NoFuel.
Proof.
  intros Ht. revert acc s.
  induction k as [|k IH]; intros acc s HN Hk; [lia|].
  cbn. unfold bind. specialize (Ht s HN).
  destruct (rd s) as [[[x|]|e|] s1] eqn:E; cbn in *; try congruence.
  destruct (str_eqb (sig (blob_of x)) m); [discriminate|].
  apply rd_progresses in E. apply IH; lia.
Qed.

End Loops.

Section ReadBody.
Variable sp : gmap str spec_val.

Lemma le_len_read_body (rd : M bytes (option item)) (k : nat) :
  le_len rd -> le_len (read_body rd k sp).
Proof.
  intros Hrd. unfold read_body.
  repeat first [ apply le_len_read_n | apply le_len_read_until
               | le_len_step ].
Qed.

Lemma take_cons_length {A : Type} (n : nat) (s t : list A) (c : A) :
  take n s = c :: t -> (length (drop n s) < length s)%nat.
Proof.
  destruct s as [|a s]; [rewrite take_nil; discriminate|].
  destruct n as [|n]; [discriminate|].
  intros _. cbn. rewrite length_drop. lia.
Qed.

Lemma bind_fh_read {B : Type} (n : Z) (K : bytes -> M bytes B) (s : bytes) :
  bind (fh_read n) K s = K (take (Z.to_nat n) s) (drop (Z.to_nat n) s).
Proof. reflexivity. Qed.

Lemma progresses_read_body (rd : M bytes (option item)) (k : nat) :
  le_len rd -> progresses (read_body rd k sp).
Proof.
  intros Hrd s x s'. unfold read_body. rewrite bind_fh_read.
  destruct (take (Z.to_nat 4) s) as [|c t] eqn:E; [discriminate|].
  apply take_cons_length in E.
  match goal with
  | |- ?m _ = _ -> _ => assert (Hm : le_len m)
  end.
  { repeat first [ apply le_len_read_n | apply le_len_read_until
                 | le_len_step ]. }
  intros H. apply Hm in H. lia.
Qed.

Lemma agree_read_body (N : nat) (rd rd' : M bytes (option item))
    (k k' : nat) (s : bytes) :
  le_len rd -> progresses rd -> agree N rd rd' ->
  (N < k)%nat -> (N < k')%nat -> (length s <= S N)%nat ->
  read_body rd k sp s = read_body rd' k' sp s.
Proof.
  intros Hle Hpr Hag Hk Hk' Hs.
  unfold read_body. rewrite !bind_fh_read.
  destruct (take (Z.to_nat 4) s) as [|c t] eqn:E; [reflexivity|].
  apply take_cons_length in E.
  assert (Hs1 : (length (drop (Z.to_nat 4) s) <= N)%nat) by lia.
  revert Hs1. generalize (drop (Z.to_nat 4) s). clear E Hs s.
  match goal with
  | |- forall s, _ -> ?m s = ?m' s => change (agree N m m')
  end.
  repeat (apply agree_bind; [repeat le_len_step|]; intros ?).
  destruct (sp !! a) as [[|n|m|d]|]; try apply agree_refl.
  - repeat (apply agree_bind; [repeat le_len_step|]; intros ?).
    intros s Hs. unfold bind.
    rewrite (agree_read_n rd rd' Hle N _ _ Hag s Hs). reflexivity.
  - repeat (apply agree_bind; [repeat le_len_step|]; intros ?).
    intros s Hs. unfold bind.
    rewrite (agree_read_n rd rd' Hle N _ _ Hag s Hs). reflexivity.
  - repeat (apply agree_bind; [repeat le_len_step|]; intros ?).
    intros s Hs. unfold bind.
    rewrite (agree_read_until rd rd' Hpr N m k k' _ s Hag Hs)
      by lia.
    reflexivity.
Qed.

Lemma total_read_body (N : nat) (rd : M bytes (option item)) (k : nat)
    (s : bytes) :
  le_len rd -> progresses rd -> total N rd ->
  (N < k)%nat -> (length s <= S N)%nat ->
  fst (read_body rd k sp s) <> NoFuel.
Proof.
  intros Hle Hpr Ht Hk Hs.
  unfold read_body. rewrite bind_fh_read.
  destruct (take (Z.to_nat 4) s) as [|c t] eqn:E; [discriminate|].
  apply take_cons_length in E.
  assert (Hs1 : (length (drop (Z.to_nat 4) s) <= N)%nat) by lia.
  revert Hs1. generalize (drop (Z.to_nat 4) s). clear E Hs s.
  match goal with
  | |- forall s, _ -> fst (?m s) <> _ => change (total N m)
  end.
  apply total_bind; [repeat le_len_step| |intros sg].
  { apply total_lift. destruct (utf8_decode (c :: t)); discriminate. }
  apply total_bind; [repeat le_len_step|apply total_fh_read|intros szraw].
  apply total_bind; [repeat le_len_step| |intros dat].
  { destruct (_ =? 0); [apply total_ret|].
    apply total_bind; [repeat le_len_step|apply total_fh_read|].
    intros d. apply total_ret. }
  apply total_bind;
    [repeat le_len_step|apply total_lift, Blob_init_not_NoFuel|].
  intros blob.
  destruct (sp !! sg) as [[|n|m|d]|].
  - apply total_bind;
      [repeat le_len_step|apply total_lift, BlobGroup_init_not_NoFuel|].
    intros grp.
    apply total_bind;
      [repeat le_len_step|apply total_lift, Blob_int_not_NoFuel|].
    intros n.
    apply total_bind;
      [apply le_len_read_n, Hle|apply total_read_n; assumption|].
    intros cs. apply total_ret.
  - apply total_bind;
      [repeat le_len_step|apply total_lift, BlobGroup_init_not_NoFuel|].
    intros grp.
    apply total_bind;
      [apply le_len_read_n, Hle|apply total_read_n; assumption|].
    intros cs. apply total_ret.
  - apply total_bind;
      [repeat le_len_step|apply total_lift, BlobGroup_init_not_NoFuel|].
    intros grp.
    intros s Hs. unfold bind.
    pose proof (total_read_until rd Hpr N m k (data grp) s Ht Hs) as H.
    destruct (read_until rd m k (data grp) s) as [[r|e|] s1]; cbn in *;
      try discriminate.
    exfalso. apply H; [lia | reflexivity].
  - destruct (negb _); [|apply total_ret].
    pose proof (convert_not_NoFuel (Some d) blob) as H.
    destruct (convert (Some d) blob) as [r blob'].
    apply total_bind; [repeat le_len_step|apply total_lift, H|].
    intros ?. apply total_ret.
  - apply total_ret.
Qed.

(** The bounded reader only consumes, and consumes when it yields. *)
Lemma read_fuel_le_len (f : nat) : le_len (read_fuel f sp).
Proof.
  induction f as [|f IH]; cbn.
  - apply le_len_lift.
  - apply le_len_read_body, IH.
Qed.

Lemma read_fuel_progresses (f : nat) : progresses (read_fuel f sp).
Proof.
  destruct f as [|f]; cbn.
  - intros s x s'. discriminate.
  - apply progresses_read_body, read_fuel_le_len.
Qed.

(** Any two bounds above the length of the channel give the same
    outcome. *)
Lemma read_fuel_agree (f f' : nat) (s : bytes) :
  (length s < f)%nat -> (length s < f')%nat ->
  read_fuel f sp s = read_fuel f' sp s.
Proof.
  revert f' s. induction f as [|f IH]; intros f' s Hf Hf'; [lia|].
  destruct f' as [|f']; [lia|]. cbn.
  destruct s as [|c s]; [reflexivity|].
  apply (agree_read_body (length s)).
  - apply read_fuel_le_len.
  - apply read_fuel_progresses.
  - intros s1 Hs1. cbn in Hf, Hf'. apply IH; lia.
  - cbn in Hf. lia.
  - cbn in Hf'. lia.
  - cbn. lia.
Qed.

Lemma read_fuel_total (f : nat) (s : bytes) :
  (length s < f)%nat -> fst (read_fuel f sp s) <> NoFuel.
Proof.
  revert s. induction f as [|f IH]; intros s Hf; [lia|]. cbn.
  destruct s as [|c s]; [discriminate|].
  apply (total_read_body (length s)).
  - apply read_fuel_le_len.
  - apply read_fuel_progresses.
  - intros s1 Hs1. cbn in Hf. apply IH. lia.
  - cbn in Hf. lia.
  - cbn. lia.
Qed.

(** [read] always answers: it never runs out of the fuel it gives
    itself. *)
Lemma read_total (s : bytes) : fst (read sp s) <> NoFuel.
Proof. unfold read. apply read_fuel_total. lia. Qed.

Lemma read_le_len : le_len (read sp).
Proof. intros s r s'. unfold read. apply read_fuel_le_len. Qed.

Lemma read_progresses : progresses (read sp).
Proof. intros s x s'. unfold read. apply read_fuel_progresses. Qed.

Lemma read_fuel_enough (f : nat) (s : bytes) :
  (length s < f)%nat -> read_fuel f sp s = read sp s.
Proof. intros Hf. unfold read. apply read_fuel_agree; lia. Qed.

(** [read] satisfies the equation of the source: its body, with [read]
    itself at the recursive calls. The bound on the end-marker loop may
    be anything above the length of the channel. *)
Lemma read_unfold (k : nat) (s : bytes) :
  (length s <= k)%nat -> read sp s = read_body (read sp) k sp s.
Proof.
  intros Hk. unfold read at 1. cbn [read_fuel].
  destruct s as [|c s]; [reflexivity|].
  apply (agree_read_body (length s)).
  - apply read_fuel_le_len.
  - apply read_fuel_progresses.
  - intros s1 Hs1. apply read_fuel_enough. cbn. lia.
  - cbn. lia.
  - cbn in Hk. lia.
  - cbn. lia.
Qed.

End ReadBody.

(** ** What [read] does after a complete eight-byte header *)

Section ReadCases.
Variable sp : gmap str spec_val.
Variables (sigraw szraw body : bytes) (sg : str).
Hypothesis Hsig : length sigraw = 4%nat.
Hypothesis Hsz : length szraw = 4%nat.
Hypothesis Hdec : utf8_decode sigraw = Some sg.

(** The header phase of the body of [read], whatever follows it. *)
Lemma header_phase {B : Type} (K0 : M bytes B)
    (K : str -> bytes -> option bytes -> M bytes B) :
  (raw <- fh_read 4 ;;
   match raw with
   | [] => K0
   | _ :: _ =>
       sg' <- lift (match utf8_decode raw with
                    | Some s => Ok s
                    | None => Raise UnicodeDecodeError
                    end) ;;
       szraw' <- fh_read 4 ;;
       dat <- (if int_from_bytes szraw' =? 0 then ret None
               else (d <- fh_read (int_from_bytes szraw') ;; ret (Some d))) ;;
       K sg' szraw' dat
   end) (sigraw ++ szraw ++ body)
  = K sg szraw (payload_of szraw body) (after_payload szraw body).
Proof.
  rewrite bind_fh_read.
  rewrite take_app_length', drop_app_length' by (rewrite Hsig; reflexivity).
  destruct sigraw as [|c t] eqn:E; [discriminate|]. rewrite <- E in *.
  unfold bind at 1, lift at 1. rewrite Hdec.
  rewrite bind_fh_read.
  rewrite take_app_length', drop_app_length' by (rewrite Hsz; reflexivity).
  unfold payload_of, after_payload, bind at 1.
  destruct (int_from_bytes szraw =? 0); reflexivity.
Qed.

Lemma read_after_header (k : nat) :
  (length (sigraw ++ szraw ++ body) <= k)%nat ->
  read sp (sigraw ++ szraw ++ body)
  = (blob <- lift (Blob_init sg (raw_val (payload_of szraw body)) None None) ;;
     match sp !! sg with
     | Some SList =>
         grp <- lift (BlobGroup_init (sig blob) None VNone) ;;
         n <- lift (eval Blob_int blob) ;;
         cs <- read_n (read sp) (Z.to_nat n) (data grp) ;;
         ret (Some (IGroup (with_data grp cs)))
     | Some (SCount n) =>
         grp <- lift (BlobGroup_init (sig blob) None (content blob)) ;;
         cs <- read_n (read sp) (Z.to_nat n) (data grp) ;;
         ret (Some (IGroup (with_data grp cs)))
     | Some (SMarker m) =>
         grp <- lift (BlobGroup_init (sig blob) None (content blob)) ;;
         r <- read_until (read sp) m k (data grp) ;;
         ret (Some (IGroup
                (with_terminator (with_data grp (fst r)) (Some (snd r)))))
     | Some (SType d) =>
         if negb (int_from_bytes szraw =? 0)
         then let '(r, blob') := convert (Some d) blob in
              _ <- lift r ;; ret (Some (IBlob blob'))
         else ret (Some (IBlob blob))
     | None => ret (Some (IBlob blob))
     end) (after_payload szraw body).
Proof.
  intros Hk. rewrite (read_unfold sp k) by exact Hk.
  unfold read_body. cbv zeta.
  exact (header_phase _ _).
Qed.

Let s : bytes := sigraw ++ szraw ++ body.
Let dat : option bytes := payload_of szraw body.
Let rest : bytes := after_payload szraw body.

Ltac after_header :=
  subst s dat rest;
  rewrite (read_after_header _ (Nat.le_refl _));
  unfold bind at 1, lift at 1; rewrite Blob_init_raw.

(** A signature the spec does not know (or maps to [None]). *)
Lemma read_unspecified :
  sp !! sg = None -> read sp s = (Ok (Some (IBlob (chunk sg dat))), rest).
Proof. intros Hsp. after_header. rewrite Hsp. reflexivity. Qed.

(** A signature the spec maps to a type: the payload, when there is
    one, is converted; nothing but [content] differs from the chunk
    read. *)
Lemma read_typed (d : dtype) :
  sp !! sg = Some (SType d) ->
  exists v : pyval,
    read sp s
    = (Ok (Some (IBlob (mkBlob sg v dat (size (chunk sg dat))))), rest).
Proof.
  intros Hsp. after_header. rewrite Hsp.
  unfold payload_of. destruct (int_from_bytes szraw =? 0); cbn [negb].
  - eexists. reflexivity.
  - set (b := chunk sg _).
    destruct (convert_present (Some d) b _ eq_refl) as (v & _ & ->).
    exists v. reflexivity.
Qed.

(** A signature the spec maps to an [int]: that many reads fill the
    group, which keeps the opening chunk as it was read. *)
Lemma read_counted (n : Z) :
  sp !! sg = Some (SCount n) ->
  read sp s
  = group_result (fun cs => mkGroup (chunk sg dat) cs [] None)
      (read_n (read sp) (Z.to_nat n) [] rest).
Proof.
  intros Hsp. after_header. rewrite Hsp.
  unfold bind at 1, lift at 1.
  change (content (chunk sg (payload_of szraw body)))
    with (raw_val (payload_of szraw body)).
  cbn [sig chunk]. rewrite BlobGroup_init_raw. cbn [data].
  unfold bind, group_result.
  destruct (read_n _ _ _ _) as [[cs|e|] s1]; reflexivity.
Qed.

(** A signature the spec maps to [list]: the payload read as an
    unsigned integer is the number of reads; the group is made from the
    signature alone. A chunk without payload has no such integer. *)
Lemma read_list :
  sp !! sg = Some SList ->
  read sp s
  = match dat with
    | Some d =>
        group_result (fun cs => mkGroup (chunk sg None) cs [] None)
          (read_n (read sp) (Z.to_nat (int_from_bytes d)) [] rest)
    | None => (Raise TypeError, rest)
    end.
Proof.
  intros Hsp. after_header. rewrite Hsp.
  unfold bind at 1, lift at 1. cbn [sig chunk].
  rewrite BlobGroup_init_None.
  unfold bind at 1, lift at 1.
  destruct (payload_of szraw body) as [d|]; [|reflexivity].
  cbn. unfold bind, group_result.
  destruct (read_n _ _ _ _) as [[cs|e|] s1]; reflexivity.
Qed.

(** A signature the spec maps to a [str]: the end-marker loop fills the
    group, which keeps the opening chunk as it was read. *)
Lemma read_marker (m : str) (k : nat) :
  sp !! sg = Some (SMarker m) ->
  (length s <= k)%nat ->
  read sp s
  = group_result
      (fun r => mkGroup (chunk sg dat) (fst r) [] (Some (snd r)))
      (read_until (read sp) m k [] rest).
Proof.
  intros Hsp Hk. subst s dat rest.
  rewrite (read_after_header k Hk).
  unfold bind at 1, lift at 1; rewrite Blob_init_raw.
  rewrite Hsp. unfold bind at 1, lift at 1.
  change (content (chunk sg (payload_of szraw body)))
    with (raw_val (payload_of szraw body)).
  cbn [sig chunk]. rewrite BlobGroup_init_raw. cbn [data].
  unfold bind, group_result.
  destruct (read_until _ _ _ _ _) as [[r|e|] s1]; reflexivity.
Qed.

End ReadCases.

(** ** Runs of successive reads *)

Section Chains.
Variable sp : gmap str spec_val.

Lemma read_eof : read sp [] = (Ok None, []).
Proof. reflexivity. Qed.

Lemma read_n_length (rd : M bytes (option item)) (n : nat)
    (acc cs : list (option item)) (s s' : bytes) :
  read_n rd n acc s = (Ok cs, s') -> length cs = (length acc + n)%nat.
Proof.
  revert acc s. induction n as [|n IH]; intros acc s; cbn.
  - intros [= <- _]. lia.
  - unfold bind. destruct (rd s) as [[x|e|] s1]; try discriminate.
    intros H. apply IH in H. rewrite length_app in H. cbn in H. lia.
Qed.

Lemma read_n_add (rd : M bytes (option item)) (a b : nat)
    (acc : list (option item)) (s : bytes) :
  read_n rd (a + b) acc s = (cs <- read_n rd a acc ;; read_n rd b cs) s.
Proof.
  revert acc s. induction a as [|a IH]; intros acc s; cbn.
  - reflexivity.
  - unfold bind. destruct (rd s) as [[x|e|] s1]; try reflexivity.
    rewrite IH. reflexivity.
Qed.

Lemma read_n_reads (xs : list item) (acc : list (option item))
    (s s' : bytes) :
  reads sp s xs s' ->
  read_n (read sp) (length xs) acc s = (Ok (acc ++ map Some xs), s').
Proof.
  revert acc s. induction xs as [|x xs IH]; intros acc s;
  cbn [read_n reads length map].
  - intros ->. rewrite app_nil_r. reflexivity.
  - intros (s1 & Hx & Hxs). unfold bind. rewrite Hx.
    rewrite (IH _ _ Hxs), <- app_assoc. reflexivity.
Qed.

Lemma read_n_eof (n : nat) (acc : list (option item)) :
  read_n (read sp) n acc [] = (Ok (acc ++ replicate n None), []).
Proof.
  revert acc. induction n as [|n IH]; intros acc; cbn [read_n].
  - rewrite app_nil_r. reflexivity.
  - unfold bind. rewrite read_eof, IH, <- app_assoc. reflexivity.
Qed.

Lemma reads_length (xs : list item) (s s' : bytes) :
  reads sp s xs s' -> (length s' + length xs <= length s)%nat.
Proof.
  revert s. induction xs as [|x xs IH]; intros s; cbn [reads length].
  - intros ->. lia.
  - intros (s1 & Hx & Hxs). apply read_progresses in Hx.
    apply IH in Hxs. lia.
Qed.

Lemma read_until_reads (m : str) (xs : list item) (t : item) (k : nat)
    (acc : list (option item)) (s s1 s2 : bytes) :
  reads sp s xs s1 ->
  Forall (fun x => sig (blob_of x) <> m) xs ->
  read sp s1 = (Ok (Some t), s2) ->
  sig (blob_of t) = m ->
  (length s <= k)%nat ->
  read_until (read sp) m k acc s = (Ok (acc ++ map Some xs, t), s2).
Proof.
  intros Hxs Hne Ht Hm. revert acc s k Hxs.
  induction Hne as [|x xs Hx Hne IH]; intros acc s k Hxs Hk; cbn [reads] in Hxs.
  - subst s1. pose proof (read_progresses sp _ _ _ Ht).
    destruct k as [|k]; [lia|]. cbn [read_until map]. unfold bind. rewrite Ht.
    apply str_eqb_eq in Hm. rewrite Hm, app_nil_r. reflexivity.
  - destruct Hxs as (s0 & Hr & Hxs).
    pose proof (read_progresses sp _ _ _ Hr).
    destruct k as [|k]; [lia|]. cbn [read_until map]. unfold bind. rewrite Hr.
    apply str_eqb_neq in Hx. rewrite Hx.
    rewrite (IH _ _ k Hxs) by lia. rewrite <- app_assoc. reflexivity.
Qed.

Lemma read_until_eof (m : str) (xs : list item) (k : nat)
    (acc : list (option item)) (s : bytes) :
  reads sp s xs [] ->
  Forall (fun x => sig (blob_of x) <> m) xs ->
  (length s < k)%nat ->
  read_until (read sp) m k acc s = (Raise AttributeError, []).
Proof.
  intros Hxs Hne. revert acc s k Hxs.
  induction Hne as [|x xs Hx Hne IH]; intros acc s k Hxs Hk; cbn [reads] in Hxs.
  - subst s. destruct k as [|k]; [lia|].
    cbn [read_until]. unfold bind. rewrite read_eof. reflexivity.
  - destruct Hxs as (s0 & Hr & Hxs).
    pose proof (read_progresses sp _ _ _ Hr).
    destruct k as [|k]; [lia|]. cbn [read_until map]. unfold bind. rewrite Hr.
    apply str_eqb_neq in Hx. rewrite Hx.
    apply (IH _ _ k Hxs). lia.
Qed.

End Chains.

(** ** Groups given their shape by the spec *)

(** C6: when the spec maps the signature of the next unit to the integer
    [n], [read] is exactly [n] recursive reads (none when [n] is
    negative) appended to a group that keeps the opening chunk as read:
    its [content] is the raw payload, whatever it says, and is not used
    as a count. When those reads succeed the group has [n] children, and
    when they yield the objects [xs] the children are [xs] in order. *)
Theorem fixed_count_group (sp : gmap str spec_val)
    (sigraw szraw body : bytes) (sg : str) (n : Z) :
  length sigraw = 4%nat ->
  length szraw = 4%nat ->
  utf8_decode sigraw = Some sg ->
  sp !! sg = Some (SCount n) ->
  let hdr := chunk sg (payload_of szraw body) in
  let rest := after_payload szraw body in
  read sp (sigraw ++ szraw ++ body)
  = group_result (fun cs => mkGroup hdr cs [] None)
      (read_n (read sp) (Z.to_nat n) [] rest)
  /\ content hdr = raw_val (payload_of szraw body)
  /\ (forall cs s',
        read_n (read sp) (Z.to_nat n) [] rest = (Ok cs, s') ->
        length cs = Z.to_nat n)
  /\ (forall xs s',
        reads sp rest xs s' ->
        length xs = Z.to_nat n ->
        read sp (sigraw ++ szraw ++ body)
        = (Ok (Some (IGroup (mkGroup hdr (map Some xs) [] None))), s')).
Proof.
  intros Hsig Hsz Hdec Hsp hdr rest.
  pose proof (read_counted sp sigraw szraw body sg Hsig Hsz Hdec n Hsp) as Hrd.
  split; [exact Hrd|]. split; [reflexivity|]. split.
  - intros cs s' H. apply read_n_length in H. exact H.
  - intros xs s' Hxs Hlen. rewrite Hrd, <- Hlen.
    fold rest. rewrite (read_n_reads sp xs [] rest s' Hxs). reflexivity.
Qed.

Lemma fixed_count_group_witness :
  read pair_spec
    (PAIR ++ [0; 0; 0; 2]
     ++ [9; 9; 65; 65; 65; 65; 0; 0; 0; 0; 66; 66; 66; 66; 0; 0; 0; 1; 7])
  = (Ok (Some (IGroup
       (mkGroup (mkBlob PAIR (VBytes [9; 9]) (Some [9; 9]) 2)
          (map Some pair_children) [] None))), []).
Proof.
  refine (proj2 (proj2 (proj2
    (fixed_count_group pair_spec PAIR [0; 0; 0; 2] _ PAIR 2
       eq_refl eq_refl eq_refl _))) pair_children [] _ eq_refl).
  - vm_compute. reflexivity.
  - cbn [reads pair_children].
    eexists. split; [vm_compute; reflexivity|].
    eexists. split; [vm_compute; reflexivity|]. reflexivity.
Defined.

(** C7: when the spec maps the signature of the next unit to the marker
    signature [m], and the reads that follow yield the objects [xs], none
    with signature [m], and then an object [t] with signature [m], [read]
    yields a group whose children are [xs] in order and whose
    [terminator] is [t]; [t] is not among the children. *)
Theorem terminator_group (sp : gmap str spec_val)
    (sigraw szraw body : bytes) (sg m : str)
    (xs : list item) (t : item) (s1 s2 : bytes) :
  length sigraw = 4%nat ->
  length szraw = 4%nat ->
  utf8_decode sigraw = Some sg ->
  sp !! sg = Some (SMarker m) ->
  reads sp (after_payload szraw body) xs s1 ->
  Forall (fun x => sig (blob_of x) <> m) xs ->
  read sp s1 = (Ok (Some t), s2) ->
  sig (blob_of t) = m ->
  read sp (sigraw ++ szraw ++ body)
  = (Ok (Some (IGroup
       (mkGroup (chunk sg (payload_of szraw body)) (map Some xs) []
          (Some t)))), s2)
  /\ ~ In t xs.
Proof.
  intros Hsig Hsz Hdec Hsp Hxs Hne Ht Hm. split.
  - rewrite (read_marker sp sigraw szraw body sg Hsig Hsz Hdec m _ Hsp
               (Nat.le_refl _)).
    rewrite (read_until_reads sp m xs t _ [] _ s1 s2 Hxs Hne Ht Hm).
    + reflexivity.
    + unfold after_payload. rewrite !length_app.
      destruct (_ =? 0); [|rewrite length_drop]; lia.
  - intros Hin. rewrite Forall_forall in Hne.
    apply (Hne t); [apply list_elem_of_In|]; assumption.
Qed.

Lemma terminator_group_witness :
  read list_spec
    (LIST ++ [0; 0; 0; 0]
     ++ [88; 88; 88; 88; 0; 0; 0; 1; 5; 89; 89; 89; 89; 0; 0; 0; 0;
         69; 78; 68; 32; 0; 0; 0; 0])
  = (Ok (Some (IGroup
       (mkGroup (mkBlob LIST VNone None 0)
          [Some (IBlob (mkBlob [88; 88; 88; 88] (VBytes [5]) (Some [5]) 1));
           Some (IBlob (mkBlob [89; 89; 89; 89] VNone None 0))]
          []
          (Some (IBlob (mkBlob END VNone None 0)))))), []).
Proof.
  refine (proj1
    (terminator_group list_spec LIST [0; 0; 0; 0] _ LIST END
       [IBlob (mkBlob [88; 88; 88; 88] (VBytes [5]) (Some [5]) 1);
        IBlob (mkBlob [89; 89; 89; 89] VNone None 0)]
       (IBlob (mkBlob END VNone None 0)) [69; 78; 68; 32; 0; 0; 0; 0] []
       eq_refl eq_refl eq_refl _ _ _ _ eq_refl)).
  - vm_compute. reflexivity.
  - cbn [reads].
    eexists. split; [vm_compute; reflexivity|].
    eexists. split; [vm_compute; reflexivity|]. reflexivity.
  - repeat constructor; discriminate.
  - vm_compute. reflexivity.
Defined.

(** ** Streams that end early *)

Lemma payload_short (szraw body : bytes) :
  Z.of_nat (length body) < int_from_bytes szraw ->
  payload_of szraw body = Some body /\ after_payload szraw body = [].
Proof.
  intros Hlt. unfold payload_of, after_payload.
  destruct (int_from_bytes szraw =? 0) eqn:E.
  - apply Z.eqb_eq in E. lia.
  - rewrite take_ge, drop_ge by lia. split; reflexivity.
Qed.

(** C1, as the code behaves. The module has no check for missing bytes and
    no error for them. After a complete eight-byte header:
    - a chunk whose signature has no group shape in the spec and whose
      payload is cut short is returned, not refused: its raw payload is the
      bytes that were left, its size their number, and the channel is
      empty;
    - a group counted by the spec or by its opening chunk, whose children
      [xs] stop at the end of the stream, is returned with the end-of-file
      answer [None] in the place of every missing child;
    - a group that ends at a marker which never comes raises
      [AttributeError], at the first read that finds the end of the
      stream. *)
Theorem read_of_truncated_stream (sp : gmap str spec_val)
    (sigraw szraw body : bytes) (sg : str) :
  length sigraw = 4%nat ->
  length szraw = 4%nat ->
  utf8_decode sigraw = Some sg ->
  let s := sigraw ++ szraw ++ body in
  let rest := after_payload szraw body in
  (scalar_sig sp sg ->
   Z.of_nat (length body) < int_from_bytes szraw ->
   exists v : pyval,
     read sp s
     = (Ok (Some (IBlob
          (mkBlob sg v (Some body) (Z.of_nat (length body))))), []))
  /\ (forall (n : Z) (xs : list item) (missing : nat),
        sp !! sg = Some (SCount n) ->
        reads sp rest xs [] ->
        Z.to_nat n = (length xs + missing)%nat ->
        read sp s
        = (Ok (Some (IGroup
             (mkGroup (chunk sg (payload_of szraw body))
                (map Some xs ++ replicate missing None) [] None))), []))
  /\ (forall (d : bytes) (xs : list item) (missing : nat),
        sp !! sg = Some SList ->
        payload_of szraw body = Some d ->
        reads sp rest xs [] ->
        Z.to_nat (int_from_bytes d) = (length xs + missing)%nat ->
        read sp s
        = (Ok (Some (IGroup
             (mkGroup (chunk sg None)
                (map Some xs ++ replicate missing None) [] None))), []))
  /\ (forall (m : str) (xs : list item),
        sp !! sg = Some (SMarker m) ->
        reads sp rest xs [] ->
        Forall (fun x => sig (blob_of x) <> m) xs ->
        read sp s = (Raise AttributeError, [])).
Proof.
  intros Hsig Hsz Hdec s rest. subst s rest.
  split; [|split; [|split]].
  - intros Hsc Hlt. destruct (payload_short _ _ Hlt) as [Hp Ha].
    unfold scalar_sig in Hsc.
    destruct (sp !! sg) as [[| | |d]|] eqn:Hsp; try contradiction.
    + destruct (read_typed sp sigraw szraw body sg Hsig Hsz Hdec d Hsp)
        as [v Hv].
      exists v. rewrite Hv, Hp, Ha. reflexivity.
    + exists (VBytes body).
      rewrite (read_unspecified sp sigraw szraw body sg Hsig Hsz Hdec Hsp).
      rewrite Hp, Ha. reflexivity.
  - intros n xs missing Hsp Hxs Hn.
    rewrite (read_counted sp sigraw szraw body sg Hsig Hsz Hdec n Hsp).
    rewrite Hn, read_n_add. unfold bind.
    rewrite (read_n_reads sp xs [] _ [] Hxs), read_n_eof. reflexivity.
  - intros d xs missing Hsp Hd Hxs Hn.
    rewrite (read_list sp sigraw szraw body sg Hsig Hsz Hdec Hsp), Hd.
    rewrite Hn, read_n_add. unfold bind.
    rewrite (read_n_reads sp xs [] _ [] Hxs), read_n_eof. reflexivity.
  - intros m xs Hsp Hxs Hne.
    rewrite (read_marker sp sigraw szraw body sg Hsig Hsz Hdec m
               (S (length (sigraw ++ szraw ++ body))) Hsp)
      by lia.
    rewrite (read_until_eof sp m xs _ [] _ Hxs Hne).
    + reflexivity.
    + unfold after_payload. rewrite !length_app.
      destruct (_ =? 0); [|rewrite length_drop]; lia.
Qed.

Lemma read_of_truncated_stream_witness :
  (exists v : pyval,
     read ∅ short_stream
     = (Ok (Some (IBlob (mkBlob AAAA v (Some [1; 2]) 2))), []))
  /\ read pair_spec (PAIR ++ [0; 0; 0; 0] ++ AAAA ++ [0; 0; 0; 0])
     = (Ok (Some (IGroup
          (mkGroup (mkBlob PAIR VNone None 0)
             [Some (IBlob (mkBlob AAAA VNone None 0)); None] [] None))), [])
  /\ read list_spec (LIST ++ [0; 0; 0; 0] ++ AAAA ++ [0; 0; 0; 0])
     = (Raise AttributeError, []).
Proof.
  split; [|split].
  - refine (proj1 (read_of_truncated_stream ∅ AAAA [0; 0; 0; 4] [1; 2] AAAA
                     eq_refl eq_refl eq_refl) _ _).
    + vm_compute. exact I.
    + vm_compute. reflexivity.
  - refine (proj1 (proj2 (read_of_truncated_stream pair_spec PAIR
                     [0; 0; 0; 0] _ PAIR eq_refl eq_refl eq_refl))
              2 [IBlob (mkBlob AAAA VNone None 0)] 1%nat _ _ eq_refl).
    + vm_compute. reflexivity.
    + cbn [reads]. eexists. split; [vm_compute; reflexivity|]. reflexivity.
  - refine (proj2 (proj2 (proj2 (read_of_truncated_stream list_spec LIST
                     [0; 0; 0; 0] _ LIST eq_refl eq_refl eq_refl)))
              END [IBlob (mkBlob AAAA VNone None 0)] _ _ _).
    + vm_compute. reflexivity.
    + cbn [reads]. eexists. split; [vm_compute; reflexivity|]. reflexivity.
    + repeat constructor; discriminate.
Defined.

(** C1 as stated fails: on [short_stream] the read does not raise, it
    returns a chunk with the two bytes that were there; so it is not true
    that every read of a stream whose payload is shorter than the declared
    size raises. *)
Lemma read_of_truncated_stream_counterexample :
  read ∅ short_stream
  = (Ok (Some (IBlob (mkBlob AAAA (VBytes [1; 2]) (Some [1; 2]) 2))), [])
  /\ ~ (forall (sp : gmap str spec_val) (sigraw szraw body : bytes),
          length sigraw = 4%nat ->
          length szraw = 4%nat ->
          Z.of_nat (length body) < int_from_bytes szraw ->
          exists e : exn, fst (read sp (sigraw ++ szraw ++ body)) = Raise e).
Proof.
  assert (H : read ∅ short_stream
              = (Ok (Some (IBlob (mkBlob AAAA (VBytes [1; 2])
                                     (Some [1; 2]) 2))), []))
    by (vm_compute; reflexivity).
  split; [exact H|].
  intros Hall.
  destruct (Hall ∅ AAAA [0; 0; 0; 4] [1; 2] eq_refl eq_refl) as [e He].
  - vm_compute. reflexivity.
  - change (AAAA ++ [0; 0; 0; 4] ++ [1; 2]) with short_stream in He.
    rewrite H in He. discriminate.
Qed.

(** ** Encoding a chunk and reading it back *)

Lemma ascii_encode_ok (s : str) (bs : bytes) :
  ascii_encode s = Ok bs -> bs = s /\ utf8_decode s = Some s.
Proof.
  revert bs. induction s as [|c s IH]; intros bs; cbn.
  - intros [= <-]. split; reflexivity.
  - destruct ((0 <=? c) && (c <? 128)) eqn:E; [|discriminate].
    destruct (ascii_encode s) as [r| |]; cbn; try discriminate.
    intros [= <-]. destruct (IH r eq_refl) as [-> Hd].
    split; [reflexivity|].
    assert (Hb : between 0 127 c = true).
    { unfold between. apply andb_true_iff in E as [H0 H1].
      apply andb_true_iff. split; [exact H0|]. apply Z.leb_le.
      apply Z.ltb_lt in H1. lia. }
    rewrite Hb, Hd. reflexivity.
Qed.

(** The bytes [Blob.encode] produces. *)
Lemma Blob_encode_ok (b : Blob) (e : bytes) :
  eval Blob_encode b = Ok e ->
  exists z : bytes,
    utf8_decode (sig b) = Some (sig b)
    /\ length z = 4%nat
    /\ int_from_bytes z = size b
    /\ 0 <= size b
    /\ e = sig b ++ z
           ++ match stored_raw b with Some raw => raw | None => [] end
    /\ (size b <> 0 -> is_Some (contentRaw b)).
Proof.
  unfold Blob_encode, stored_raw. unfold_M. cbv beta.
  destruct (ascii_encode (sig b)) as [sb| |] eqn:Ha; try discriminate.
  destruct (ascii_encode_ok _ _ Ha) as [-> Hd].
  destruct (int_to_bytes (size b) 4 false) as [z| |] eqn:Hz;
    try discriminate.
  destruct (int_from_to_bytes_unsigned _ _ _ Hz) as (Hrd & Hlen & Hrange).
  intros He. exists z.
  split; [exact Hd|]. split; [lia|]. split; [exact Hrd|]. split; [lia|].
  destruct (size b =? 0) eqn:E.
  - injection He as <-. rewrite app_nil_r. split; [reflexivity|].
    apply Z.eqb_eq in E. congruence.
  - destruct (contentRaw b) as [raw|]; cbn in He; [|discriminate].
    injection He as <-. split; [reflexivity|]. eauto.
Qed.

(** What the constructor makes of typed content. *)
Lemma Blob_init_wf (sg : str) (cnt : pyval) (sz : option Z) (b : Blob) :
  size_for cnt sz ->
  Blob_init sg cnt sz None = Ok b ->
  sig b = sg /\ wf_chunk b.
Proof.
  unfold Blob_init, wf_chunk, size_for.
  destruct cnt as [|v|v|s|bs]; cbn.
  - intros _ [= <-]. split; reflexivity.
  - intros _.
    destruct (int_to_bytes (Z.b2z v) (default 4 sz) true) as [raw| |] eqn:E;
      cbn; try discriminate.
    intros [= <-]. cbn.
    apply int_from_to_bytes_signed in E as (_ & Hlen & _).
    split; [reflexivity | lia].
  - intros _.
    destruct (int_to_bytes v (default 4 sz) true) as [raw| |] eqn:E;
      cbn; try discriminate.
    intros [= <-]. cbn.
    apply int_from_to_bytes_signed in E as (_ & Hlen & _).
    split; [reflexivity | lia].
  - intros ->. destruct (utf8_encode s) as [raw| |]; cbn; try discriminate.
    intros [= <-]. split; reflexivity.
  - intros -> [= <-]. split; reflexivity.
Qed.

(** Reading the encoding of a well-formed chunk whose signature has no
    group shape in the spec. *)
Lemma read_encoded_chunk (sp : gmap str spec_val) (b : Blob)
    (e rest : bytes) :
  length (sig b) = 4%nat ->
  wf_chunk b ->
  scalar_sig sp (sig b) ->
  eval Blob_encode b = Ok e ->
  read sp (e ++ rest) = (Ok (Some (IBlob (decoded sp b))), rest).
Proof.
  intros Hsig Hwf Hsc He.
  destruct (Blob_encode_ok _ _ He) as (z & Hd & Hz & Hrd & H0 & -> & Hraw).
  rewrite <- !app_assoc.
  set (body := _ ++ rest).
  assert (Hp : payload_of z body = stored_raw b
               /\ after_payload z body = rest).
  { subst body. unfold payload_of, after_payload, stored_raw.
    rewrite Hrd. unfold wf_chunk in Hwf.
    destruct (size b =? 0) eqn:E; [split; reflexivity|].
    apply Z.eqb_neq in E. destruct (Hraw E) as [raw Hr].
    rewrite Hr in *.
    rewrite Hwf, Nat2Z.id, take_app_length, drop_app_length.
    split; reflexivity. }
  destruct Hp as [Hp Ha].
  unfold scalar_sig in Hsc. unfold decoded.
  destruct (sp !! sig b) as [[| | |d]|] eqn:Hsp; try contradiction.
  - pose proof (read_after_header sp (sig b) z body (sig b) Hsig Hz Hd
                  _ (Nat.le_refl _)) as Hr.
    rewrite Hr, Hp, Ha. unfold bind at 1, lift at 1.
    rewrite Blob_init_raw, Hsp, Hrd.
    destruct (size b =? 0) eqn:E; cbn [negb]; [reflexivity|].
    unfold stored_raw in *. rewrite E in *.
    apply Z.eqb_neq in E. destruct (Hraw E) as [raw Hraw'].
    rewrite Hraw'.
    destruct (convert_present (Some d) (chunk (sig b) (Some raw)) raw eq_refl)
      as (v & _ & Hc).
    rewrite Hc. reflexivity.
  - rewrite (read_unspecified sp (sig b) z body (sig b) Hsig Hz Hd Hsp).
    rewrite Hp, Ha. reflexivity.
Qed.

Lemma decoded_fields (sp : gmap str spec_val) (b : Blob) :
  sig (decoded sp b) = sig b
  /\ contentRaw (decoded sp b) = stored_raw b
  /\ (wf_chunk b -> size (decoded sp b) = size b).
Proof.
  assert (Hsz : wf_chunk b -> size (chunk (sig b) (stored_raw b)) = size b).
  { unfold wf_chunk, stored_raw. intros Hwf.
    destruct (size b =? 0) eqn:E; cbn.
    - apply Z.eqb_eq in E. lia.
    - destruct (contentRaw b); cbn; lia. }
  unfold decoded.
  destruct (sp !! sig b) as [[| | |d]|]; try (split; [|split]; easy).
  destruct (size b =? 0); [split; [|split]; easy|].
  set (c := chunk (sig b) (stored_raw b)) in *.
  pose proof (getAs_state (Some d) c) as Hst.
  unfold convert, bind, set_content, ret.
  destruct (getAs (Some d) c) as [[v| |] c']; cbn in Hst; subst c'; cbn;
    (split; [|split]; easy).
Qed.

(** C4: a chunk is built from typed content (a size being given only with
    an integer or boolean) under a four-character signature, and [encode]
    produces bytes for it. Reading those bytes, followed by anything, with
    a spec that gives the signature no group shape, yields a chunk and
    leaves what followed: the chunk has the same signature and the same
    declared size, and its raw payload is the one encoded, absent when the
    declared size is 0. *)
Theorem chunk_roundtrip (sp : gmap str spec_val) (sg : str) (cnt : pyval)
    (sz : option Z) (b : Blob) (e rest : bytes) :
  length sg = 4%nat ->
  size_for cnt sz ->
  scalar_sig sp sg ->
  Blob_init sg cnt sz None = Ok b ->
  eval Blob_encode b = Ok e ->
  exists b' : Blob,
    read sp (e ++ rest) = (Ok (Some (IBlob b')), rest)
    /\ sig b' = sig b
    /\ size b' = size b
    /\ contentRaw b' = if size b =? 0 then None else contentRaw b.
Proof.
  intros Hlen Hsz Hsc Hb He.
  destruct (Blob_init_wf _ _ _ _ Hsz Hb) as [Hsg Hwf].
  exists (decoded sp b).
  destruct (decoded_fields sp b) as (Hs & Hr & Hz).
  split; [|split; [exact Hs|split; [exact (Hz Hwf)|exact Hr]]].
  apply read_encoded_chunk; try assumption; rewrite Hsg; assumption.
Qed.

Lemma chunk_roundtrip_witness :
  exists b' : Blob,
    read ∅ ([65; 65; 65; 65; 0; 0; 0; 2; 255; 254] ++ [1; 2; 3])
    = (Ok (Some (IBlob b')), [1; 2; 3])
    /\ sig b' = AAAA
    /\ size b' = 2
    /\ contentRaw b' = Some [255; 254].
Proof.
  exact (chunk_roundtrip ∅ AAAA (VInt (-2)) (Some 2)
           (mkBlob AAAA (VInt (-2)) (Some [255; 254]) 2)
           [65; 65; 65; 65; 0; 0; 0; 2; 255; 254] [1; 2; 3]
           eq_refl I I eq_refl eq_refl).
Defined.

(** ** Encoding a group and reading it back *)

Lemma encode_group (g : BlobGroup) :
  encode (IGroup g)
  = (hdr <~ Blob_init (sig (base g)) (VInt (Z.of_nat (length (data g))))
              None None ;;
     h <~ eval Blob_encode hdr ;;
     r <~ encode_list (data g) ;;
     Ok (h ++ r)).
Proof. reflexivity. Qed.

Lemma wf_group (sp : gmap str spec_val) (g : BlobGroup) :
  wf_item sp (IGroup g)
  <-> length (sig (base g)) = 4%nat
      /\ sp !! sig (base g) = Some SList
      /\ Forall (fun c => exists c', c = Some c' /\ wf_item sp c') (data g).
Proof.
  cbn [wf_item]. generalize (data g) as cs. intros cs.
  assert (H : (fix all (cs : list (option item)) : Prop :=
                 match cs with
                 | [] => True
                 | c :: cs' =>
                     match c with
                     | Some c' => wf_item sp c'
                     | None => False
                     end /\ all cs'
                 end) cs
              <-> Forall (fun c => exists c', c = Some c' /\ wf_item sp c') cs).
  { induction cs as [|c cs IH].
    - split; [constructor | trivial].
    - split.
      + intros [Hc Hcs]. constructor; [|apply IH, Hcs].
        destruct c as [c'|]; [eauto | contradiction].
      + intros Hall. inversion Hall as [|? ? (c' & -> & Hc) Hcs]; subst.
        split; [exact Hc | apply IH, Hcs]. }
  rewrite H. reflexivity.
Qed.

(** The header a group writes: its signature, size 4, and the number of
    its children on four bytes. *)
Lemma encode_group_ok (g : BlobGroup) (e : bytes) :
  encode (IGroup g) = Ok e ->
  exists r : bytes,
    encode_list (data g) = Ok r
    /\ utf8_decode (sig (base g)) = Some (sig (base g))
    /\ Z.of_nat (length (data g)) < 2 ^ 31
    /\ e = sig (base g) ++ [0; 0; 0; 4]
           ++ to_bytes_be 4 (Z.of_nat (length (data g))) ++ r.
Proof.
  rewrite encode_group. unfold Blob_init. cbn [as_bytes as_int default].
  unfold int_to_bytes. cbn [Z.ltb Z.compare].
  destruct (fits_signed 4 (Z.of_nat (length (data g)))) eqn:Hf;
    [|discriminate].
  cbn [bindR Z.to_nat Pos.to_nat Pos.iter_op Nat.add].
  set (hdr := mkBlob _ _ _ _).
  destruct (eval Blob_encode hdr) as [h| |] eqn:Hh; cbn [bindR];
    try discriminate.
  destruct (encode_list (data g)) as [r| |]; cbn [bindR]; try discriminate.
  intros [= <-]. exists r.
  unfold Blob_encode in Hh. unfold_M. cbv beta in Hh. cbn [sig size hdr] in Hh.
  destruct (ascii_encode (sig (base g))) as [sb| |] eqn:Ha; try discriminate.
  destruct (ascii_encode_ok _ _ Ha) as [-> Hd].
  cbn in Hh. injection Hh as <-.
  split; [reflexivity|]. split; [exact Hd|]. split.
  - unfold fits_signed in Hf. cbn in Hf.
    apply andb_true_iff in Hf as [_ H1]. apply Z.ltb_lt in H1. exact H1.
  - rewrite <- !app_assoc. reflexivity.
Qed.

Section TreeRoundTrip.
Variable sp : gmap str spec_val.

(** Reading back is right for an object when it is right for its
    parts. *)
Let reads_back (x : item) : Prop :=
  wf_item sp x ->
  forall e rest, encode x = Ok e ->
    read sp (e ++ rest) = (Ok (Some (norm sp x)), rest).

Lemma reads_encoded_children (cs : list (option item)) (r rest : bytes) :
  Forall (fun c => match c with Some c' => reads_back c' | None => True end)
         cs ->
  Forall (fun c => exists c', c = Some c' /\ wf_item sp c') cs ->
  encode_list cs = Ok r ->
  exists xs : list item,
    length xs = length cs
    /\ map (fun c => match c with
                     | Some c' => Some (norm sp c')
                     | None => None
                     end) cs = map Some xs
    /\ reads sp (r ++ rest) xs rest.
Proof.
  revert r. induction cs as [|c cs IH]; intros r HP Hwf.
  - intros [= <-]. exists []. repeat split.
  - inversion HP as [|? ? Hc HP']; subst.
    inversion Hwf as [|? ? (c' & -> & Hwc) Hwf']; subst.
    cbn [encode_list].
    destruct (encode c') as [e1| |] eqn:He1; cbn [bindR]; try discriminate.
    destruct (encode_list cs) as [r'| |] eqn:Hr'; cbn [bindR];
      try discriminate.
    intros [= <-].
    destruct (IH r' HP' Hwf' eq_refl) as (xs & Hlen & Hmap & Hreads).
    exists (norm sp c' :: xs). split; [cbn; lia|]. split.
    + cbn [map]. rewrite Hmap. reflexivity.
    + cbn [reads]. exists (r' ++ rest). split; [|exact Hreads].
      rewrite <- app_assoc. apply (Hc Hwc). exact He1.
Qed.

(** An object that can be written and read back under [sp] is read
    back from its encoding as [norm] says, and what followed the
    encoding is left on the channel. *)
Lemma read_encoded_item (x : item) : reads_back x.
Proof.
  induction x as [b|g IH] using item_children_ind; intros Hwf e rest He.
  - destruct Hwf as (Hsig & Hwc & Hsc). cbn [norm].
    apply read_encoded_chunk; assumption.
  - apply wf_group in Hwf as (Hsig & Hsp & Hall).
    destruct (encode_group_ok g e He) as (r & Hr & Hd & Hn & ->).
    destruct (reads_encoded_children (data g) r rest IH Hall Hr)
      as (xs & Hlen & Hmap & Hreads).
    cbn [norm]. rewrite Hmap.
    set (n := Z.of_nat (length (data g))) in *.
    replace ((sig (base g) ++ [0; 0; 0; 4] ++ to_bytes_be 4 n ++ r) ++ rest)
      with (sig (base g) ++ [0; 0; 0; 4] ++ (to_bytes_be 4 n ++ r ++ rest))
      by (rewrite <- !app_assoc; reflexivity).
    rewrite (read_list sp (sig (base g)) [0; 0; 0; 4] _ (sig (base g))
               Hsig eq_refl Hd Hsp).
    assert (Hp : payload_of [0; 0; 0; 4] (to_bytes_be 4 n ++ r ++ rest)
                 = Some (to_bytes_be 4 n)).
    { unfold payload_of. change (int_from_bytes [0; 0; 0; 4]) with 4.
      change (4 =? 0) with false. change (Z.to_nat 4) with 4%nat.
      rewrite (take_app_length' (to_bytes_be 4 n)); [reflexivity|].
      rewrite length_to_bytes_be. reflexivity. }
    assert (Ha : after_payload [0; 0; 0; 4] (to_bytes_be 4 n ++ r ++ rest)
                 = r ++ rest).
    { unfold after_payload. change (int_from_bytes [0; 0; 0; 4]) with 4.
      change (4 =? 0) with false. change (Z.to_nat 4) with 4%nat.
      rewrite (drop_app_length' (to_bytes_be 4 n)); [reflexivity|].
      rewrite length_to_bytes_be. reflexivity. }
    rewrite Hp, Ha.
    rewrite int_from_to_bytes_be, Z.mod_small by (cbn; lia).
    unfold n. rewrite Nat2Z.id, <- Hlen.
    rewrite (read_n_reads sp xs [] _ rest Hreads). reflexivity.
Qed.

End TreeRoundTrip.

Lemma read_back_as_norm (sp : gmap str spec_val) (x : item) :
  wf_item sp x -> read_back_as sp (Some x) (Some (norm sp x)).
Proof.
  intros Hwf. unfold read_back_as. split; [reflexivity|].
  destruct x as [b|g]; cbn [norm blob_of].
  - destruct Hwf as (_ & Hwc & _).
    destruct (decoded_fields sp b) as (Hs & Hr & Hz).
    split; [exact Hs|]. split; [exact (Hz Hwc) | exact Hr].
  - split; [reflexivity|]. cbn [data]. apply length_map.
Qed.

(** C5, as the code behaves. A group can be written and read back under
    the spec (its signature has the shape [list] there, its children are
    chunks with no group shape or such groups again).
    - [encode] writes the group's signature, the size 4 and the number of
      children as a four-byte integer, whatever [content] the group
      holds, and then the encodings of the children in order; that
      integer read back unsigned is the number of children.
    - [read] on those bytes yields a group with the same signature whose
      children are the children written, read back in the same order:
      each has the signature it had, a chunk its declared size and stored
      payload.
    - The group read is made from the signature alone: its [content] and
      raw payload are [None]; the count is not kept in it. *)
Theorem length_prefixed_group_roundtrip (sp : gmap str spec_val)
    (g : BlobGroup) (e rest : bytes) :
  wf_item sp (IGroup g) ->
  encode (IGroup g) = Ok e ->
  let n := Z.of_nat (length (data g)) in
  (exists r : bytes,
      encode_list (data g) = Ok r
      /\ e = sig (base g) ++ [0; 0; 0; 4] ++ to_bytes_be 4 n ++ r)
  /\ int_from_bytes (to_bytes_be 4 n) = n
  /\ exists g' : BlobGroup,
      read sp (e ++ rest) = (Ok (Some (IGroup g')), rest)
      /\ sig (base g') = sig (base g)
      /\ Forall2 (read_back_as sp) (data g) (data g')
      /\ content (base g') = VNone
      /\ contentRaw (base g') = None.
Proof.
  intros Hwf He n.
  destruct (encode_group_ok g e He) as (r & Hr & Hd & Hn & Hform).
  split; [exists r; split; assumption|]. split.
  { rewrite int_from_to_bytes_be. apply Z.mod_small. subst n. cbn. lia. }
  pose proof (read_encoded_item sp (IGroup g) Hwf e rest He) as Hread.
  cbn [norm] in Hread.
  eexists. split; [exact Hread|]. cbn [base data sig content contentRaw chunk].
  repeat split.
  apply wf_group in Hwf as (_ & _ & Hall).
  clear -Hall. induction Hall as [|c cs (c' & -> & Hc) _ IH]; cbn [map].
  - constructor.
  - constructor; [apply read_back_as_norm, Hc | exact IH].
Qed.

Lemma length_prefixed_group_roundtrip_witness :
  exists g' : BlobGroup,
    read grup_spec (abc_bytes ++ [1; 2]) = (Ok (Some (IGroup g')), [1; 2])
    /\ sig (base g') = GRUP
    /\ Forall2 (read_back_as grup_spec) (data abc_group) (data g')
    /\ content (base g') = VNone
    /\ contentRaw (base g') = None.
Proof.
  refine (proj2 (proj2
    (length_prefixed_group_roundtrip grup_spec abc_group abc_bytes [1; 2]
       _ eq_refl))).
  vm_compute. repeat split.
Defined.

(** C5 as stated fails: the group with children [A, B, C] is written and
    read back with its three children, but the content of the group read
    is [None], not 3, and taking the group as an integer raises
    [TypeError]. *)
Lemma length_prefixed_group_counterexample :
  encode (IGroup abc_group) = Ok abc_bytes
  /\ length (data abc_group) = 3%nat
  /\ read grup_spec abc_bytes = (Ok (Some (IGroup abc_read)), [])
  /\ content (base abc_read) = VNone
  /\ content (base abc_read) <> VInt 3
  /\ eval Blob_int (base abc_read) = Raise TypeError.
Proof.
  repeat split; try (vm_compute; reflexivity). discriminate.
Qed.

(** * Further properties *)

(** ** What [Blob.encode] accepts and produces *)

Lemma ascii_encode_spec (s : str) :
  ascii_encode s
  = if forallb (fun c => (0 <=? c) && (c <? 128)) s then Ok s
    else Raise UnicodeEncodeError.
Proof.
  induction s as [|c s IH]; cbn [ascii_encode forallb]; [reflexivity|].
  destruct ((0 <=? c) && (c <? 128)); cbn [andb]; [|reflexivity].
  rewrite IH. destruct (forallb _ s); reflexivity.
Qed.

(** [Blob.encode] fails with [UnicodeEncodeError] when the signature has a
    character outside ASCII, else with [OverflowError] when the size is
    negative or does not fit four bytes, else with [TypeError] when the
    size is not zero and there is no raw payload. Otherwise it produces
    the signature, the size on four bytes and, when the size is not zero,
    the raw payload; the size field read back unsigned is the size, and
    the chunk is left as it was. *)
Theorem Blob_encode_outcome (b : Blob) :
  Blob_encode b
  = (if negb (forallb (fun c => (0 <=? c) && (c <? 128)) (sig b))
     then Raise UnicodeEncodeError
     else if negb ((0 <=? size b) && (size b <? 2 ^ 32))
     then Raise OverflowError
     else if size b =? 0 then Ok (sig b ++ to_bytes_be 4 (size b))
     else match contentRaw b with
          | Some raw => Ok (sig b ++ to_bytes_be 4 (size b) ++ raw)
          | None => Raise TypeError
          end, b)
  /\ int_from_bytes (to_bytes_be 4 (size b)) = size b mod 2 ^ 32
  /\ (forall e : bytes,
        wf_chunk b ->
        fst (Blob_encode b) = Ok e ->
        Z.of_nat (length e) = Z.of_nat (length (sig b)) + 4 + size b).
Proof.
  split; [|split; [apply int_from_to_bytes_be|]].
  2:{ intros e Hwf He. apply Blob_encode_ok in He.
      destruct He as (z & _ & Hz & _ & _ & -> & Hraw).
      rewrite !length_app, Hz. unfold stored_raw, wf_chunk in *.
      destruct (size b =? 0) eqn:E.
      - apply Z.eqb_eq in E. cbn. lia.
      - apply Z.eqb_neq in E. destruct (Hraw E) as [raw Hr].
        rewrite Hr in *. lia. }
  unfold Blob_encode. unfold_M. cbv beta.
  rewrite ascii_encode_spec.
  destruct (forallb _ (sig b)); cbn [negb]; [|reflexivity].
  unfold int_to_bytes, fits_unsigned.
  change (4 <? 0) with false. change (8 * 4) with 32.
  change (Z.to_nat 4) with 4%nat. cbv iota.
  destruct ((0 <=? size b) && (size b <? 2 ^ 32)); cbn [negb];
    [|reflexivity].
  destruct (size b =? 0); [reflexivity|].
  destruct (contentRaw b); reflexivity.
Qed.

Lemma Blob_encode_outcome_witness :
  Z.of_nat (length [65; 65; 65; 65; 0; 0; 0; 2; 104; 105])
  = Z.of_nat (length (sig (mkBlob AAAA (VStr [104; 105])
                             (Some [104; 105]) 2)))
    + 4 + size (mkBlob AAAA (VStr [104; 105]) (Some [104; 105]) 2).
Proof.
  apply (proj2 (proj2 (Blob_encode_outcome
           (mkBlob AAAA (VStr [104; 105]) (Some [104; 105]) 2)))).
  - reflexivity.
  - reflexivity.
Defined.

(** ** What the constructor guarantees *)

Lemma Blob_init_dtype (sg : str) (cnt : pyval) (sz : option Z)
    (d : option dtype) :
  Blob_init sg cnt sz d
  = (b0 <~ Blob_init sg cnt sz None ;;
     match d with
     | Some _ => let '(r, self') := convert d b0 in _ <~ r ;; Ok self'
     | None => Ok b0
     end).
Proof.
  unfold Blob_init.
  match goal with
  | |- bindR ?X _ = _ => destruct X as [[raw sz1]| |]
  end; cbn [bindR]; try reflexivity.
  match goal with
  | |- bindR ?Y _ = _ => destruct Y as [n| |]
  end; cbn [bindR]; reflexivity.
Qed.

Lemma Blob_init_content (sg : str) (cnt : pyval) (sz : option Z) (b : Blob) :
  Blob_init sg cnt sz None = Ok b ->
  content b = cnt /\ (contentRaw b = None <-> cnt = VNone).
Proof.
  unfold Blob_init.
  destruct cnt as [|v|v|s|bs]; cbn [as_bytes as_int as_bool as_str].
  - intros [= <-]. repeat split.
  - destruct (int_to_bytes _ _ _); cbn [bindR]; try discriminate.
    intros [= <-]. repeat split; discriminate.
  - destruct (int_to_bytes _ _ _); cbn [bindR]; try discriminate.
    intros [= <-]. repeat split; discriminate.
  - destruct (utf8_encode s); cbn [bindR]; try discriminate.
    destruct sz; cbn [bindR]; intros [= <-]; repeat split; discriminate.
  - destruct sz; cbn [bindR]; intros [= <-]; repeat split; discriminate.
Qed.

Lemma getAs_content_irrelevant (d : option dtype) (b : Blob) (v : pyval) :
  fst (getAs d (mkBlob (sig b) v (contentRaw b) (size b))) = fst (getAs d b).
Proof.
  destruct d as [[]|]; unfold getAs, getAs_int; unfold_M; cbn [contentRaw];
    try reflexivity; destruct (contentRaw b) as [raw|]; try reflexivity.
  destruct (utf8_decode raw); reflexivity.
Qed.

(** A chunk the constructor returns has the signature it was given, and,
    when a size is given only with integer or boolean content, a declared
    size that is not negative and equals the length of its raw payload
    (0 when there is none); the raw payload is absent exactly for content
    [None]. Without [dtype] the content is the content given; with
    [dtype] it is what [getAs] returns for the chunk. *)
Theorem Blob_init_invariant (sg : str) (cnt : pyval) (sz : option Z)
    (d : option dtype) (b : Blob) :
  size_for cnt sz ->
  Blob_init sg cnt sz d = Ok b ->
  sig b = sg
  /\ wf_chunk b
  /\ 0 <= size b
  /\ (contentRaw b = None <-> cnt = VNone)
  /\ match d with
     | None => content b = cnt
     | Some _ => fst (getAs d b) = Ok (content b)
     end.
Proof.
  intros Hsz Hb. rewrite Blob_init_dtype in Hb.
  destruct (Blob_init sg cnt sz None) as [b0| |] eqn:Hb0; cbn [bindR] in Hb;
    try discriminate.
  destruct (Blob_init_wf _ _ _ _ Hsz Hb0) as [Hsg Hwf].
  destruct (Blob_init_content _ _ _ _ Hb0) as [Hcnt Hnone].
  assert (Hpos : 0 <= size b0).
  { unfold wf_chunk in Hwf. destruct (contentRaw b0); lia. }
  destruct d as [d0|].
  - unfold convert in Hb. unfold_M.
    pose proof (getAs_state (Some d0) b0) as Hg.
    destruct (getAs (Some d0) b0) as [[w| |] b2] eqn:E; cbn in Hg; subst b2;
      cbn [bindR] in Hb; try discriminate.
    injection Hb as <-. cbn [sig size contentRaw content].
    split; [exact Hsg|]. split; [exact Hwf|]. split; [exact Hpos|].
    split; [exact Hnone|].
    rewrite getAs_content_irrelevant, E. reflexivity.
  - injection Hb as <-. repeat split; try assumption; apply Hnone.
Qed.

Lemma Blob_init_invariant_witness :
  sig (mkBlob AAAA (VInt 300) (Some [1; 44]) 2) = AAAA
  /\ wf_chunk (mkBlob AAAA (VInt 300) (Some [1; 44]) 2)
  /\ 0 <= size (mkBlob AAAA (VInt 300) (Some [1; 44]) 2)
  /\ (contentRaw (mkBlob AAAA (VInt 300) (Some [1; 44]) 2) = None
      <-> VBytes [1; 44] = VNone)
  /\ fst (getAs (Some TInt) (mkBlob AAAA (VInt 300) (Some [1; 44]) 2))
     = Ok (content (mkBlob AAAA (VInt 300) (Some [1; 44]) 2)).
Proof.
  apply (Blob_init_invariant AAAA (VBytes [1; 44]) None (Some TInt)).
  - reflexivity.
  - reflexivity.
Defined.

(** ** Reading a payload as a number *)

Lemma int_from_bytes_range (bs : bytes) :
  Forall is_byte bs ->
  0 <= int_from_bytes bs < 256 ^ Z.of_nat (length bs)
  /\ (int_from_bytes bs = 0 <-> Forall (fun x => x = 0) bs).
Proof.
  induction bs as [|x bs IH] using rev_ind; intros Hall.
  - cbn. split; [lia|]. split; [constructor | reflexivity].
  - apply Forall_app in Hall as [Hbs Hx].
    inversion Hx as [|? ? Hx0 _]; subst. unfold is_byte in Hx0.
    destruct (IH Hbs) as [Hr Hz].
    rewrite int_from_bytes_snoc, length_app, Nat2Z.inj_add.
    cbn [length]. rewrite Z.pow_add_r by lia.
    change (256 ^ Z.of_nat 1) with 256.
    split; [nia|]. rewrite Forall_app. split.
    + intros H0. assert (int_from_bytes bs = 0 /\ x = 0) as [Hb ->] by lia.
      split; [apply Hz, Hb | repeat constructor].
    + intros [Hb Hx1]. inversion Hx1; subst. apply Hz in Hb. lia.
Qed.

(** [getAs(int)] of a chunk with a payload of [n] bytes is a number from
    0 to [256 ^ n - 1], never negative; [getAs(bool)] is [False] exactly
    when every byte of the payload is zero (so also for an empty
    payload). *)
Theorem getAs_int_range (b : Blob) (raw : bytes) :
  contentRaw b = Some raw ->
  Forall is_byte raw ->
  exists n : Z,
    fst (getAs (Some TInt) b) = Ok (VInt n)
    /\ 0 <= n < 256 ^ Z.of_nat (length raw)
    /\ fst (getAs (Some TBool) b) = Ok (VBool (negb (n =? 0)))
    /\ (n = 0 <-> Forall (fun x => x = 0) raw).
Proof.
  intros Hraw Hall. exists (int_from_bytes raw).
  destruct (int_from_bytes_range raw Hall) as [Hr Hz].
  unfold getAs, getAs_int. unfold_M. rewrite Hraw. cbn.
  repeat split; try apply Hz; lia.
Qed.

Lemma getAs_int_range_witness :
  exists n : Z,
    fst (getAs (Some TInt) (mkBlob AAAA VNone (Some [255; 254]) 2))
    = Ok (VInt n)
    /\ 0 <= n < 256 ^ Z.of_nat (length [255; 254])
    /\ fst (getAs (Some TBool) (mkBlob AAAA VNone (Some [255; 254]) 2))
       = Ok (VBool (negb (n =? 0)))
    /\ (n = 0 <-> Forall (fun x => x = 0) [255; 254]).
Proof.
  apply (getAs_int_range (mkBlob AAAA VNone (Some [255; 254]) 2) [255; 254]).
  - reflexivity.
  - repeat constructor; unfold is_byte; lia.
Defined.

(** ** Text through UTF-8 *)

Ltac euclid := Z.to_euclidean_division_equations; lia.

Lemma between_true (lo hi x : Z) : lo <= x <= hi -> between lo hi x = true.
Proof.
  intros H. unfold between. apply andb_true_iff.
  split; apply Z.leb_le; lia.
Qed.

Lemma between_false (lo hi x : Z) :
  x < lo \/ hi < x -> between lo hi x = false.
Proof.
  intros H. unfold between. apply andb_false_iff.
  destruct H; [left | right]; apply Z.leb_gt; lia.
Qed.

Lemma utf8_decode_encode_cp (c : Z) (b r : bytes) :
  utf8_encode_cp c = Ok b ->
  utf8_decode (b ++ r) = cons c <$> utf8_decode r.
Proof.
  unfold utf8_encode_cp.
  destruct (c <? 0) eqn:E0; [discriminate|]. apply Z.ltb_ge in E0.
  destruct (c <? 128) eqn:E1.
  { apply Z.ltb_lt in E1. intros [= <-]. cbn [app utf8_decode].
    rewrite between_true by lia. reflexivity. }
  apply Z.ltb_ge in E1.
  destruct (c <? 2048) eqn:E2.
  { apply Z.ltb_lt in E2. intros [= <-]. cbn [app utf8_decode].
    rewrite (between_false 0 127) by euclid.
    rewrite (between_true 194 223) by euclid.
    unfold cont_byte. rewrite between_true by euclid.
    replace ((192 + c / 64 - 192) * 64 + (128 + c mod 64 - 128)) with c
      by euclid.
    reflexivity. }
  apply Z.ltb_ge in E2.
  destruct ((55296 <=? c) && (c <=? 57343)) eqn:E3; [discriminate|].
  assert (Hs : c < 55296 \/ 57343 < c).
  { apply andb_false_iff in E3 as [H|H]; apply Z.leb_gt in H; lia. }
  destruct (c <? 65536) eqn:E4.
  { apply Z.ltb_lt in E4. intros [= <-]. cbn [app utf8_decode].
    rewrite (between_false 0 127) by euclid.
    rewrite (between_false 194 223) by euclid.
    rewrite (between_true 224 239) by euclid.
    assert (Hb1 : between (if 224 + c / 4096 =? 224 then 160 else 128)
                    (if 224 + c / 4096 =? 237 then 159 else 191)
                    (128 + (c / 64) mod 64) = true).
    { apply between_true.
      destruct (Z.eqb_spec (224 + c / 4096) 224);
        destruct (Z.eqb_spec (224 + c / 4096) 237); euclid. }
    rewrite Hb1. unfold cont_byte. rewrite between_true by euclid.
    cbn [andb].
    replace ((224 + c / 4096 - 224) * 4096
             + (128 + (c / 64) mod 64 - 128) * 64
             + (128 + c mod 64 - 128)) with c by euclid.
    reflexivity. }
  apply Z.ltb_ge in E4.
  destruct (c <? 1114112) eqn:E5; [|discriminate].
  apply Z.ltb_lt in E5. intros [= <-]. cbn [app utf8_decode].
  rewrite (between_false 0 127) by euclid.
  rewrite (between_false 194 223) by euclid.
  rewrite (between_false 224 239) by euclid.
  rewrite (between_true 240 244) by euclid.
  assert (Hb1 : between (if 240 + c / 262144 =? 240 then 144 else 128)
                  (if 240 + c / 262144 =? 244 then 143 else 191)
                  (128 + (c / 4096) mod 64) = true).
  { apply between_true.
    destruct (Z.eqb_spec (240 + c / 262144) 240);
      destruct (Z.eqb_spec (240 + c / 262144) 244); euclid. }
  rewrite Hb1. unfold cont_byte.
  rewrite !between_true by euclid. cbn [andb].
  replace ((240 + c / 262144 - 240) * 262144
           + (128 + (c / 4096) mod 64 - 128) * 4096
           + (128 + (c / 64) mod 64 - 128) * 64
           + (128 + c mod 64 - 128)) with c by euclid.
  reflexivity.
Qed.

Lemma utf8_decode_encode (s : str) (bs : bytes) :
  utf8_encode s = Ok bs -> utf8_decode bs = Some s.
Proof.
  revert bs. induction s as [|c s IH]; intros bs; cbn [utf8_encode].
  - intros [= <-]. reflexivity.
  - destruct (utf8_encode_cp c) as [b| |] eqn:Ec; cbn [bindR];
      try discriminate.
    destruct (utf8_encode s) as [r| |]; cbn [bindR]; try discriminate.
    intros [= <-]. rewrite (utf8_decode_encode_cp c b r Ec), (IH r eq_refl).
    reflexivity.
Qed.

Lemma utf8_encode_cp_scalar (c : Z) :
  (exists b, utf8_encode_cp c = Ok b) <-> scalar_value c = true.
Proof.
  unfold utf8_encode_cp, scalar_value.
  destruct (c <? 0) eqn:E0.
  { apply Z.ltb_lt in E0.
    replace (0 <=? c) with false by (symmetry; apply Z.leb_gt; lia).
    split; [intros [b H]; discriminate | discriminate]. }
  apply Z.ltb_ge in E0.
  replace (0 <=? c) with true by (symmetry; apply Z.leb_le; lia).
  cbn [andb].
  destruct (c <? 128) eqn:E1.
  { apply Z.ltb_lt in E1.
    replace (c <? 1114112) with true by (symmetry; apply Z.ltb_lt; lia).
    replace (55296 <=? c) with false by (symmetry; apply Z.leb_gt; lia).
    split; eauto. }
  destruct (c <? 2048) eqn:E2.
  { apply Z.ltb_lt in E2.
    replace (c <? 1114112) with true by (symmetry; apply Z.ltb_lt; lia).
    replace (55296 <=? c) with false by (symmetry; apply Z.leb_gt; lia).
    split; eauto. }
  destruct ((55296 <=? c) && (c <=? 57343)) eqn:E3.
  { cbn [negb]. rewrite andb_false_r.
    split; [intros [b H]; discriminate | discriminate]. }
  cbn [negb]. rewrite andb_true_r.
  destruct (c <? 65536) eqn:E4.
  { apply Z.ltb_lt in E4.
    replace (c <? 1114112) with true by (symmetry; apply Z.ltb_lt; lia).
    split; eauto. }
  destruct (c <? 1114112); split; eauto; try discriminate.
  intros [b H]; discriminate.
Qed.

Lemma utf8_encode_scalar (s : str) :
  (exists bs, utf8_encode s = Ok bs) <-> forallb scalar_value s = true.
Proof.
  induction s as [|c s IH]; cbn [utf8_encode forallb].
  - split; eauto.
  - rewrite andb_true_iff, <- IH, <- utf8_encode_cp_scalar. split.
    + intros [bs H].
      destruct (utf8_encode_cp c) as [b| |]; cbn [bindR] in H;
        try discriminate.
      destruct (utf8_encode s) as [r| |]; cbn [bindR] in H;
        try discriminate.
      eauto.
    + intros [[b ->] [r ->]]. cbn [bindR]. eauto.
Qed.

(** A chunk is built from text exactly when every code point is a Unicode
    scalar value, else the constructor raises [UnicodeEncodeError]; the
    chunk then declares the length of its UTF-8 payload, and
    [getAs(str)] gives the text back. *)
Theorem text_content_roundtrip (sg s : str) :
  (forallb scalar_value s = true ->
   exists (b : Blob) (raw : bytes),
     Blob_init sg (VStr s) None None = Ok b
     /\ contentRaw b = Some raw
     /\ size b = Z.of_nat (length raw)
     /\ fst (getAs (Some TStr) b) = Ok (VStr s))
  /\ (forallb scalar_value s = false ->
      Blob_init sg (VStr s) None None = Raise UnicodeEncodeError).
Proof.
  split.
  - intros Hs. apply utf8_encode_scalar in Hs as [raw Hraw].
    exists (mkBlob sg (VStr s) (Some raw) (Z.of_nat (length raw))), raw.
    split; [unfold Blob_init; cbn; rewrite Hraw; reflexivity|].
    split; [reflexivity|]. split; [reflexivity|].
    unfold getAs. unfold_M. cbn.
    rewrite (utf8_decode_encode s raw Hraw). reflexivity.
  - intros Hs. unfold Blob_init. cbn.
    destruct (utf8_encode s) as [raw| |] eqn:E; cbn.
    + assert (forallb scalar_value s = true)
        by (apply utf8_encode_scalar; eauto).
      congruence.
    + f_equal. clear Hs. revert e E.
      induction s as [|c s IH]; intros e; cbn [utf8_encode];
        [discriminate|].
      destruct (utf8_encode_cp c) as [b| |] eqn:Ec; cbn [bindR].
      * destruct (utf8_encode s) as [r| |]; cbn [bindR]; try discriminate.
        intros [= <-]. apply (IH e0 eq_refl).
      * intros [= <-]. unfold utf8_encode_cp in Ec.
        repeat match type of Ec with
               | (if ?x then _ else _) = _ => destruct x
               end; congruence.
      * discriminate.
    + exfalso. exact (utf8_encode_not_NoFuel s E).
Qed.

Lemma text_content_roundtrip_witness :
  exists (b : Blob) (raw : bytes),
    Blob_init AAAA (VStr [104; 233; 8364; 128512]) None None = Ok b
    /\ contentRaw b = Some raw
    /\ size b = Z.of_nat (length raw)
    /\ fst (getAs (Some TStr) b) = Ok (VStr [104; 233; 8364; 128512]).
Proof.
  apply (proj1 (text_content_roundtrip AAAA [104; 233; 8364; 128512])).
  reflexivity.
Defined.

(** ** Typed content through a write and a typed read *)

Lemma utf8_encode_nonempty (c : Z) (s : str) (raw : bytes) :
  utf8_encode (c :: s) = Ok raw -> raw <> [].
Proof.
  cbn [utf8_encode].
  destruct (utf8_encode_cp c) as [b| |] eqn:Ec; cbn [bindR]; try discriminate.
  destruct (utf8_encode s) as [r| |]; cbn [bindR]; try discriminate.
  intros [= <-]. unfold utf8_encode_cp in Ec.
  repeat match type of Ec with
         | (if ?x then _ else _) = _ => destruct x
         end; try discriminate; injection Ec as <-; discriminate.
Qed.

Lemma decoded_typed (sp : gmap str spec_val) (sg : str) (c v : pyval)
    (raw : bytes) (d : dtype) :
  sp !! sg = Some (SType d) ->
  raw <> [] ->
  fst (getAs (Some d) (chunk sg (Some raw))) = Ok v ->
  decoded sp (mkBlob sg c (Some raw) (Z.of_nat (length raw)))
  = mkBlob sg v (Some raw) (Z.of_nat (length raw)).
Proof.
  intros Hsp Hne Hv. unfold decoded, stored_raw. cbn [sig size contentRaw].
  rewrite Hsp.
  assert (E : (Z.of_nat (length raw) =? 0) = false).
  { apply Z.eqb_neq. destruct raw; [congruence | cbn; lia]. }
  rewrite E. unfold convert. unfold_M.
  pose proof (getAs_state (Some d) (chunk sg (Some raw))) as Hst.
  destruct (getAs (Some d) (chunk sg (Some raw))) as [r b']; cbn in Hv, Hst.
  subst r b'. reflexivity.
Qed.

(** A chunk is built from a boolean, an integer that is not negative, a
    text or a byte string that is not empty, under a four-character
    signature that the spec maps to the type of that content. Reading
    the bytes [encode] produces for it, followed by anything, yields the
    very chunk that was written, content included, and leaves what
    followed. Built from an empty text or an empty byte string, the chunk
    comes back as a marker: content and raw payload are [None]. *)
Theorem typed_content_roundtrip (sp : gmap str spec_val) (sg : str)
    (d : dtype) (c : pyval) (b : Blob) (e rest : bytes) :
  length sg = 4%nat ->
  sp !! sg = Some (SType d) ->
  Blob_init sg c None None = Ok b ->
  eval Blob_encode b = Ok e ->
  (survives d c -> read sp (e ++ rest) = (Ok (Some (IBlob b)), rest))
  /\ (c = VStr [] \/ c = VBytes [] ->
      read sp (e ++ rest) = (Ok (Some (IBlob (mkBlob sg VNone None 0))), rest)).
Proof.
  intros Hlen Hsp Hb He.
  assert (Hsz : size_for c None) by (destruct c; exact I || reflexivity).
  destruct (Blob_init_wf _ _ _ _ Hsz Hb) as [Hsg Hwf].
  assert (Hread : read sp (e ++ rest)
                  = (Ok (Some (IBlob (decoded sp b))), rest)).
  { apply read_encoded_chunk; try assumption.
    - rewrite Hsg. exact Hlen.
    - unfold scalar_sig. rewrite Hsg, Hsp. exact I. }
  rewrite Hread. split.
  - intros Hsv. apply (f_equal (fun x => (Ok (Some (IBlob x)), rest))).
    destruct d, c as [|v|v|s|bs]; try contradiction; cbn in Hsv.
    + (* int *)
      apply Blob_init_int in Hb as (raw & Hraw & ->). cbn [default] in *.
      pose proof (int_from_to_bytes_signed _ _ _ Hraw) as (Hrd & Hl & _).
      assert (Hfit : 0 <= v < 2 ^ (8 * 4)).
      { unfold int_to_bytes in Hraw. change (4 <? 0) with false in Hraw.
        destruct (fits_signed 4 v) eqn:Hf; [|discriminate].
        apply (fits_signed_nonneg v 4); [lia | exact Hf | exact Hsv]. }
      rewrite <- Hl.
      apply (decoded_typed sp sg (VInt v) (VInt v) raw TInt Hsp).
      * destruct raw; [cbn in Hl; lia | discriminate].
      * unfold getAs, getAs_int. unfold_M. cbn.
        rewrite Hrd, Z.mod_small by lia. reflexivity.
    + (* str *)
      destruct s as [|c0 s]; [contradiction|].
      unfold Blob_init in Hb. cbn [as_bytes as_int as_bool as_str] in Hb.
      destruct (utf8_encode (c0 :: s)) as [raw| |] eqn:Hraw; cbn in Hb;
        try discriminate.
      injection Hb as <-.
      apply (decoded_typed sp sg _ _ raw TStr Hsp).
      * apply (utf8_encode_nonempty c0 s raw Hraw).
      * unfold getAs. unfold_M. cbn.
        rewrite (utf8_decode_encode _ _ Hraw). reflexivity.
    + (* bytes *)
      destruct bs as [|x bs]; [contradiction|].
      injection Hb as <-.
      apply (decoded_typed sp sg _ _ (x :: bs) TBytes Hsp);
        [discriminate | reflexivity].
    + (* bool *)
      assert (Hbv : b = mkBlob sg (VBool v) (Some [0; 0; 0; Z.b2z v]) 4)
        by (destruct v; injection Hb as <-; reflexivity).
      subst b.
      apply (decoded_typed sp sg (VBool v) (VBool v) [0; 0; 0; Z.b2z v]
               TBool Hsp); [discriminate|].
      destruct v; reflexivity.
  - intros Hc. apply (f_equal (fun x => (Ok (Some (IBlob x)), rest))).
    assert (Hbe : exists c', b = mkBlob sg c' (Some []) 0)
      by (destruct Hc as [-> | ->]; injection Hb as <-; eauto).
    destruct Hbe as [c' ->].
    unfold decoded, stored_raw. cbn [sig size contentRaw]. rewrite Hsp.
    reflexivity.
Qed.

Lemma typed_content_roundtrip_witness :
  read {[ AAAA := SType TStr ]}
    ([65; 65; 65; 65; 0; 0; 0; 2; 104; 105] ++ [7])
  = (Ok (Some (IBlob (mkBlob AAAA (VStr [104; 105]) (Some [104; 105]) 2))),
     [7])
  /\ read {[ AAAA := SType TBytes ]} ([65; 65; 65; 65; 0; 0; 0; 0] ++ [7])
     = (Ok (Some (IBlob (mkBlob AAAA VNone None 0))), [7]).
Proof.
  split.
  - refine (proj1 (typed_content_roundtrip {[ AAAA := SType TStr ]} AAAA TStr
             (VStr [104; 105])
             (mkBlob AAAA (VStr [104; 105]) (Some [104; 105]) 2)
             [65; 65; 65; 65; 0; 0; 0; 2; 104; 105] [7]
             eq_refl _ eq_refl eq_refl) I).
    vm_compute. reflexivity.
  - refine (proj2 (typed_content_roundtrip {[ AAAA := SType TBytes ]} AAAA
             TBytes (VBytes [])
             (mkBlob AAAA (VBytes []) (Some []) 0)
             [65; 65; 65; 65; 0; 0; 0; 0] [7]
             eq_refl _ eq_refl eq_refl) (or_intror eq_refl)).
    vm_compute. reflexivity.
Defined.

(** ** The shape of everything [read] returns *)

Lemma bind_Ok_inv {S A B : Type} (m : M S A) (k : A -> M S B) (s s' : S)
    (y : B) :
  bind m k s = (Ok y, s') ->
  exists a s1, m s = (Ok a, s1) /\ k a s1 = (Ok y, s').
Proof.
  unfold bind. destruct (m s) as [[a|e|] s1]; try discriminate. eauto.
Qed.

Lemma wf_chunk_chunk (sg : str) (dat : option bytes) :
  wf_chunk (chunk sg dat)
  /\ (contentRaw (chunk sg dat) = None -> content (chunk sg dat) = VNone).
Proof.
  unfold wf_chunk. destruct dat; cbn; split; congruence.
Qed.

Section Conforms.
Variable sp : gmap str spec_val.

Let children_ok (cs : list (option item)) : Prop :=
  Forall (fun c => match c with Some c' => conforms sp c' | None => True end)
         cs.

Lemma conforms_group (g : BlobGroup) :
  conforms sp (IGroup g)
  <-> wf_chunk (base g)
      /\ (contentRaw (base g) = None -> content (base g) = VNone)
      /\ dict g = []
      /\ children_ok (data g)
      /\ match sp !! sig (base g) with
         | Some SList =>
             terminator g = None /\ contentRaw (base g) = None
         | Some (SCount n) =>
             terminator g = None /\ length (data g) = Z.to_nat n
         | Some (SMarker m) =>
             match terminator g with
             | Some t => sig (blob_of t) = m /\ conforms sp t
             | None => False
             end
             /\ Forall (fun c => exists c',
                            c = Some c' /\ sig (blob_of c') <> m) (data g)
         | Some (SType _) | None => False
         end.
Proof.
  cbn [conforms]. unfold children_ok.
  assert (H : forall cs,
             (fix all (cs : list (option item)) : Prop :=
                match cs with
                | [] => True
                | c :: cs' =>
                    match c with
                    | Some c' => conforms sp c'
                    | None => True
                    end /\ all cs'
                end) cs
             <-> Forall (fun c => match c with
                                  | Some c' => conforms sp c'
                                  | None => True
                                  end) cs).
  { induction cs as [|c cs IH].
    - split; [constructor | trivial].
    - split.
      + intros [Hc Hcs]. constructor; [exact Hc | apply IH, Hcs].
      + intros Hall. inversion Hall; subst.
        split; [assumption | apply IH; assumption]. }
  rewrite H. reflexivity.
Qed.

Variable rd : M bytes (option item).
Hypothesis rd_conforms :
  forall s x s', rd s = (Ok (Some x), s') -> conforms sp x.

Lemma read_n_conforms (n : nat) (acc cs : list (option item))
    (s s' : bytes) :
  children_ok acc ->
  read_n rd n acc s = (Ok cs, s') ->
  children_ok cs.
Proof.
  revert acc s. induction n as [|n IH]; intros acc s Hacc; cbn [read_n].
  - intros [= <- _]. exact Hacc.
  - intros H. apply bind_Ok_inv in H as (x & s1 & Hx & H).
    apply (IH (acc ++ [x]) s1); [|exact H].
    apply Forall_app. split; [exact Hacc|].
    constructor; [|constructor].
    destruct x as [x|]; [apply (rd_conforms _ _ _ Hx) | exact I].
Qed.

Lemma read_until_conforms (m : str) (k : nat)
    (acc cs : list (option item)) (t : item) (s s' : bytes) :
  children_ok acc ->
  Forall (fun c => exists c', c = Some c' /\ sig (blob_of c') <> m) acc ->
  read_until rd m k acc s = (Ok (cs, t), s') ->
  children_ok cs
  /\ Forall (fun c => exists c', c = Some c' /\ sig (blob_of c') <> m) cs
  /\ sig (blob_of t) = m
  /\ conforms sp t.
Proof.
  revert acc s. induction k as [|k IH]; intros acc s Hacc Hne;
    cbn [read_until]; [discriminate|].
  intros H. apply bind_Ok_inv in H as (x & s1 & Hx & H).
  destruct x as [x|]; [|discriminate].
  pose proof (rd_conforms _ _ _ Hx) as Hcx.
  destruct (str_eqb (sig (blob_of x)) m) eqn:E.
  - injection H as <- <- _. apply str_eqb_eq in E. auto.
  - apply str_eqb_neq in E.
    apply (IH (acc ++ [Some x]) s1); [| |exact H].
    + apply Forall_app. split; [exact Hacc|]. repeat constructor. exact Hcx.
    + apply Forall_app. split; [exact Hne|]. repeat constructor. eauto.
Qed.

Lemma read_body_conforms (k : nat) (s s' : bytes) (x : item) :
  read_body rd k sp s = (Ok (Some x), s') -> conforms sp x.
Proof.
  unfold read_body. intros H.
  apply bind_Ok_inv in H as (sigraw & s1 & _ & H).
  destruct sigraw as [|c0 sigraw]; [discriminate|].
  apply bind_Ok_inv in H as (sg & s2 & _ & H).
  apply bind_Ok_inv in H as (szraw & s3 & _ & H). cbv zeta in H.
  apply bind_Ok_inv in H as (dat & s4 & Hdat & H).
  apply bind_Ok_inv in H as (blob & s5 & Hblob & H).
  unfold lift in Hblob. rewrite Blob_init_raw in Hblob.
  injection Hblob as <- <-.
  destruct (wf_chunk_chunk sg dat) as [Hwf Hnone].
  destruct (wf_chunk_chunk sg None) as [Hwf0 Hnone0].
  destruct (sp !! sg) as [[|n|m|d]|] eqn:Hsp.
  - apply bind_Ok_inv in H as (grp & s6 & Hgrp & H).
    cbn [sig chunk] in Hgrp. unfold lift in Hgrp.
    rewrite BlobGroup_init_None in Hgrp. injection Hgrp as <- <-.
    apply bind_Ok_inv in H as (n & s7 & _ & H).
    apply bind_Ok_inv in H as (cs & s8 & Hcs & H).
    injection H as <- _. apply conforms_group.
    cbn [with_data base data dict terminator sig chunk]. rewrite Hsp.
    repeat split; try assumption.
    apply (read_n_conforms _ _ _ _ _ (Forall_nil_2 _) Hcs).
  - apply bind_Ok_inv in H as (grp & s6 & Hgrp & H).
    unfold lift in Hgrp.
    change (content (chunk sg dat)) with (raw_val dat) in Hgrp.
    cbn [sig chunk] in Hgrp. rewrite BlobGroup_init_raw in Hgrp.
    injection Hgrp as <- <-.
    apply bind_Ok_inv in H as (cs & s8 & Hcs & H).
    injection H as <- _. apply conforms_group.
    cbn [with_data base data dict terminator]. cbn [sig chunk]. rewrite Hsp.
    repeat split; try assumption.
    + apply (read_n_conforms _ _ _ _ _ (Forall_nil_2 _) Hcs).
    + apply read_n_length in Hcs. exact Hcs.
  - apply bind_Ok_inv in H as (grp & s6 & Hgrp & H).
    unfold lift in Hgrp.
    change (content (chunk sg dat)) with (raw_val dat) in Hgrp.
    cbn [sig chunk] in Hgrp. rewrite BlobGroup_init_raw in Hgrp.
    injection Hgrp as <- <-.
    apply bind_Ok_inv in H as ([cs t] & s8 & Hcs & H).
    injection H as <- _. apply conforms_group.
    cbn [with_data with_terminator base data dict terminator fst snd].
    cbn [sig chunk]. rewrite Hsp.
    destruct (read_until_conforms m k [] cs t _ _ (Forall_nil_2 _)
                (Forall_nil_2 _) Hcs) as (Hc & Hne & Ht & Hct).
    repeat split; assumption.
  - assert (Hsc : scalar_sig sp sg)
      by (unfold scalar_sig; rewrite Hsp; exact I).
    destruct (negb (int_from_bytes szraw =? 0)) eqn:E.
    + destruct (int_from_bytes szraw =? 0); [discriminate|].
      apply bind_Ok_inv in Hdat as (dd & s9 & _ & Hdat).
      injection Hdat as <- _.
      destruct (convert_present (Some d) (chunk sg (Some dd)) dd eq_refl)
        as (v & _ & Hc).
      rewrite Hc in H. injection H as <- _.
      cbn [conforms sig contentRaw]. repeat split; try assumption.
      discriminate.
    + injection H as <- _. cbn [conforms]. repeat split; assumption.
  - assert (Hsc : scalar_sig sp sg)
      by (unfold scalar_sig; rewrite Hsp; exact I).
    injection H as <- _. cbn [conforms]. repeat split; assumption.
Qed.

End Conforms.

Lemma read_fuel_conforms (sp : gmap str spec_val) (f : nat) (s s' : bytes)
    (x : item) :
  read_fuel f sp s = (Ok (Some x), s') -> conforms sp x.
Proof.
  revert s s' x. induction f as [|f IH]; intros s s' x; cbn [read_fuel].
  - discriminate.
  - apply read_body_conforms. intros s0 x0 s0'. apply IH.
Qed.

(** Whatever the stream holds, complete or cut short, an object that
    [read] returns has the shape the spec gives its signature: see
    [conforms]. In particular its declared size is the length of its raw
    payload; a group counted by the spec has exactly that many children
    ([None] standing for those the stream did not hold); the terminator
    of a group carries the marker signature and no child does; a group
    counted by its opening chunk keeps neither payload nor terminator. *)
Theorem read_conforms (sp : gmap str spec_val) (s s' : bytes) (x : item) :
  read sp s = (Ok (Some x), s') -> conforms sp x.
Proof. unfold read. apply read_fuel_conforms. Qed.

Lemma read_conforms_witness : conforms list_spec
  (IGroup (mkGroup (mkBlob LIST VNone None 0)
     [Some (IBlob (mkBlob [88; 88; 88; 88] (VBytes [5]) (Some [5]) 1));
      Some (IBlob (mkBlob [89; 89; 89; 89] VNone None 0))]
     []
     (Some (IBlob (mkBlob END VNone None 0))))).
Proof.
  apply (read_conforms list_spec
           (LIST ++ [0; 0; 0; 0]
            ++ [88; 88; 88; 88; 0; 0; 0; 1; 5; 89; 89; 89; 89; 0; 0; 0; 0;
                69; 78; 68; 32; 0; 0; 0; 0]) []).
  vm_compute. reflexivity.
Defined.

(** ** Truth value of what [read] returns *)

Lemma conforms_no_payload (sp : gmap str spec_val) (x : item) :
  conforms sp x ->
  (sp !! sig (blob_of x) = Some SList -> contentRaw (blob_of x) = None)
  /\ (contentRaw (blob_of x) = None -> content (blob_of x) = VNone).
Proof.
  destruct x as [b|g].
  - cbn [conforms blob_of]. intros (_ & Hn & Hsc). split; [|exact Hn].
    intros Hsp. unfold scalar_sig in Hsc. rewrite Hsp in Hsc. contradiction.
  - intros H. apply conforms_group in H as (_ & Hn & _ & _ & Hshape).
    cbn [blob_of]. split; [|exact Hn].
    intros Hsp. rewrite Hsp in Hshape. apply Hshape.
Qed.

Lemma Blob_bool_no_payload (b : Blob) :
  content b = VNone ->
  contentRaw b = None ->
  Blob_bool b = (Raise TypeError, b) /\ Blob_int b = (Raise TypeError, b).
Proof.
  intros Hc Hr. unfold Blob_bool, Blob_int, getAs_int. unfold_M. cbv beta.
  rewrite Hc. cbn [as_int]. rewrite Hr. split; reflexivity.
Qed.

(** An object that [read] returned without raw payload cannot be used as
    a condition or as an integer: [bool(x)] and [int(x)] raise
    [TypeError]. This is so for every zero-size chunk and for every group
    of the shape [list], empty or not. *)
Theorem truth_of_read_result (sp : gmap str spec_val) (s s' : bytes)
    (x : item) :
  read sp s = (Ok (Some x), s') ->
  (sp !! sig (blob_of x) = Some SList -> contentRaw (blob_of x) = None)
  /\ (contentRaw (blob_of x) = None ->
      on_blob Blob_bool x = (Raise TypeError, x)
      /\ on_blob Blob_int x = (Raise TypeError, x)).
Proof.
  intros Hr. apply read_fuel_conforms in Hr.
  destruct (conforms_no_payload sp x Hr) as [Hl Hn].
  split; [exact Hl|]. intros Hraw. specialize (Hn Hraw).
  destruct (Blob_bool_no_payload (blob_of x) Hn Hraw) as [Hb Hi].
  unfold on_blob. destruct x as [b|[b cs d t]]; cbn [blob_of base] in *;
    rewrite Hb, Hi; split; reflexivity.
Qed.

Lemma truth_of_read_result_witness :
  on_blob Blob_bool (IGroup abc_read) = (Raise TypeError, IGroup abc_read)
  /\ on_blob Blob_int (IGroup abc_read) = (Raise TypeError, IGroup abc_read).
Proof.
  apply (proj2 (truth_of_read_result grup_spec abc_bytes [] (IGroup abc_read)
                  ltac:(vm_compute; reflexivity))).
  reflexivity.
Defined.

(** ** Streams that end inside a header, signatures that do not decode *)

(** When the stream ends inside the first eight bytes, [read] does not
    raise. With one to four bytes left, all of them are taken as the
    signature and the chunk is a marker. With a four-byte signature and
    fewer than four bytes of size, the bytes present are the size; the
    payload read is then empty, so the chunk has size 0, with an empty
    payload when the size read was not zero. In both cases the signature
    has no group shape in the spec, and the channel is left empty. *)
Theorem read_short_header (sp : gmap str spec_val) (sigraw szraw : bytes)
    (sg : str) :
  sigraw <> [] ->
  utf8_decode sigraw = Some sg ->
  sp !! sg = None ->
  ((length sigraw <= 4)%nat ->
   read sp sigraw = (Ok (Some (IBlob (mkBlob sg VNone None 0))), []))
  /\ (length sigraw = 4%nat ->
      (length szraw < 4)%nat ->
      read sp (sigraw ++ szraw)
      = (Ok (Some (IBlob
           (if int_from_bytes szraw =? 0 then mkBlob sg VNone None 0
            else mkBlob sg (VBytes []) (Some []) 0))), [])).
Proof.
  intros Hne Hdec Hsp. split.
  - intros Hlen. rewrite (read_unfold sp _ _ (Nat.le_refl _)).
    unfold read_body. rewrite bind_fh_read.
    rewrite take_ge, drop_ge by (change (Z.to_nat 4) with 4%nat; lia).
    destruct sigraw as [|c t] eqn:E; [congruence|]. rewrite <- E in *.
    unfold bind at 1, lift at 1. rewrite Hdec.
    rewrite bind_fh_read. rewrite take_nil, drop_nil.
    change (int_from_bytes []) with 0. cbv zeta. change (0 =? 0) with true.
    cbv iota. unfold bind at 1, ret at 1.
    unfold bind at 1, lift at 1. cbn [raw_val]. rewrite Hsp. reflexivity.
  - intros Hlen Hsz. rewrite (read_unfold sp _ _ (Nat.le_refl _)).
    unfold read_body. rewrite bind_fh_read.
    rewrite take_app_length', drop_app_length'
      by (rewrite Hlen; reflexivity).
    destruct sigraw as [|c t] eqn:E; [congruence|]. rewrite <- E in *.
    unfold bind at 1, lift at 1. rewrite Hdec.
    rewrite bind_fh_read.
    rewrite take_ge, drop_ge by (change (Z.to_nat 4) with 4%nat; lia).
    cbv zeta. destruct (int_from_bytes szraw =? 0).
    + unfold bind at 1, ret at 1.
      unfold bind at 1, lift at 1. cbn [raw_val]. rewrite Hsp. reflexivity.
    + unfold bind at 1. rewrite bind_fh_read. rewrite take_nil, drop_nil.
      unfold ret at 1. unfold bind at 1, lift at 1. cbn [raw_val].
      rewrite Hsp. reflexivity.
Qed.

Lemma read_short_header_witness :
  read ∅ [65; 66] = (Ok (Some (IBlob (mkBlob [65; 66] VNone None 0))), [])
  /\ read ∅ (AAAA ++ [2; 0])
     = (Ok (Some (IBlob (mkBlob AAAA (VBytes []) (Some []) 0))), []).
Proof.
  split.
  - refine (proj1 (read_short_header ∅ [65; 66] [] [65; 66] _ eq_refl _) _).
    + discriminate.
    + vm_compute. reflexivity.
    + cbn. lia.
  - refine (proj2 (read_short_header ∅ AAAA [2; 0] AAAA _ eq_refl _)
              eq_refl _).
    + discriminate.
    + vm_compute. reflexivity.
    + cbn. lia.
Defined.

(** When the first four bytes of the stream (or all of them, if fewer)
    are not valid UTF-8, [read] raises [UnicodeDecodeError]; those bytes
    are consumed and nothing else. *)
Theorem read_undecodable_signature (sp : gmap str spec_val) (s : bytes) :
  s <> [] ->
  utf8_decode (take 4 s) = None ->
  read sp s = (Raise UnicodeDecodeError, drop 4 s).
Proof.
  intros Hne Hdec. rewrite (read_unfold sp _ _ (Nat.le_refl _)).
  unfold read_body. rewrite bind_fh_read. change (Z.to_nat 4) with 4%nat.
  destruct (take 4 s) as [|c t] eqn:E.
  - destruct s; [congruence | discriminate].
  - unfold bind at 1, lift at 1. rewrite Hdec. reflexivity.
Qed.

Lemma read_undecodable_signature_witness :
  read ∅ [65; 66; 67; 233; 0; 0; 0; 0]
  = (Raise UnicodeDecodeError, [0; 0; 0; 0]).
Proof.
  apply (read_undecodable_signature ∅ [65; 66; 67; 233; 0; 0; 0; 0]).
  - discriminate.
  - reflexivity.
Defined.

(** ** Opening a file for writing *)

Lemma header_init (sg : str) (v : option Z) :
  version_ok v ->
  Blob_init sg (opt_int v) None None = Ok (header_chunk sg v).
Proof.
  destruct v as [z|]; cbn [version_ok opt_int header_chunk];
    [|reflexivity].
  intros Hz. unfold Blob_init. cbn [as_bytes as_int default].
  unfold int_to_bytes, fits_signed. change (4 <? 0) with false.
  change (4 =? 0) with false. change (8 * 4 - 1) with 31. cbv iota.
  replace ((- 2 ^ 31 <=? z) && (z <? 2 ^ 31)) with true
    by (symmetry; apply andb_true_iff; split;
        [apply Z.leb_le | apply Z.ltb_lt]; lia).
  reflexivity.
Qed.

Lemma header_encode (sg : str) (v : option Z) :
  is_ascii sg = true ->
  encode (IBlob (header_chunk sg v)) = Ok (header_bytes sg v).
Proof.
  intros Ha. cbn [encode]. unfold eval, Blob_encode. unfold_M. cbv beta.
  rewrite ascii_encode_spec. fold (is_ascii (sig (header_chunk sg v))).
  destruct v as [z|]; cbn [header_chunk sig size contentRaw];
    rewrite Ha; reflexivity.
Qed.

Lemma settle_header_chunk (sg : str) (v : option Z) :
  settle_header (Some (IBlob (header_chunk sg v)))
  = match v with
    | Some z =>
        Ok (Some (IBlob (mkBlob sg (VInt (z mod 2 ^ 32))
                           (Some (to_bytes_be 4 z)) 4)))
    | None => Raise TypeError
    end.
Proof.
  destruct v as [z|]; [|reflexivity].
  unfold settle_header, Blob_bool, Blob_int. unfold_M.
  cbn [header_chunk blob_of content as_int fst bindR truthy].
  destruct (z =? 0) eqn:E; cbn [negb andb].
  - apply Z.eqb_eq in E. subst z. reflexivity.
  - unfold on_blob, convert, getAs, getAs_int. unfold_M.
    cbn [contentRaw sig size fst snd bindR].
    rewrite int_from_to_bytes_be. reflexivity.
Qed.

(** A file that can be written and not read is opened with a file type
    of ASCII characters and versions that fit four signed bytes. The
    constructor writes the ['BLOB'] header chunk and then the file-type
    chunk, each with its version as content (or as a marker when there is
    no version), after what the file already held. When both versions
    are given it returns the object, whose two header chunks hold their
    versions as unsigned integers. When a version is missing it raises
    [TypeError], both chunks having been written. *)
Theorem open_for_writing (sp : option (gmap str spec_val)) (f : File)
    (ft : str) (version blobver : option Z) :
  readable f = false ->
  writable f = true ->
  ft <> [] ->
  is_ascii ft = true ->
  version_ok version ->
  version_ok blobver ->
  let f' := mkFile (readable f) (writable f) (input f)
              (output f ++ header_bytes BLOB blobver
               ++ header_bytes ft version) in
  BlobFile_init sp (Some ft) version blobver f
  = (match blobver, version with
     | Some bv, Some v =>
         Ok (mkBlobFile f' (default ∅ sp)
               (Some (IBlob (mkBlob BLOB (VInt (bv mod 2 ^ 32))
                               (Some (to_bytes_be 4 bv)) 4)))
               (Some (IBlob (mkBlob ft (VInt (v mod 2 ^ 32))
                               (Some (to_bytes_be 4 v)) 4))))
     | _, _ => Raise TypeError
     end, f').
Proof.
  intros Hrd Hwr Hft Ha Hv Hbv f'.
  assert (Htr : str_truthy (Some ft) = true)
    by (destruct ft; [congruence | reflexivity]).
  unfold BlobFile_init, write. unfold_M. cbv beta zeta.
  rewrite Hrd, Hwr, Htr. cbn [andb].
  rewrite (header_init BLOB blobver Hbv).
  rewrite (header_encode BLOB blobver eq_refl).
  cbn [fst snd readable writable input output]. rewrite ?Hrd, ?Hwr.
  change (default [] (Some ft)) with ft.
  rewrite (header_init ft version Hv).
  rewrite (header_encode ft version Ha).
  cbn [fst snd readable writable input output]. rewrite ?Hrd, ?Hwr.
  rewrite !settle_header_chunk. subst f'. rewrite <- app_assoc.
  rewrite ?Hrd, ?Hwr.
  destruct blobver as [bv|], version as [v|]; reflexivity.
Qed.

Lemma open_for_writing_witness :
  BlobFile_init None (Some TEST) (Some 9) (Some 1) (mkFile false true [] [7])
  = (Ok (mkBlobFile
           (mkFile false true []
              ([7] ++ header_bytes BLOB (Some 1) ++ header_bytes TEST (Some 9)))
           ∅
           (Some (IBlob (mkBlob BLOB (VInt (1 mod 2 ^ 32))
                           (Some (to_bytes_be 4 1)) 4)))
           (Some (IBlob (mkBlob TEST (VInt (9 mod 2 ^ 32))
                           (Some (to_bytes_be 4 9)) 4)))),
     mkFile false true []
       ([7] ++ header_bytes BLOB (Some 1) ++ header_bytes TEST (Some 9)))
  /\ BlobFile_init None (Some TEST) None None (mkFile false true [] [])
     = (Raise TypeError,
        mkFile false true []
          ([] ++ header_bytes BLOB None ++ header_bytes TEST None)).
Proof.
  split.
  - refine (open_for_writing None (mkFile false true [] [7]) TEST (Some 9)
              (Some 1) eq_refl eq_refl _ eq_refl _ _).
    + discriminate.
    + cbn. lia.
    + cbn. lia.
  - refine (open_for_writing None (mkFile false true [] []) TEST None None
              eq_refl eq_refl _ eq_refl I I).
    discriminate.
Defined.

(** ** Opening for reading what was written at opening *)

Lemma is_ascii_decode (s : str) : is_ascii s = true -> utf8_decode s = Some s.
Proof.
  intros Ha. pose proof (ascii_encode_spec s) as H.
  fold (is_ascii s) in H. rewrite Ha in H.
  apply (ascii_encode_ok s s H).
Qed.

Lemma read_header_chunk (sp : gmap str spec_val) (sg : str) (z : Z)
    (more : bytes) :
  length sg = 4%nat ->
  is_ascii sg = true ->
  sp !! sg = None ->
  read sp (header_bytes sg (Some z) ++ more)
  = (Ok (Some (IBlob (chunk sg (Some (to_bytes_be 4 z))))), more).
Proof.
  intros Hlen Ha Hsp. unfold header_bytes.
  replace ((sg ++ [0; 0; 0; 4] ++ to_bytes_be 4 z) ++ more)
    with (sg ++ [0; 0; 0; 4] ++ (to_bytes_be 4 z ++ more))
    by (rewrite <- !app_assoc; reflexivity).
  rewrite (read_unspecified sp sg [0; 0; 0; 4] _ sg Hlen eq_refl
             (is_ascii_decode sg Ha) Hsp).
  unfold payload_of, after_payload.
  change (int_from_bytes [0; 0; 0; 4]) with 4. change (4 =? 0) with false.
  change (Z.to_nat 4) with 4%nat. cbv iota.
  rewrite (take_app_length' (to_bytes_be 4 z)),
          (drop_app_length' (to_bytes_be 4 z))
    by (rewrite length_to_bytes_be; reflexivity).
  reflexivity.
Qed.

Lemma version_fails_chunk (cmp : Z -> Z -> bool) (bound : option Z)
    (sg : str) (z : Z) :
  0 <= z < 2 ^ 31 ->
  version_fails cmp bound (IBlob (chunk sg (Some (to_bytes_be 4 z))))
  = Ok (refuses cmp z bound).
Proof.
  intros Hz. unfold version_fails, refuses, getAs_int. unfold_M.
  destruct bound as [m|]; [|reflexivity].
  cbn [blob_of content chunk raw_val truthy contentRaw fst bindR].
  rewrite length_to_bytes_be. cbn [Nat.eqb negb].
  rewrite int_from_to_bytes_be, Z.mod_small by (cbn; lia). reflexivity.
Qed.

Lemma settle_header_read (sg : str) (z : Z) :
  0 <= z < 2 ^ 31 ->
  settle_header (Some (IBlob (chunk sg (Some (to_bytes_be 4 z)))))
  = Ok (Some (header_read sg z)).
Proof.
  intros Hz. unfold settle_header, Blob_bool, Blob_int, getAs_int.
  unfold on_blob, convert, getAs, getAs_int. unfold_M.
  cbn [blob_of content chunk raw_val as_int contentRaw sig size fst snd
       bindR truthy].
  rewrite !length_to_bytes_be. cbn [Nat.eqb negb].
  rewrite !int_from_to_bytes_be, !Z.mod_small by (cbn; lia).
  unfold header_read.
  destruct (z =? 0); reflexivity.
Qed.

(** A readable file holds the two header chunks that opening for writing
    produces for file type [ft] and versions [bv] and [v], both from 0 to
    [2 ^ 31 - 1], and then [rest]; the spec gives the two signatures no
    shape. Opening it for file type [ft] raises [VersionError] when a
    requested [blobver] is above [bv], or else when a requested [version]
    is below [v]; otherwise it returns the object, with both header
    chunks kept and only [rest] left to read. A request without versions
    accepts any file of that type. *)
Theorem open_for_reading (sp : option (gmap str spec_val)) (f : File)
    (ft : str) (bv v : Z) (version blobver : option Z) (rest : bytes) :
  readable f = true ->
  length ft = 4%nat ->
  is_ascii ft = true ->
  0 <= bv < 2 ^ 31 ->
  0 <= v < 2 ^ 31 ->
  default ∅ sp !! BLOB = None ->
  default ∅ sp !! ft = None ->
  input f = header_bytes BLOB (Some bv) ++ header_bytes ft (Some v) ++ rest ->
  let at_ := fun s => mkFile (readable f) (writable f) s (output f) in
  BlobFile_init sp (Some ft) version blobver f
  = if refuses Z.ltb bv blobver
    then (Raise VersionError, at_ (header_bytes ft (Some v) ++ rest))
    else if refuses Z.gtb v version
    then (Raise VersionError, at_ rest)
    else (Ok (mkBlobFile (at_ rest) (default ∅ sp)
                (Some (header_read BLOB bv)) (Some (header_read ft v))),
          at_ rest).
Proof.
  intros Hrd Hlen Ha Hbv Hv Hs1 Hs2 Hin at_.
  assert (Htr : str_truthy (Some ft) = true)
    by (destruct ft; [discriminate | reflexivity]).
  unfold BlobFile_init, on_input. unfold_M. cbv beta zeta.
  rewrite Hrd, Htr. cbn [andb]. rewrite Hin.
  rewrite (read_header_chunk _ BLOB bv _ eq_refl eq_refl Hs1).
  cbn [blob_of sig chunk]. rewrite str_eqb_refl. cbn [negb].
  rewrite (version_fails_chunk Z.ltb blobver BLOB bv Hbv).
  destruct (refuses Z.ltb bv blobver); [reflexivity|].
  cbn [input].
  rewrite (read_header_chunk _ ft v _ Hlen Ha Hs2).
  cbn [blob_of sig chunk]. change (default [] (Some ft)) with ft.
  rewrite str_eqb_refl. cbn [negb].
  rewrite (version_fails_chunk Z.gtb version ft v Hv).
  destruct (refuses Z.gtb v version); [reflexivity|].
  cbn [fst snd].
  rewrite (settle_header_read BLOB bv Hbv), (settle_header_read ft v Hv).
  reflexivity.
Qed.

Lemma open_for_reading_witness :
  BlobFile_init None (Some TEST) (Some 9) (Some 1)
    (mkFile true false
       (header_bytes BLOB (Some 1) ++ header_bytes TEST (Some 9) ++ [5]) [])
  = (Ok (mkBlobFile (mkFile true false [5] []) ∅
           (Some (header_read BLOB 1)) (Some (header_read TEST 9))),
     mkFile true false [5] []).
Proof.
  refine (open_for_reading None
            (mkFile true false
               (header_bytes BLOB (Some 1) ++ header_bytes TEST (Some 9)
                ++ [5]) [])
            TEST 1 9 (Some 9) (Some 1) [5]
            eq_refl eq_refl eq_refl _ _ _ _ eq_refl).
  - lia.
  - lia.
  - vm_compute. reflexivity.
  - vm_compute. reflexivity.
Defined.

(** ** Iterating over a stream *)

Section Iteration.
Variable sp : gmap str spec_val.

Lemma read_None (s s' : bytes) :
  read sp s = (Ok None, s') -> s = [] /\ s' = [].
Proof.
  destruct s as [|c s]; [rewrite read_eof; intros [= <-]; auto|].
  rewrite (read_unfold sp _ _ (Nat.le_refl _)). unfold read_body.
  rewrite bind_fh_read. cbn [take Z.to_nat Pos.to_nat Pos.iter_op Nat.add].
  intros H.
  apply bind_Ok_inv in H as (sg & s2 & _ & H).
  apply bind_Ok_inv in H as (szraw & s3 & _ & H). cbv zeta in H.
  apply bind_Ok_inv in H as (dat & s4 & _ & H).
  apply bind_Ok_inv in H as (blob & s5 & _ & H).
  destruct (sp !! sg) as [[|n|m|d]|].
  - apply bind_Ok_inv in H as (grp & s6 & _ & H).
    apply bind_Ok_inv in H as (n & s7 & _ & H).
    apply bind_Ok_inv in H as (cs & s8 & _ & H). discriminate.
  - apply bind_Ok_inv in H as (grp & s6 & _ & H).
    apply bind_Ok_inv in H as (cs & s8 & _ & H). discriminate.
  - apply bind_Ok_inv in H as (grp & s6 & _ & H).
    apply bind_Ok_inv in H as (r & s8 & _ & H). discriminate.
  - destruct (negb _); [|discriminate].
    destruct (convert (Some d) blob) as [r b'].
    apply bind_Ok_inv in H as (u & s8 & _ & H). discriminate.
  - discriminate.
Qed.

Lemma iterate_reads (xs : list item) (k : nat) (acc : list item)
    (s : bytes) :
  reads sp s xs [] ->
  (length s < k)%nat ->
  iterate sp k acc s = (Ok (acc ++ xs), []).
Proof.
  revert k acc s. induction xs as [|x xs IH]; intros k acc s; cbn [reads].
  - intros <- Hk. destruct k as [|k]; [lia|]. cbn [iterate].
    unfold bind. rewrite read_eof, app_nil_r. reflexivity.
  - intros (s1 & Hx & Hxs) Hk. destruct k as [|k]; [lia|].
    cbn [iterate]. unfold bind. rewrite Hx.
    pose proof (read_progresses sp _ _ _ Hx).
    rewrite (IH k (acc ++ [x]) s1 Hxs) by lia.
    rewrite <- app_assoc. reflexivity.
Qed.

Lemma iterate_outcome (k : nat) (acc : list item) (s : bytes) :
  (length s < k)%nat ->
  fst (iterate sp k acc s) <> NoFuel
  /\ forall xs s',
      iterate sp k acc s = (Ok xs, s') ->
      s' = []
      /\ exists ys, xs = acc ++ ys
                    /\ reads sp s ys []
                    /\ Forall (conforms sp) ys.
Proof.
  revert acc s. induction k as [|k IH]; intros acc s Hk; [lia|].
  cbn [iterate]. unfold bind.
  pose proof (read_total sp s) as Ht.
  destruct (read sp s) as [[[x|]|e|] s1] eqn:Hr; cbn [fst] in *.
  - pose proof (read_progresses sp _ _ _ Hr) as Hp.
    destruct (IH (acc ++ [x]) s1 ltac:(lia)) as [Hnf Hok].
    split; [exact Hnf|]. intros xs s' H.
    destruct (Hok xs s' H) as (-> & ys & -> & Hys & Hc).
    split; [reflexivity|]. exists (x :: ys).
    split; [rewrite <- app_assoc; reflexivity|]. split.
    + cbn [reads]. eauto.
    + constructor; [|exact Hc]. apply (read_fuel_conforms sp _ _ _ _ Hr).
  - apply read_None in Hr as [-> ->]. split; [discriminate|].
    intros xs s' [= <- <-]. split; [reflexivity|].
    exists []. rewrite app_nil_r. repeat split. constructor.
  - split; [discriminate|]. intros xs s' H. discriminate.
  - congruence.
Qed.

End Iteration.

(** Iterating over a stream always ends: with an exception raised by a
    read, or else with the whole stream consumed. In that case the units
    yielded are the results of the successive reads, in order, no more of
    them than the stream has bytes, and each has the shape the spec gives
    its signature. *)
Theorem iteration_ends (sp : gmap str spec_val) (s : bytes) :
  fst (BlobFile_iter sp s) <> NoFuel
  /\ forall xs s',
      BlobFile_iter sp s = (Ok xs, s') ->
      s' = []
      /\ reads sp s xs []
      /\ (length xs <= length s)%nat
      /\ Forall (conforms sp) xs.
Proof.
  unfold BlobFile_iter.
  destruct (iterate_outcome sp (S (length s)) [] s ltac:(lia)) as [Hnf Hok].
  split; [exact Hnf|]. intros xs s' H.
  destruct (Hok xs s' H) as (-> & ys & -> & Hys & Hc). cbn [app].
  split; [reflexivity|]. split; [exact Hys|]. split; [|exact Hc].
  apply reads_length in Hys. cbn in Hys. lia.
Qed.

Lemma iteration_ends_witness :
  reads grup_spec abc_bytes [IGroup abc_read] []
  /\ (length [IGroup abc_read] <= length abc_bytes)%nat
  /\ Forall (conforms grup_spec) [IGroup abc_read].
Proof.
  apply (proj2 (iteration_ends grup_spec abc_bytes) [IGroup abc_read] []).
  vm_compute. reflexivity.
Defined.

Lemma write_each_output (xs : list item) (f f' : File) :
  readable f = false ->
  writable f = true ->
  write_each xs f = (Ok tt, f') ->
  exists r : bytes,
    encode_list (map Some xs) = Ok r
    /\ f' = mkFile (readable f) (writable f) (input f) (output f ++ r).
Proof.
  revert f. induction xs as [|x xs IH]; intros f Hrd Hwr; cbn [write_each].
  - intros [= <-]. exists []. split; [reflexivity|].
    rewrite app_nil_r. destruct f; reflexivity.
  - unfold write. unfold_M. cbv beta.
    destruct (encode x) as [e| |] eqn:He; try discriminate.
    rewrite Hwr, Hrd.
    intros H. apply IH in H as (r & Hr & ->); [|reflexivity..].
    exists (e ++ r). cbn [map encode_list]. rewrite He, Hr. cbn [bindR].
    split; [reflexivity|]. cbn [readable writable input output].
    rewrite <- app_assoc. reflexivity.
Qed.

(** Units that can be written and read back under the spec (chunks, and
    groups nested to any depth) are written one after another to a file
    that is open for writing and not for reading. The file then holds,
    after what it held, bytes from which iteration yields the units read
    back, one for each unit written and in the same order, and consumes
    them all; the mode and the input of the file are as they were. *)
Theorem write_then_iterate (sp : gmap str spec_val) (xs : list item)
    (f f' : File) :
  readable f = false ->
  writable f = true ->
  Forall (wf_item sp) xs ->
  write_each xs f = (Ok tt, f') ->
  exists r : bytes,
    f' = mkFile (readable f) (writable f) (input f) (output f ++ r)
    /\ BlobFile_iter sp r = (Ok (map (norm sp) xs), []).
Proof.
  intros Hrd Hwr Hwf Hw.
  destruct (write_each_output xs f f' Hrd Hwr Hw) as (r & Hr & ->).
  exists r. split; [reflexivity|].
  destruct (reads_encoded_children sp (map Some xs) r [])
    as (ys & _ & Hmap & Hys).
  - apply Forall_fmap. apply Forall_forall. intros x _. cbn.
    apply read_encoded_item.
  - apply Forall_fmap. eapply Forall_impl; [exact Hwf|].
    intros x Hx. cbn. eauto.
  - exact Hr.
  - assert (ys = map (norm sp) xs) as ->.
    { clear -Hmap. revert ys Hmap.
      induction xs as [|x xs IH]; intros [|y ys]; cbn; try discriminate;
        [reflexivity|].
      intros [= <- H]. f_equal. apply IH, H. }
    rewrite app_nil_r in Hys. unfold BlobFile_iter.
    rewrite (iterate_reads sp _ _ [] r Hys) by lia. reflexivity.
Qed.

Lemma write_then_iterate_witness :
  exists r : bytes,
    mkFile false true [] ([9] ++ abc_bytes ++ [65; 65; 65; 65; 0; 0; 0; 0])
    = mkFile false true [] ([9] ++ r)
    /\ BlobFile_iter grup_spec r
       = (Ok (map (norm grup_spec)
                [IGroup abc_group; IBlob (mkBlob AAAA VNone None 0)]), []).
Proof.
  refine (write_then_iterate grup_spec
            [IGroup abc_group; IBlob (mkBlob AAAA VNone None 0)]
            (mkFile false true [] [9]) _ eq_refl eq_refl _ _).
  - repeat constructor; vm_compute; try exact I; reflexivity.
  - vm_compute. reflexivity.
Defined.

(** ** More on the signature index *)

Section IndexFacts.

Lemma dict_get_None_iff (d : list (str * item)) (k : str) :
  dict_get d k = None <-> ~ In k (map fst d).
Proof.
  induction d as [|[k0 v0] d IH]; cbn [dict_get map fst In].
  - tauto.
  - destruct (str_eqb k0 k) eqn:E.
    + apply str_eqb_eq in E. split; [discriminate | tauto].
    + apply str_eqb_neq in E. rewrite IH. tauto.
Qed.

Lemma dict_get_Some_In (d : list (str * item)) (k : str) (x : item) :
  dict_get d k = Some x -> In k (map fst d).
Proof.
  induction d as [|[k0 v0] d IH]; cbn [dict_get map fst In]; [discriminate|].
  destruct (str_eqb k0 k) eqn:E.
  - apply str_eqb_eq in E. auto.
  - auto.
Qed.

Lemma dict_get_In (d : list (str * item)) (k : str) (x : item) :
  List.NoDup (map fst d) -> In (k, x) d -> dict_get d k = Some x.
Proof.
  induction d as [|[k0 v0] d IH]; cbn [dict_get map fst In]; [tauto|].
  intros Hnd [H|H].
  - injection H as -> ->. rewrite str_eqb_refl. reflexivity.
  - inversion Hnd as [|? ? Hnin Hnd']; subst.
    destruct (str_eqb k0 k) eqn:E; [|apply IH; assumption].
    apply str_eqb_eq in E. subst k0. exfalso. apply Hnin.
    apply (in_map fst) in H. exact H.
Qed.

Lemma setdefault_NoDup (d : list (str * item)) (k : str) (v : item) :
  List.NoDup (map fst d) -> List.NoDup (map fst (setdefault d k v)).
Proof.
  intros Hnd. unfold setdefault.
  destruct (dict_get d k) eqn:E; [exact Hnd|].
  apply dict_get_None_iff in E.
  rewrite map_app. cbn [map fst].
  apply NoDup_ListNoDup, NoDup_app. split; [apply NoDup_ListNoDup, Hnd|].
  split; [|apply NoDup_singleton].
  intros x Hx Hx'. apply list_elem_of_In in Hx.
  apply list_elem_of_singleton in Hx'. subst x. contradiction.
Qed.

Lemma genDict_loop_NoDup (cs : list item) (d d' : list (str * item)) :
  genDict_loop (map Some cs) d = (Ok tt, d') ->
  List.NoDup (map fst d) -> List.NoDup (map fst d').
Proof.
  revert d. induction cs as [|c cs IH]; intros d; cbn [map genDict_loop].
  - intros [= <-]. trivial.
  - intros H Hnd. apply (IH _ H). apply setdefault_NoDup, Hnd.
Qed.

Lemma genDict_loop_app (cs : list item) (tl : list (option item))
    (d d' : list (str * item)) :
  genDict_loop (map Some cs) d = (Ok tt, d') ->
  genDict_loop (map Some cs ++ tl) d = genDict_loop tl d'.
Proof.
  revert d. induction cs as [|c cs IH]; intros d; cbn [map app genDict_loop].
  - intros [= <-]. reflexivity.
  - apply IH.
Qed.

Lemma find_has_sig_Some (k : str) (cs : list item) (x : item) :
  find (has_sig k) cs = Some x -> sig (blob_of x) = k /\ In x cs.
Proof.
  intros H. apply find_some in H as [Hin Hs].
  split; [apply str_eqb_eq, Hs | exact Hin].
Qed.

Lemma find_has_sig_is_Some (k : str) (cs : list item) :
  find (has_sig k) cs <> None <-> In k (map (fun c => sig (blob_of c)) cs).
Proof.
  split.
  - destruct (find (has_sig k) cs) as [x|] eqn:E; [|congruence].
    intros _. apply find_has_sig_Some in E as [<- Hin].
    apply (in_map (fun c => sig (blob_of c))), Hin.
  - intros Hin Hnone. revert Hin.
    change (~ In k (map (fun c => sig (blob_of c)) cs)).
    clear -Hnone. induction cs as [|c cs IH]; cbn in *; [tauto|].
    unfold has_sig at 1 in Hnone.
    destruct (str_eqb (sig (blob_of c)) k) eqn:E; [discriminate|].
    apply str_eqb_neq in E. intros [H|H]; [congruence | exact (IH Hnone H)].
Qed.

End IndexFacts.

(** On a group whose index is still empty and whose children are all
    present, [items()] pairs every signature that occurs among the
    children, once, with the first child that carries it, and [keys()]
    lists the same signatures: no signature twice, none that no child
    carries, none missing, and no more entries than children. *)
Theorem keys_distinct (g : BlobGroup) (cs : list item) :
  dict g = [] ->
  data g = map Some cs ->
  exists its : list (str * item),
    fst (items g) = Ok its
    /\ fst (keys g) = Ok (map fst its)
    /\ List.NoDup (map fst its)
    /\ (forall k, In k (map fst its)
                  <-> In k (map (fun c => sig (blob_of c)) cs))
    /\ (forall k x, In (k, x) its ->
                    find (has_sig k) cs = Some x
                    /\ sig (blob_of x) = k /\ In x cs)
    /\ (length its <= length cs)%nat.
Proof.
  intros Hd Hdata.
  destruct (genDict_loop_present cs []) as (d & Hloop & Hget).
  cbn [dict_get] in Hget.
  pose proof (genDict_loop_NoDup cs [] d Hloop (List.NoDup_nil _)) as Hnd.
  assert (Hgen : genDict g
                 = (Ok tt, mkGroup (base g) (data g) d (terminator g))).
  { unfold genDict. rewrite Hd, Hdata, Hloop. reflexivity. }
  assert (Hmem : forall k, In k (map fst d)
                           <-> In k (map (fun c => sig (blob_of c)) cs)).
  { intros k. rewrite <- find_has_sig_is_Some, <- Hget. split.
    - intros Hin Hnone. apply dict_get_None_iff in Hnone. contradiction.
    - destruct (dict_get d k) as [x|] eqn:E; [|congruence].
      intros _. apply (dict_get_Some_In d k x E). }
  exists d.
  split; [unfold items, bind, get, ret; rewrite Hgen; reflexivity|].
  split; [unfold keys, bind, get, ret; rewrite Hgen; reflexivity|].
  split; [exact Hnd|]. split; [exact Hmem|]. split.
  - intros k x Hin. pose proof (dict_get_In d k x Hnd Hin) as Hk.
    rewrite Hget in Hk. split; [exact Hk|].
    apply find_has_sig_Some, Hk.
  - rewrite <- (length_map fst d),
            <- (length_map (fun c => sig (blob_of c)) cs).
    apply List.NoDup_incl_length; [exact Hnd|].
    intros k Hk. apply Hmem, Hk.
Qed.

Lemma keys_distinct_witness :
  exists its : list (str * item),
    fst (items (mkGroup (mkBlob BLOB VNone None 0)
                  (map Some index_children) [] None)) = Ok its
    /\ List.NoDup (map fst its)
    /\ (length its <= length index_children)%nat.
Proof.
  destruct (keys_distinct
              (mkGroup (mkBlob BLOB VNone None 0)
                 (map Some index_children) [] None)
              index_children eq_refl eq_refl)
    as (its & Hi & _ & Hnd & _ & _ & Hlen).
  exists its. repeat split; assumption.
Defined.

(** Whatever the state of the index, [k in g] and [g[k]] agree: the
    membership test is true exactly when the subscript returns a child,
    false exactly when it raises [KeyError], and both fail alike when
    the index cannot be built; they leave the group in the same state. *)
Theorem contains_getitem_agree (g : BlobGroup) (k : str) :
  (fst (contains k g) = Ok true <-> exists x, fst (getitem_str k g) = Ok x)
  /\ (fst (contains k g) = Ok false
      <-> fst (getitem_str k g) = Raise KeyError)
  /\ (forall e, e <> KeyError ->
        (fst (contains k g) = Raise e <-> fst (getitem_str k g) = Raise e))
  /\ snd (contains k g) = snd (getitem_str k g).
Proof.
  unfold contains, getitem_str. unfold_M.
  assert (Hg : forall e g1, genDict g = (Raise e, g1) -> e = AttributeError).
  { unfold genDict. intros e g1.
    destruct (dict g); [|discriminate].
    destruct (genDict_loop (data g) []) as [r d] eqn:E.
    intros [= -> _]. clear -E. revert E. generalize (@nil (str * item)).
    induction (data g) as [|[c|] cs IH]; intros d0; cbn [genDict_loop].
    - discriminate.
    - apply IH.
    - intros [= <- _]. reflexivity. }
  destruct (genDict g) as [[[]|e|] g1] eqn:E; cbn [fst snd].
  - destruct (dict_get (dict g1) k) as [x|]; cbn [fst snd].
    + rewrite bool_decide_eq_true_2 by eauto.
      split; [split; [eauto | reflexivity]|].
      split; [split; discriminate|].
      split; [intros e _; split; discriminate | reflexivity].
    + rewrite bool_decide_eq_false_2 by (intros [? ?]; discriminate).
      split; [split; [discriminate | intros [x H]; discriminate]|].
      split; [split; reflexivity|].
      split; [|reflexivity].
      intros e He. split; [discriminate | intros [= <-]; congruence].
  - pose proof (Hg e g1 eq_refl) as ->.
    split; [split; [discriminate | intros [x H]; discriminate]|].
    split; [split; discriminate|].
    split; [|reflexivity].
    intros e _. split; intros [= <-]; reflexivity.
  - split; [split; [discriminate | intros [x H]; discriminate]|].
    split; [split; discriminate|].
    split; [intros e _; split; discriminate | reflexivity].
Qed.

(** Building the index is idempotent: when [genDict] has succeeded,
    running it again changes nothing. *)
Theorem genDict_idempotent (g g1 : BlobGroup) :
  genDict g = (Ok tt, g1) -> genDict g1 = (Ok tt, g1).
Proof.
  unfold genDict. destruct (dict g) as [|e d] eqn:Hd.
  - destruct (genDict_loop (data g) []) as [r d'] eqn:E.
    intros [= -> <-]. cbn [dict data base terminator].
    destruct d' as [|e' d']; [|reflexivity].
    rewrite E. reflexivity.
  - intros [= <-]. rewrite Hd. reflexivity.
Qed.

Lemma genDict_idempotent_witness :
  genDict (mkGroup (mkBlob BLOB VNone None 0) (map Some index_children)
             (snd (genDict_loop (map Some index_children) [])) None)
  = (Ok tt,
     mkGroup (mkBlob BLOB VNone None 0) (map Some index_children)
       (snd (genDict_loop (map Some index_children) [])) None).
Proof.
  apply (genDict_idempotent
           (mkGroup (mkBlob BLOB VNone None 0) (map Some index_children)
              [] None)).
  reflexivity.
Defined.

(** A group has children [cs], then a [None] where a read found the end
    of the stream, then anything; its index is empty. The first
    signature-keyed access raises [AttributeError] at the [None], but the
    entries made for [cs] stay: if [cs] is not empty, the next access
    does not raise, it answers from the index of [cs] alone, and what
    comes after the [None] is never indexed. *)
Theorem index_after_failed_build (g : BlobGroup) (cs : list item)
    (tl : list (option item)) :
  dict g = [] ->
  data g = map Some cs ++ None :: tl ->
  cs <> [] ->
  exists d : list (str * item),
    let g1 := mkGroup (base g) (data g) d (terminator g) in
    (forall k, contains k g = (Raise AttributeError, g1))
    /\ (forall k, dict_get d k = find (has_sig k) cs)
    /\ genDict g1 = (Ok tt, g1)
    /\ (forall k,
          contains k g1
          = (Ok (bool_decide (is_Some (find (has_sig k) cs))), g1)).
Proof.
  intros Hd Hdata Hne.
  destruct (genDict_loop_present cs []) as (d & Hloop & Hget).
  cbn [dict_get] in Hget. exists d. cbn zeta.
  assert (Hgen : genDict g
                 = (Raise AttributeError,
                    mkGroup (base g) (data g) d (terminator g))).
  { unfold genDict. rewrite Hd, Hdata.
    rewrite (genDict_loop_app cs _ [] d Hloop). reflexivity. }
  assert (Hd' : exists e d0, d = e :: d0).
  { destruct cs as [|c cs']; [congruence|].
    specialize (Hget (sig (blob_of c))). cbn in Hget.
    unfold has_sig at 1 in Hget. rewrite str_eqb_refl in Hget.
    destruct d as [|e d0]; [discriminate|]. eauto. }
  destruct Hd' as (e & d0 & Hd').
  assert (Hkeep : genDict (mkGroup (base g) (data g) d (terminator g))
                  = (Ok tt, mkGroup (base g) (data g) d (terminator g))).
  { unfold genDict. cbn [dict]. rewrite Hd'. reflexivity. }
  split; [|split; [exact Hget|split; [exact Hkeep|]]].
  - intros k. unfold contains, bind. rewrite Hgen. reflexivity.
  - intros k. unfold contains, bind, get, ret. rewrite Hkeep.
    cbn [dict]. rewrite Hget. reflexivity.
Qed.

Lemma index_after_failed_build_witness :
  exists d : list (str * item),
    contains END (mkGroup (mkBlob BLOB VNone None 0)
                    (map Some index_children
                     ++ [None; Some (IBlob (mkBlob END VNone None 0))])
                    d None)
    = (Ok (bool_decide (is_Some (find (has_sig END) index_children))),
       mkGroup (mkBlob BLOB VNone None 0)
         (map Some index_children
          ++ [None; Some (IBlob (mkBlob END VNone None 0))])
         d None).
Proof.
  destruct (index_after_failed_build
              (mkGroup (mkBlob BLOB VNone None 0)
                 (map Some index_children
                  ++ [None; Some (IBlob (mkBlob END VNone None 0))])
                 [] None)
              index_children [Some (IBlob (mkBlob END VNone None 0))]
              eq_refl eq_refl ltac:(discriminate))
    as (d & _ & _ & _ & H).
  exists d. apply H.
Defined.

(** ** Writing a group that lacks a child *)

Lemma encode_list_None (cs : list (option item)) :
  In None cs -> forall r, encode_list cs <> Ok r.
Proof.
  induction cs as [|[c|] cs IH]; cbn [In encode_list]; [tauto| |].
  - intros [H|H]; [discriminate|]. intros r.
    destruct (encode c); cbn [bindR]; try discriminate.
    pose proof (IH H) as Hn.
    destruct (encode_list cs) as [r'| |]; cbn [bindR]; try discriminate.
    exfalso. exact (Hn r' eq_refl).
  - intros _ r. discriminate.
Qed.

(** A group with a [None] among its children (as a read on a stream that
    ended early leaves it) cannot be written: [encode] never returns
    bytes for it. When the signature is ASCII, the children number fewer
    than [2 ^ 31] and those before the first [None] can be encoded, the
    error is [AttributeError]. *)
Theorem encode_missing_child (g : BlobGroup) :
  In None (data g) ->
  (forall e, encode (IGroup g) <> Ok e)
  /\ (forall (xs : list item) (tl : list (option item)) (r : bytes),
        data g = map Some xs ++ None :: tl ->
        encode_list (map Some xs) = Ok r ->
        is_ascii (sig (base g)) = true ->
        Z.of_nat (length (data g)) < 2 ^ 31 ->
        encode (IGroup g) = Raise AttributeError).
Proof.
  intros Hin. split.
  - intros e He. apply encode_group_ok in He as (r & Hr & _).
    exact (encode_list_None _ Hin r Hr).
  - intros xs tl r Hdata Hr Ha Hlen.
    rewrite encode_group.
    assert (Hok : version_ok (Some (Z.of_nat (length (data g)))))
      by (cbn; lia).
    pose proof (header_init (sig (base g)) _ Hok) as Hi.
    cbn [opt_int header_chunk] in Hi. rewrite Hi. cbn [bindR].
    pose proof (header_encode (sig (base g))
                  (Some (Z.of_nat (length (data g)))) Ha) as He.
    cbn [encode header_chunk] in He. rewrite He. cbn [bindR].
    rewrite Hdata.
    assert (Hl : encode_list (map Some xs ++ None :: tl)
                 = Raise AttributeError).
    { clear -Hr. revert r Hr.
      induction xs as [|x xs IH]; intros r; cbn [map app encode_list];
        [reflexivity|].
      destruct (encode x); cbn [bindR]; try discriminate.
      destruct (encode_list (map Some xs)) as [r'| |] eqn:E; cbn [bindR];
        try discriminate.
      intros _. rewrite (IH r' eq_refl). reflexivity. }
    rewrite Hl. reflexivity.
Qed.

Lemma encode_missing_child_witness :
  encode (IGroup (mkGroup (mkBlob PAIR VNone None 0)
                    [Some (IBlob (mkBlob AAAA VNone None 0)); None] [] None))
  = Raise AttributeError.
Proof.
  refine (proj2 (encode_missing_child
            (mkGroup (mkBlob PAIR VNone None 0)
               [Some (IBlob (mkBlob AAAA VNone None 0)); None] [] None) _)
            [IBlob (mkBlob AAAA VNone None 0)] [] _ eq_refl eq_refl
            eq_refl _).
  - cbn. tauto.
  - cbn. lia.
Defined.

Lemma contains_getitem_agree_witness :
  exists x : item,
    fst (getitem_str AAAA (mkGroup (mkBlob BLOB VNone None 0)
                             (map Some index_children) [] None)) = Ok x.
Proof.
  apply (proj1 (proj1 (contains_getitem_agree
           (mkGroup (mkBlob BLOB VNone None 0) (map Some index_children)
              [] None) AAAA))).
  vm_compute. reflexivity.
Defined.

(** ** The end-of-stream answer *)

(** [read] answers [None] only at the end of the stream: on a stream
    that still holds a byte it yields an object or raises, and an empty
    group or a marker chunk is never confused with the end. At the end
    it answers [None] again at every call. *)
Theorem read_eof_only_at_end (sp : gmap str spec_val) (s s' : bytes) :
  read sp s = (Ok None, s') <-> s = [] /\ s' = [].
Proof.
  split.
  - apply read_None.
  - intros [-> ->]. apply read_eof.
Qed.

(** ** A chunk as an integer, before and after a typed read *)

(** A chunk built from the integer [v], of any sign, is [v] when taken
    as an integer: [int(blob)] returns the content. After [encode] and a
    read under a spec that maps the signature to [int], the chunk read is
    the unsigned value of the payload, [v mod 256 ^ size]; built with
    size 0 it comes back as a marker, and taking that as an integer
    raises [TypeError]. *)
Theorem int_of_chunk (sp : gmap str spec_val) (sg : str) (v : Z)
    (sz : option Z) (b : Blob) (e rest : bytes) :
  length sg = 4%nat ->
  sp !! sg = Some (SType TInt) ->
  Blob_init sg (VInt v) sz None = Ok b ->
  eval Blob_encode b = Ok e ->
  eval Blob_int b = Ok v
  /\ exists b' : Blob,
      read sp (e ++ rest) = (Ok (Some (IBlob b')), rest)
      /\ eval Blob_int b'
         = if size b =? 0 then Raise TypeError
           else Ok (v mod 2 ^ (8 * size b)).
Proof.
  intros Hlen Hsp Hb He.
  destruct (Blob_init_wf sg (VInt v) sz b I Hb) as [Hsg Hwf].
  apply Blob_init_int in Hb as (raw & Hraw & ->).
  split; [reflexivity|].
  exists (decoded sp (mkBlob sg (VInt v) (Some raw) (default 4 sz))).
  split.
  { apply read_encoded_chunk; try assumption.
    unfold scalar_sig. cbn [sig]. rewrite Hsp. exact I. }
  pose proof (int_from_to_bytes_signed _ _ _ Hraw) as (Hrd & Hl & _).
  cbn [size]. rewrite <- Hl.
  destruct raw as [|x raw].
  - cbn [length Z.of_nat]. change (0 =? 0) with true. cbv iota.
    unfold decoded, stored_raw. cbn [sig size contentRaw].
    rewrite Hsp. reflexivity.
  - rewrite (decoded_typed sp sg (VInt v) (VInt (int_from_bytes (x :: raw)))
               (x :: raw) TInt Hsp ltac:(discriminate) eq_refl).
    replace (Z.of_nat (length (x :: raw)) =? 0) with false
      by (symmetry; apply Z.eqb_neq; cbn [length]; lia).
    rewrite Hl, <- Hrd. reflexivity.
Qed.

Lemma int_of_chunk_witness :
  eval Blob_int (mkBlob AAAA (VInt (-2)) (Some [255; 254]) 2) = Ok (-2)
  /\ exists b' : Blob,
      read {[ AAAA := SType TInt ]}
        ([65; 65; 65; 65; 0; 0; 0; 2; 255; 254] ++ [])
      = (Ok (Some (IBlob b')), [])
      /\ eval Blob_int b'
         = if size (mkBlob AAAA (VInt (-2)) (Some [255; 254]) 2) =? 0
           then Raise TypeError
           else Ok (-2 mod 2 ^ (8 * size (mkBlob AAAA (VInt (-2))
                                            (Some [255; 254]) 2))).
Proof.
  refine (int_of_chunk {[ AAAA := SType TInt ]} AAAA (-2) (Some 2)
            (mkBlob AAAA (VInt (-2)) (Some [255; 254]) 2)
            [65; 65; 65; 65; 0; 0; 0; 2; 255; 254] []
            eq_refl _ eq_refl eq_refl).
  vm_compute. reflexivity.
Defined.

(** ** Opening a file whose first header has no version *)




Lemma read_eof_only_at_end_witness : read ∅ [] = (Ok None, []).
Proof.
  apply (proj2 (read_eof_only_at_end ∅ [] [])). split; reflexivity.
Defined.
